(** * cd365/pts: schema introspection, checked against its specification

    A shallow embedding of the parts of [app/schema.go] and of the identifier
    helpers that the specification talks about, followed by the theorems that
    settle each claim.

    Conventions of the embedding.
    - A Go [string] is a sequence of bytes: Rocq's [string] over [ascii]
      (eight bits per character), indexed and compared bytewise as the code
      does with [str[i]].
    - The two functions of Go's [strings] package that decode their argument
      as UTF-8, [ToLower] and [TrimSpace], are taken as they are: the
      development is parametric in them ([GoStrings]), as it is in Go's
      [regexp] package ([GoRegexp]).
    - A Go pointer to a scalar ([*string], [*int]) is an [option]; [nil] is
      [None].
    - A Go map is a [gmap], and a map used as a set is a [gset]; one that may
      be [nil] sits in an [option].
    - A Go [int] is a [Z]; the code only compares them with zero.
    - A run-time panic (slice out of range, [regexp.MustCompile] on a bad
      pattern) is [None] in an [option], or [Panicked] inside the database monad.
    - The database handle is a record of answers, one per statement; issuing a
      statement appends it to a log that is threaded through every call. *)

From Stdlib Require Import ZArith NArith Ascii String List Bool Sorted Lia.
From stdpp Require Import base option list gmap strings pretty.

Local Open Scope string_scope.
Local Open Scope list_scope.

(** ** Bytes *)

Definition byte_le (a b : ascii) : bool := (N_of_ascii a <=? N_of_ascii b)%N.

(** [str[i] >= lo && str[i] <= hi] *)
Definition byte_between (lo hi c : ascii) : bool := byte_le lo c && byte_le c hi.

(** [c - 32] and [c + 32] on a [byte]: arithmetic modulo 256. *)
Definition byte_sub32 (c : ascii) : ascii :=
  ascii_of_N ((N_of_ascii c + 256 - 32) mod 256)%N.

Definition byte_add32 (c : ascii) : ascii :=
  ascii_of_N ((N_of_ascii c + 32) mod 256)%N.

Definition is_upper (c : ascii) : bool := byte_between "A" "Z" c.
Definition is_lower (c : ascii) : bool := byte_between "a" "z" c.
Definition is_digit (c : ascii) : bool := byte_between "0" "9" c.

(** ** Identifier transformer *)

(** The loop of [Pascal]: [str] is what is left to read, [next2upper] the flag
    of the source; the bytes appended to [tmp] are produced in order. *)
Fixpoint Pascal_loop (str : string) (next2upper : bool) : string :=
  match str with
  | EmptyString => EmptyString
  | String c rest =>
      if Ascii.eqb c "_" then Pascal_loop rest true
      else if next2upper && is_lower c
           then String (byte_sub32 c) (Pascal_loop rest false)
           else String c (Pascal_loop rest false)
  end.

Definition Pascal (str : string) : string :=
  if String.eqb str "" then "" else Pascal_loop str true.

(** The loop of [Underline]; [i] is the index of the byte being read. *)
Fixpoint Underline_loop (str : string) (i : nat) : string :=
  match str with
  | EmptyString => EmptyString
  | String c rest =>
      if is_upper c
      then (if Nat.ltb 0 i then String "_" (String (byte_add32 c) (Underline_loop rest (S i)))
            else String (byte_add32 c) (Underline_loop rest (S i)))
      else String c (Underline_loop rest (S i))
  end.

Definition Underline (str : string) : string :=
  if String.eqb str "" then "" else Underline_loop str 0.

(** ** The functions of Go's [strings] package that the code calls

    [HasPrefix], [HasSuffix], [Contains], [TrimPrefix] and [ReplaceAll] work on
    bytes and are modelled exactly. *)

Definition HasPrefix (s pre : string) : bool := String.prefix pre s.

Definition HasSuffix (s suf : string) : bool :=
  let n := String.length s in
  let m := String.length suf in
  Nat.leb m n && String.eqb (substring (n - m) m s) suf.

Fixpoint Contains (s substr : string) : bool :=
  HasPrefix s substr ||
  match s with
  | EmptyString => false
  | String _ rest => Contains rest substr
  end.

Definition TrimPrefix (s pre : string) : string :=
  if HasPrefix s pre then substring (String.length pre) (String.length s - String.length pre) s
  else s.

(** [ReplaceAll s old new] for a non-empty [old] (the only use in the code):
    occurrences are replaced from left to right without overlap.  [skip] counts
    the bytes of an occurrence still to be dropped. *)
Fixpoint ReplaceAll_from (s old new : string) (skip : nat) : string :=
  match s with
  | EmptyString => EmptyString
  | String c rest =>
      match skip with
      | S k => ReplaceAll_from rest old new k
      | O =>
          if HasPrefix s old
          then new +:+ ReplaceAll_from rest old new (String.length old - 1)
          else String c (ReplaceAll_from rest old new 0)
      end
  end.

Definition ReplaceAll (s old new : string) : string :=
  if String.eqb old "" then s else ReplaceAll_from s old new 0.

(** *** [ToLower] and [TrimSpace]

    These two decode their argument as UTF-8: [ToLower] maps every letter of
    Unicode that has a lower case (U+0130 becomes [i], an invalid byte becomes
    U+FFFD), and [TrimSpace] removes every white space of Unicode (U+00A0 and
    U+3000 among them).  On text that is ASCII throughout both are bytewise:
    [ToLower] shifts the bytes [A] to [Z] by 32, and [TrimSpace] removes
    leading and trailing tabs, line feeds, vertical tabs, form feeds, carriage
    returns and spaces.  The package is outside the repository; the development
    is parametric in the two functions, and asks of them only what they are on
    ASCII text. *)

(** Every byte of [s] satisfies [p]. *)
Fixpoint all_bytes (p : ascii -> bool) (s : string) : bool :=
  match s with
  | EmptyString => true
  | String c rest => p c && all_bytes p rest
  end.

(** A byte below 0x80: one ASCII character, the same in UTF-8. *)
Definition is_ascii (c : ascii) : bool := (N_of_ascii c <? 128)%N.

Definition lower_byte (c : ascii) : ascii := if is_upper c then byte_add32 c else c.

(** [ToLower] on ASCII text. *)
Fixpoint ToLower_bytes (s : string) : string :=
  match s with
  | EmptyString => EmptyString
  | String c rest => String (lower_byte c) (ToLower_bytes rest)
  end.

(** The bytes Go's [unicode.IsSpace] accepts below 0x80: tab, line feed,
    vertical tab, form feed, carriage return and space. *)
Definition is_space (c : ascii) : bool :=
  let n := N_of_ascii c in
  ((9 <=? n) && (n <=? 13) || (n =? 32))%N.

Fixpoint TrimLeft_space (s : string) : string :=
  match s with
  | EmptyString => EmptyString
  | String c rest => if is_space c then TrimLeft_space rest else s
  end.

(** Dropping trailing space: a byte is kept when it is not a space or when
    something is kept after it. *)
Fixpoint TrimRight_space (s : string) : string :=
  match s with
  | EmptyString => EmptyString
  | String c rest =>
      match TrimRight_space rest with
      | EmptyString => if is_space c then EmptyString else String c EmptyString
      | kept => String c kept
      end
  end.

(** [TrimSpace] on ASCII text. *)
Definition TrimSpace_bytes (s : string) : string := TrimRight_space (TrimLeft_space s).

(** Go's [strings.ToLower] and [strings.TrimSpace], as far as the code
    depends on what they are. *)
Class GoStrings : Type := {
  ToLower : string -> string;
  TrimSpace : string -> string;
  (** On ASCII text the two functions are the bytewise ones. *)
  ToLower_ascii : forall s, all_bytes is_ascii s = true -> ToLower s = ToLower_bytes s;
  TrimSpace_ascii : forall s, all_bytes is_ascii s = true -> TrimSpace s = TrimSpace_bytes s;
  (** [ToLower] maps character by character and drops none (an invalid byte
      becomes U+FFFD): only the empty text has an empty lower case. *)
  ToLower_nonempty : forall s, ToLower s = "" -> s = "";
}.

(** The two functions as they are on ASCII text, bytes from 0x80 up left
    alone (there Go's functions do otherwise).  This instance serves to
    evaluate the definitions below on ASCII inputs, where it is Go's: a
    statement about one concrete input is read with it.  Every statement about
    all inputs is made for an arbitrary [GoStrings], Go's own included. *)
#[global] Instance ascii_strings : GoStrings := {|
  ToLower := ToLower_bytes;
  TrimSpace := TrimSpace_bytes;
  ToLower_ascii := fun _ _ => eq_refl;
  TrimSpace_ascii := fun _ _ => eq_refl;
  ToLower_nonempty := fun s =>
    match s as s0 return ToLower_bytes s0 = "" -> s0 = "" with
    | EmptyString => fun _ => eq_refl
    | String c rest => fun E =>
        match E in (_ = y)
              return (match y with EmptyString => String c rest = "" | String _ _ => True end)
        with
        | eq_refl => I
        end
    end;
|}.

(** [Camel]: [str[0:1]] panics when [Pascal str] is empty (a name made of
    underscores only); [None] is that panic. *)
Definition Camel `{GoStrings} (str : string) : option string :=
  if String.eqb str "" then Some ""
  else
    let str := Pascal str in
    match str with
    | EmptyString => None
    | String c rest => Some (ToLower (String c EmptyString) +:+ rest)
    end.

(** The one-byte string holding a double quote (byte 34). *)
Definition dquote : string := String (ascii_of_nat 34) EmptyString.

(** ** Data model *)

(** [Column].  The unexported back-reference [table *Table] is never assigned
    or read in the source and is left out. *)
Module Column.
Record t : Type := mk {
  Database : string;
  Table : string;
  Column : string;
  Comment : string;
  Type_ : option string;            (* field [Type] in the source *)
  DataType : option string;
  ColumnDefault : option string;
  IsNullable : option string;
  OrdinalPosition : option Z;
  CharacterMaximumLength : option Z;
  CharacterOctetLength : option Z;
  NumericPrecision : option Z;
  NumericScale : option Z;
  CharacterSetName : option string;
  CollationName : option string;
  ColumnKey : option string;
  Extra : option string;
  ColumnCamel : string;
  ColumnPascal : string;
  ColumnUnderline : string;
  GoType : string;
}.

(** [&Column{}] *)
Definition zero : t :=
  mk "" "" "" "" None None None None None None None None None None None None None "" "" "" "".

Definition set_Comment (v : string) (c : t) : t :=
  mk (Database c) (Table c) (Column c) v (Type_ c) (DataType c) (ColumnDefault c)
     (IsNullable c) (OrdinalPosition c) (CharacterMaximumLength c) (CharacterOctetLength c)
     (NumericPrecision c) (NumericScale c) (CharacterSetName c) (CollationName c)
     (ColumnKey c) (Extra c) (ColumnCamel c) (ColumnPascal c) (ColumnUnderline c) (GoType c).

Definition set_ColumnDefault (v : option string) (c : t) : t :=
  mk (Database c) (Table c) (Column c) (Comment c) (Type_ c) (DataType c) v
     (IsNullable c) (OrdinalPosition c) (CharacterMaximumLength c) (CharacterOctetLength c)
     (NumericPrecision c) (NumericScale c) (CharacterSetName c) (CollationName c)
     (ColumnKey c) (Extra c) (ColumnCamel c) (ColumnPascal c) (ColumnUnderline c) (GoType c).

Definition set_names (camel pascal underline gotype : string) (c : t) : t :=
  mk (Database c) (Table c) (Column c) (Comment c) (Type_ c) (DataType c) (ColumnDefault c)
     (IsNullable c) (OrdinalPosition c) (CharacterMaximumLength c) (CharacterOctetLength c)
     (NumericPrecision c) (NumericScale c) (CharacterSetName c) (CollationName c)
     (ColumnKey c) (Extra c) camel pascal underline gotype.
End Column.

Module Table.
Record t : Type := mk {
  Database : string;
  Table : string;
  Comment : string;
  Columns : list Column.t;
  Defined : string;
  AutoIncrementColumn : string;
  TableGoTypeName : string;
  TableGoTypeNameTimestamp : string;
}.

Definition set_Comment (v : string) (x : t) : t :=
  mk (Database x) (Table x) v (Columns x) (Defined x) (AutoIncrementColumn x)
     (TableGoTypeName x) (TableGoTypeNameTimestamp x).

Definition set_Columns (v : list Column.t) (x : t) : t :=
  mk (Database x) (Table x) (Comment x) v (Defined x) (AutoIncrementColumn x)
     (TableGoTypeName x) (TableGoTypeNameTimestamp x).

Definition set_Defined (v : string) (x : t) : t :=
  mk (Database x) (Table x) (Comment x) (Columns x) v (AutoIncrementColumn x)
     (TableGoTypeName x) (TableGoTypeNameTimestamp x).

Definition set_AutoIncrementColumn (v : string) (x : t) : t :=
  mk (Database x) (Table x) (Comment x) (Columns x) (Defined x) v
     (TableGoTypeName x) (TableGoTypeNameTimestamp x).

Definition set_GoTypeName (name stamped : string) (x : t) : t :=
  mk (Database x) (Table x) (Comment x) (Columns x) (Defined x) (AutoIncrementColumn x)
     name stamped.
End Table.

(** ** Type mapper: [Column.goType] *)

(** A [case "a", "b", ...:] arm of a [switch] on a string. *)
Definition case_of (s : string) (labels : list string) : bool :=
  existsb (String.eqb s) labels.

(** The flag [nullable] computed at the top of [goType]. *)
Definition goType_nullable `{GoStrings} (s : Column.t) : bool :=
  match Column.IsNullable s with
  | Some v => if String.eqb (ToLower v) "no" then false else true
  | None => true
  end.

(** The keyword [datatype] that [goType] switches on. *)
Definition goType_datatype `{GoStrings} (s : Column.t) : string :=
  let datatype :=
    match Column.DataType s with
    | Some v => ToLower v
    | None => ""
    end in
  match Column.Type_ s with
  | Some ty =>
      if String.eqb datatype "" && negb (String.eqb ty "") then ToLower ty else datatype
  | None => datatype
  end.

(** The [switch datatype] of [goType]. *)
Definition goType_switch (datatype : string) : string :=
  if case_of datatype ["tinyint"] then "int8"
  else if case_of datatype ["smallint"; "smallserial"] then "int16"
  else if case_of datatype ["integer"; "serial"; "int"] then "int"
  else if case_of datatype ["bigint"; "bigserial"] then "int64"
  else if case_of datatype ["decimal"; "numeric"; "real"; "double precision"; "double"; "float"]
       then "float64"
  else if case_of datatype ["char"; "character"; "character varying"; "text"; "varchar";
                            "enum"; "mediumtext"; "longtext"]
       then "string"
  else if case_of datatype ["bool"; "boolean"] then "bool"
  else if case_of datatype ["binary"; "varbinary"; "tinyblob"; "mediumblob"; "longblob";
                            "blob"; "bytea"]
       then "[]byte"
  else "string".

Definition goType `{GoStrings} (s : Column.t) : string :=
  let result := goType_switch (goType_datatype s) in
  if goType_nullable s
  then (if negb (String.eqb result "[]byte") then "*" +:+ result else result)
  else result.

(** [Column.init]: a no-op once [ColumnCamel] is set; [None] is the panic of
    [Camel]. *)
Definition Column_init `{GoStrings} (s : Column.t) : option Column.t :=
  if negb (String.eqb (Column.ColumnCamel s) "") then Some s
  else
    match Camel (Column.Column s) with
    | None => None
    | Some camel =>
        let pascal :=
          if String.eqb (Column.ColumnPascal s) "" then Pascal (Column.Column s)
          else Column.ColumnPascal s in
        let underline :=
          if String.eqb (Column.ColumnUnderline s) "" then Underline (Column.Column s)
          else Column.ColumnUnderline s in
        Some (Column.set_names camel pascal underline (goType s) s)
    end.

(** [for _, c := range t.Columns { c.init(way) }] *)
Fixpoint Columns_init `{GoStrings} (cs : list Column.t) : option (list Column.t) :=
  match cs with
  | [] => Some []
  | c :: rest =>
      match Column_init c with
      | None => None
      | Some c' =>
          match Columns_init rest with
          | None => None
          | Some rest' => Some (c' :: rest')
          end
      end
  end.

(** ** Go's [regexp] package

    The package is outside the repository; the code uses it through
    [MustCompile] (which panics on a pattern it cannot parse: [None]) and
    [MatchString].  The development is parametric in it. *)
Class GoRegexp : Type := {
  Regexp : Type;
  MustCompile : string -> option Regexp;
  MatchString : Regexp -> string -> bool;
}.

(** ** Configuration *)

Module Config.
(** The anonymous struct of the field [Database]; only the fields that the
    modelled functions read. *)
Record Database_t : Type := mkDatabase {
  Driver : string;
  Database : string;
  DatabaseSchemaName : string;
  TablePrefix : string;
}.

(** The anonymous struct that is the value type of [Comments]. *)
Record Comments_t : Type := mkComments {
  Comment : string;
  Columns : gmap string string;
}.

(** [DisableTableMap] is a [map[string]*struct{}] used as a set and may be
    [nil]; every value stored in it is [nil], so only its keys are kept. *)
Record t `{GoRegexp} : Type := mk {
  Database_ : Database_t;           (* field [Database] in the source *)
  DisableTable : list string;
  DisableTableMap : option (gset string);
  DisableTableRegexp : list Regexp;
  Comments : gmap string Comments_t;
  OnlyTable : list string;
}.

Definition set_Disable `{GoRegexp} (m : option (gset string)) (rs : list Regexp) (c : t) : t :=
  mk _ (Database_ c) (DisableTable c) m rs (Comments c) (OnlyTable c).
End Config.

Section DenyList.
Context `{GoRegexp} `{GoStrings}.

(** One iteration of the loop of [initConfigDisableTable]. *)
Definition initConfigDisableTable_step (cfg : Config.t) (v : string) : option Config.t :=
  let v := TrimSpace v in
  if HasPrefix v "^" && HasSuffix v "$" then
    match MustCompile v with
    | None => None
    | Some re =>
        Some (Config.set_Disable (Config.DisableTableMap cfg)
                                 (Config.DisableTableRegexp cfg ++ [re]) cfg)
    end
  else
    let m :=
      match Config.DisableTableMap cfg with
      | None => ∅
      | Some m => m
      end in
    Some (Config.set_Disable (Some ({[ v ]} ∪ m)) (Config.DisableTableRegexp cfg) cfg).

Fixpoint initConfigDisableTable_loop (cfg : Config.t) (vs : list string) : option Config.t :=
  match vs with
  | [] => Some cfg
  | v :: rest =>
      match initConfigDisableTable_step cfg v with
      | None => None
      | Some cfg' => initConfigDisableTable_loop cfg' rest
      end
  end.

(** [initConfigDisableTable]: the configuration after the call, [None] when
    [MustCompile] panics. *)
Definition initConfigDisableTable (cfg : Config.t) : option Config.t :=
  initConfigDisableTable_loop cfg (Config.DisableTable cfg).

(** [for _, disable := range cfg.DisableTableRegexp { if disable.MatchString(table) { return true } }] *)
Fixpoint anyMatch (rs : list Regexp) (table : string) : bool :=
  match rs with
  | [] => false
  | disable :: rest => if MatchString disable table then true else anyMatch rest table
  end.

Definition isTableDisabled (cfg : Config.t) (table : string) : bool :=
  match Config.DisableTableMap cfg with
  | Some m => bool_decide (table ∈ m)
  | None => anyMatch (Config.DisableTableRegexp cfg) table
  end.

End DenyList.

(** ** The database handle and the monad of database code *)

(** [hey.NewSQL(prepare, args...)] *)
Record SQL : Type := NewSQL { Prepare : string; Args : list string }.

Definition error : Type := string.

(** What the database answers to one statement: the rows as the caller's scan
    destination receives them, or the error of the query or of a [Scan]. *)
Inductive Result (A : Type) : Type :=
| Ok (a : A)
| Err (e : error).
Arguments Ok {A} a.
Arguments Err {A} e.

(** [cst.Mysql], [cst.Postgresql], [cst.Sqlite], or another string. *)
Inductive DatabaseType : Type :=
| Mysql
| Postgresql
| Sqlite
| OtherDatabase (name : string).

(** A row of [information_schema.columns] as [SchemaPostgresql.QueryColumns]
    scans it, field by field. *)
Record PgColumnRow : Type := mkPgColumnRow {
  pg_table_schema : string;
  pg_table_name : string;
  pg_column_name : string;
  pg_ordinal_position : option Z;
  pg_column_default : option string;
  pg_is_nullable : option string;
  pg_data_type : option string;
  pg_character_maximum_length : option Z;
  pg_character_octet_length : option Z;
  pg_numeric_precision : option Z;
  pg_numeric_scale : option Z;
  pg_character_set_name : option string;
  pg_collation_name : option string;
}.

(** A row of [PRAGMA table_info] as [SchemaSqlite.QueryColumns] scans it;
    [defaultValue] is the [sql.NullString] ([None] when not [Valid]). *)
Record TableInfoRow : Type := mkTableInfoRow {
  cid : Z;
  name : string;
  columnType : string;
  notNull : Z;
  defaultValue : option string;
  pk : Z;
}.

(** [*hey.Way]: the database type it was configured for and the answer of the
    database to each statement, by the shape of the rows the caller scans. *)
Record Way : Type := mkWay {
  Manual_DatabaseType : DatabaseType;
  answer_columns : SQL -> Result (list Column.t);        (* [way.Scan(ctx, sql, &columns)] *)
  answer_pg_columns : SQL -> Result (list PgColumnRow);
  answer_strings : SQL -> Result (list string);          (* rows of one string *)
  answer_table_info : SQL -> Result (list TableInfoRow);
}.

(** How a call ends: with a value, with a Go [error], or in a panic. *)
Inductive Outcome (A : Type) : Type :=
| Done (a : A)
| Failed (e : error)
| Panicked.
Arguments Done {A} a.
Arguments Failed {A} e.
Arguments Panicked {A}.

(** Database code: the log of statements issued so far goes in, the outcome
    and the extended log come out. *)
Definition DB (A : Type) : Type := list SQL -> Outcome A * list SQL.

Definition ret {A : Type} (a : A) : DB A := fun log => (Done a, log).

Definition fail {A : Type} (e : error) : DB A := fun log => (Failed e, log).

Definition panic {A : Type} : DB A := fun log => (Panicked, log).

Definition bind {A B : Type} (m : DB A) (k : A -> DB B) : DB B :=
  fun log =>
    match m log with
    | (Done a, log') => k a log'
    | (Failed e, log') => (Failed e, log')
    | (Panicked, log') => (Panicked, log')
    end.

Notation "'let*' x ':=' m 'in' k" := (bind m (fun x => k))
  (at level 10, x name, m at level 100, k at level 200).

(** Issue [q]: it is logged, and the database answers. *)
Definition issue {R : Type} (answer : SQL -> Result R) (q : SQL) : DB R :=
  fun log =>
    match answer q with
    | Ok rows => (Done rows, log ++ [q])
    | Err e => (Failed e, log ++ [q])
    end.

(** A panicking pure computation inside database code. *)
Definition or_panic {A : Type} (o : option A) : DB A :=
  match o with
  | Some a => ret a
  | None => panic
  end.

(** [for ... { x, err := f(...); if err != nil { return err }; ... }] *)
Fixpoint mapM {A B : Type} (f : A -> DB B) (l : list A) : DB (list B) :=
  match l with
  | [] => ret []
  | a :: rest =>
      let* b := f a in
      let* bs := mapM f rest in
      ret (b :: bs)
  end.

(** ** Dialect adapters

    The context argument and the configuration argument, which these methods
    do not read, are dropped. *)

Definition newline : string := String (ascii_of_nat 10) EmptyString.

(** *** MySQL *)

Definition SchemaMysql_QueryColumns_prepare : string :=
  "SELECT TABLE_SCHEMA AS table_schema, TABLE_NAME AS table_name, COLUMN_NAME AS column_name, ORDINAL_POSITION AS ordinal_position, COLUMN_DEFAULT AS column_default, IS_NULLABLE AS is_nullable, DATA_TYPE AS data_type, CHARACTER_MAXIMUM_LENGTH AS character_maximum_length, CHARACTER_OCTET_LENGTH AS character_octet_length, NUMERIC_PRECISION AS numeric_precision, NUMERIC_SCALE AS numeric_scale, CHARACTER_SET_NAME AS character_set_name, COLLATION_NAME AS collation_name, COALESCE(COLUMN_COMMENT,'') AS column_comment, COLUMN_TYPE AS column_type, COLUMN_KEY AS column_key, EXTRA AS extra FROM information_schema.COLUMNS WHERE TABLE_SCHEMA = ? AND TABLE_NAME = ? ORDER BY ordinal_position ASC".

Definition SchemaMysql_QueryColumns (way : Way) (schema table : string) : DB (list Column.t) :=
  if String.eqb schema "" || String.eqb table "" then ret []
  else issue (answer_columns way) (NewSQL SchemaMysql_QueryColumns_prepare [schema; table]).

(** *** PostgreSQL *)

Definition SchemaPostgresql_QueryColumns_prepare : string :=
  "SELECT table_schema, table_name, column_name, ordinal_position, column_default, is_nullable, data_type, character_maximum_length, character_octet_length, numeric_precision, numeric_scale, character_set_name, collation_name FROM information_schema.columns WHERE ( table_schema = ? AND table_name = ? ) ORDER BY ordinal_position ASC".

Definition SchemaPostgresql_column_comment_prepare : string :=
  "SELECT COALESCE(d.description,'') AS column_comment FROM pg_class c, pg_attribute a, pg_type t, pg_description d WHERE ( c.relname = ? AND a.attname = ? AND a.attnum > 0 AND a.attrelid = c.oid AND a.atttypid = t.oid AND d.objoid = a.attrelid AND d.objsubid = a.attnum ) ORDER BY a.attnum ASC LIMIT 1;".

(** [tmp := &Column{}; rows.Scan(&tmp.Database, &tmp.Table, ...)] *)
Definition Column_of_PgColumnRow (r : PgColumnRow) : Column.t :=
  Column.mk (pg_table_schema r) (pg_table_name r) (pg_column_name r) ""
    None (pg_data_type r) (pg_column_default r) (pg_is_nullable r)
    (pg_ordinal_position r) (pg_character_maximum_length r) (pg_character_octet_length r)
    (pg_numeric_precision r) (pg_numeric_scale r) (pg_character_set_name r)
    (pg_collation_name r) None None "" "" "" "".

(** The body of the second loop of [SchemaPostgresql.QueryColumns]: the
    comment of one column; only the first row of the answer is scanned. *)
Definition SchemaPostgresql_column_comment (way : Way) (table : string) (v : Column.t)
  : DB Column.t :=
  if String.eqb (Column.Column v) "" then ret v
  else
    let* rows := issue (answer_strings way)
                       (NewSQL SchemaPostgresql_column_comment_prepare [table; Column.Column v]) in
    match rows with
    | [] => ret v
    | tmp :: _ => ret (Column.set_Comment tmp v)
    end.

Definition SchemaPostgresql_QueryColumns (way : Way) (schema table : string)
  : DB (list Column.t) :=
  if String.eqb schema "" || String.eqb table "" then ret []
  else
    let* rows := issue (answer_pg_columns way)
                       (NewSQL SchemaPostgresql_QueryColumns_prepare [schema; table]) in
    mapM (SchemaPostgresql_column_comment way table) (map Column_of_PgColumnRow rows).

(** [pgsqlSeq], the compiled pattern
    [^nextval\('([A-Za-z0-9_]+)'::regclass\)$], as the function it denotes.
    Without flags [^] and [$] match at the two ends of the text only, so a match
    is the whole text: the literal [nextval('], a non-empty run of letters,
    digits and underscores, and the literal ['::regclass)].  No byte of the
    class is a quote, so the run is the longest one. *)
Definition is_word (c : ascii) : bool :=
  is_upper c || is_lower c || is_digit c || Ascii.eqb c "_".

(** The longest prefix of [s] made of word bytes, and what follows it. *)
Fixpoint span_word (s : string) : string * string :=
  match s with
  | EmptyString => (EmptyString, EmptyString)
  | String c rest =>
      if is_word c then (let (w, r) := span_word rest in (String c w, r))
      else (EmptyString, s)
  end.

(** The capture group of [pgsqlSeq] on [s], when [s] matches. *)
Definition pgsqlSeq_group (s : string) : option string :=
  if HasPrefix s "nextval('" then
    let (w, r) := span_word (substring 9 (String.length s - 9) s) in
    if negb (String.eqb w "") && String.eqb r "'::regclass)" then Some w else None
  else None.

Definition pgsqlSeq_MatchString (s : string) : bool :=
  match pgsqlSeq_group s with
  | Some _ => true
  | None => false
  end.

(** [pgsqlSeq.FindAllStringSubmatch(s, -1)]: the pattern is anchored at both
    ends, so there is at most one match; it lists the text and the group. *)
Definition pgsqlSeq_FindAllStringSubmatch (s : string) : list (list string) :=
  match pgsqlSeq_group s with
  | Some g => [[s; g]]
  | None => []
  end.

(** One iteration of the first loop of [SchemaPostgresql.QueryTableDefineSql].
    The state is [createSequence] and [table.AutoIncrementColumn]; the column
    comes back because its default is rewritten in place. *)
Definition SchemaPostgresql_define_step (st : string * string) (c : Column.t)
  : (string * string) * Column.t :=
  match Column.ColumnDefault c with
  | None => (st, c)
  | Some d =>
      let d := if Contains d dquote then ReplaceAll d dquote "" else d in
      let c := Column.set_ColumnDefault (Some d) c in
      if pgsqlSeq_MatchString d then
        match pgsqlSeq_FindAllStringSubmatch d with
        | [[_; g]] =>
            if negb (String.eqb g "")
            then (("CREATE SEQUENCE IF NOT EXISTS " +:+ g +:+ " START 1;" +:+ newline,
                   Column.Column c), c)
            else (st, c)
        | _ => (st, c)
        end
      else (st, c)
  end.

Fixpoint SchemaPostgresql_define_loop (st : string * string) (cs : list Column.t)
  : (string * string) * list Column.t :=
  match cs with
  | [] => (st, [])
  | c :: rest =>
      let (st1, c') := SchemaPostgresql_define_step st c in
      let (st2, rest') := SchemaPostgresql_define_loop st1 rest in
      (st2, c' :: rest')
  end.

(** [for rows.Next() { rows.Scan(&result) }]: the last row wins. *)
Definition last_row (rows : list string) : string := List.last rows "".

(** [SchemaPostgresql.QueryTableDefineSql].  The table is mutated before the
    statement is issued, so the table after the call is returned whatever the
    outcome. *)
Definition SchemaPostgresql_QueryTableDefineSql (way : Way) (table : Table.t)
  : list SQL -> (Table.t * Outcome string) * list SQL :=
  fun log =>
    let '((createSequence, auto), columns) :=
      SchemaPostgresql_define_loop ("", Table.AutoIncrementColumn table) (Table.Columns table) in
    let table := Table.set_AutoIncrementColumn auto (Table.set_Columns columns table) in
    let prepare :=
      "SELECT show_create_table_schema('" +:+ Table.Database table +:+ "', '"
        +:+ Table.Table table +:+ "')" in
    match issue (answer_strings way) (NewSQL prepare []) log with
    | (Done rows, log') =>
        let result := last_row rows in
        let result := ReplaceAll result "CREATE TABLE" "CREATE TABLE IF NOT EXISTS" in
        let result := ReplaceAll result "CREATE INDEX" "CREATE INDEX IF NOT EXISTS" in
        let result := ReplaceAll result "CREATE UNIQUE INDEX" "CREATE UNIQUE INDEX IF NOT EXISTS" in
        let result := createSequence +:+ result in
        ((Table.set_Defined result table, Done result), log')
    | (Failed e, log') => ((table, Failed e), log')
    | (Panicked, log') => ((table, Panicked), log')
    end.

(** *** SQLite *)

(** The [Column] built from one row of [PRAGMA table_info]. *)
Definition Column_of_TableInfoRow (table : string) (r : TableInfoRow) : Column.t :=
  let isNullable := if (0 <? notNull r)%Z then "no" else "yes" in
  Column.mk "" table (name r) ""
    (Some (columnType r)) None (defaultValue r) (Some isNullable)
    (Some (cid r)) None None None None None None None
    (if (0 <? pk r)%Z then Some "auto_increment" else None)
    "" "" "" "".

Definition SchemaSqlite_QueryColumns (way : Way) (schema table : string) : DB (list Column.t) :=
  if String.eqb table "" then ret []
  else
    let* rows := issue (answer_table_info way)
                       (NewSQL ("PRAGMA table_info(" +:+ table +:+ ");") []) in
    ret (map (Column_of_TableInfoRow table) rows).

(** The inner loop of [SchemaSqlite.QuerySchemas], on the value of
    [table.AutoIncrementColumn]. *)
Definition SchemaSqlite_auto_step (auto : string) (column : Column.t) : string :=
  match Column.Extra column with
  | Some extra =>
      if String.eqb auto "" && String.eqb extra "auto_increment" then Column.Column column
      else auto
  | None => auto
  end.

(** The body of the outer loop of [SchemaSqlite.QuerySchemas]. *)
Definition SchemaSqlite_QuerySchemas_table (way : Way) (table : Table.t) : DB Table.t :=
  let* columns := SchemaSqlite_QueryColumns way (Table.Database table) (Table.Table table) in
  let auto := fold_left SchemaSqlite_auto_step columns (Table.AutoIncrementColumn table) in
  ret (Table.set_Columns columns (Table.set_AutoIncrementColumn auto table)).

(** [SchemaSqlite.QuerySchemas]: the tables after the call.  On an error the
    caller drops them all. *)
Definition SchemaSqlite_QuerySchemas (way : Way) (tables : list Table.t) : DB (list Table.t) :=
  mapM (SchemaSqlite_QuerySchemas_table way) tables.

(** ** Schema aggregator *)

Section Aggregator.
Context `{GoRegexp} `{GoStrings}.

(** The interface [Schema].  A method that mutates the tables it is given
    returns them. *)
Record Schema : Type := mkSchema {
  QueryTableDefineSql : Config.t -> Table.t -> list SQL -> (Table.t * Outcome string) * list SQL;
  QueryTables : Config.t -> string -> DB (list Table.t);
  QueryColumns : Config.t -> string -> string -> DB (list Column.t);
  QuerySchemas : Config.t -> list Table.t -> DB (list Table.t);
}.

(** The set [onlyTableMap] built from [config.OnlyTable]. *)
Fixpoint onlyTableMap_loop (m : gset string) (only : list string) : gset string :=
  match only with
  | [] => m
  | t :: rest =>
      let t := TrimSpace t in
      if negb (String.eqb t "") then onlyTableMap_loop ({[ t ]} ∪ m) rest
      else onlyTableMap_loop m rest
  end.

Definition onlyTableMap (config : Config.t) : gset string :=
  onlyTableMap_loop ∅ (Config.OnlyTable config).

(** The filter loop of [GetAllTables] over the listed tables. *)
Fixpoint selectTables_loop (config : Config.t) (onlyTableMap : gset string) (onlyTable : bool)
  (lists : list Table.t) : list Table.t :=
  match lists with
  | [] => []
  | t :: rest =>
      if onlyTable then
        (if bool_decide (Table.Table t ∈ onlyTableMap)
         then t :: selectTables_loop config onlyTableMap onlyTable rest
         else selectTables_loop config onlyTableMap onlyTable rest)
      else if isTableDisabled config (Table.Table t)
           then selectTables_loop config onlyTableMap onlyTable rest
           else t :: selectTables_loop config onlyTableMap onlyTable rest
  end.

Definition selectTables (config : Config.t) (lists : list Table.t) : list Table.t :=
  let m := onlyTableMap config in
  let onlyTable := Nat.ltb 0 (size m) in
  selectTables_loop config m onlyTable lists.

(** [fmt.Sprintf("%s%d", name, timestamp)] *)
Definition Sprintf_s_d (s : string) (d : Z) : string := s +:+ pretty d.

(** The body of the last loop of [GetAllTables] on one table; [None] is the
    panic of [Column.init]. *)
Definition GetAllTables_finish (config : Config.t) (timestamp : Z) (t : Table.t)
  : option Table.t :=
  let t := if String.eqb (Table.Comment t) "" then Table.set_Comment (Table.Table t) t else t in
  let t :=
    if String.eqb (Table.TableGoTypeName t) "" then
      let name := Table.Table t in
      let prefix := Config.TablePrefix (Config.Database_ config) in
      let name := if negb (String.eqb prefix "") then TrimPrefix name prefix else name in
      Table.set_GoTypeName (Pascal name) (Sprintf_s_d (Pascal name) timestamp) t
    else t in
  match Columns_init (Table.Columns t) with
  | None => None
  | Some cs => Some (Table.set_Columns cs t)
  end.

Fixpoint GetAllTables_finish_all (config : Config.t) (timestamp : Z) (ts : list Table.t)
  : option (list Table.t) :=
  match ts with
  | [] => Some []
  | t :: rest =>
      match GetAllTables_finish config timestamp t with
      | None => None
      | Some t' =>
          match GetAllTables_finish_all config timestamp rest with
          | None => None
          | Some rest' => Some (t' :: rest')
          end
      end
  end.

(** The scope [databaseName] that [GetAllTables] lists tables in. *)
Definition GetAllTables_databaseName (config : Config.t) (way : Way) : string :=
  match Manual_DatabaseType way with
  | Postgresql => Config.DatabaseSchemaName (Config.Database_ config)
  | Sqlite => ""
  | _ => Config.Database (Config.Database_ config)
  end.

(** [GetAllTables]; [now] is the reading of [time.Now().Unix()]. *)
Definition GetAllTables (config : Config.t) (schema : Schema) (way : Way) (now : Z)
  : DB (list Table.t) :=
  let databaseName := GetAllTables_databaseName config way in
  let* lists := QueryTables schema config databaseName in
  let tables := selectTables config lists in
  let* tables := QuerySchemas schema config tables in
  or_panic (GetAllTables_finish_all config now tables).

(** *** Comment backfill: the loop of [App.Run] over the tables *)

(** The fallback of one column. *)
Definition Run_backfill_column (columns : gmap string string) (column : Column.t) : Column.t :=
  match columns !! Column.Column column with
  | Some vb =>
      if negb (String.eqb vb "") then
        (if String.eqb (Column.Comment column) ""
            || String.eqb (Column.Comment column) (Column.Column column)
         then Column.set_Comment vb column
         else column)
      else column
  | None => column
  end.

(** The block [replace empty comment] on one table. *)
Definition Run_backfill (config : Config.t) (table : Table.t) : Table.t :=
  match Config.Comments config !! Table.Table table with
  | Some va =>
      let table :=
        if negb (String.eqb (Config.Comment va) "") then
          (if String.eqb (Table.Comment table) ""
              || String.eqb (Table.Comment table) (Table.Table table)
           then Table.set_Comment (Config.Comment va) table
           else table)
        else table in
      if Nat.ltb 0 (size (Config.Columns va))
      then Table.set_Columns (map (Run_backfill_column (Config.Columns va)) (Table.Columns table))
                             table
      else table
  | None => table
  end.

(** The block [all table columns]: the names seen so far and the list
    [tmp.AllTableColumns]. *)
Fixpoint Run_allColumns (seen : gset string) (all : list string) (columns : list Column.t)
  : gset string * list string :=
  match columns with
  | [] => (seen, all)
  | column :: rest =>
      if bool_decide (Column.Column column ∈ seen) then Run_allColumns seen all rest
      else Run_allColumns ({[ Column.Column column ]} ∪ seen) (all ++ [Column.Column column]) rest
  end.

(** [Template] *)
Record Template : Type := mkTemplate {
  Tables : list Table.t;
  AllTableColumns : list string;
}.

(** The loop of [App.Run] over [tables]. *)
Fixpoint Run_loop (config : Config.t) (seen : gset string) (all : list string)
  (tables : list Table.t) : list Table.t * list string :=
  match tables with
  | [] => ([], all)
  | table :: rest =>
      let table := Run_backfill config table in
      let (seen, all) := Run_allColumns seen all (Table.Columns table) in
      let (rest, all) := Run_loop config seen all rest in
      (table :: rest, all)
  end.

Definition Run_template (config : Config.t) (tables : list Table.t) : Template :=
  let (tables, all) := Run_loop config ∅ [] tables in
  mkTemplate tables all.

End Aggregator.

(** ** An instance of [GoRegexp] for evaluation

    A fragment of the syntax of Go's [regexp], enough for deny-list patterns
    such as [^log_.*$]: a pattern [^body$] whose body is a sequence of literal
    bytes, escaped punctuation and [.], each optionally followed by one of
    [*], [+], [?].  Text is taken bytewise (as Go does on ASCII text).  A
    pattern outside the fragment gets [None] here, whatever Go does with it;
    the theorems below that quantify over [GoRegexp] do not depend on this
    instance. *)
Module Fragment.

Inductive re : Type :=
| Void
| Eps
| Chr (c : ascii)
| Dot
| Cat (a b : re)
| Alt (a b : re)
| Star (a : re).

Fixpoint nullable (r : re) : bool :=
  match r with
  | Void => false
  | Eps => true
  | Chr _ => false
  | Dot => false
  | Cat a b => nullable a && nullable b
  | Alt a b => nullable a || nullable b
  | Star _ => true
  end.

(** The derivative of [r] by the byte [c]; [.] matches any byte but a line
    feed. *)
Fixpoint deriv (c : ascii) (r : re) : re :=
  match r with
  | Void => Void
  | Eps => Void
  | Chr d => if Ascii.eqb c d then Eps else Void
  | Dot => if Ascii.eqb c (ascii_of_nat 10) then Void else Eps
  | Cat a b => if nullable a then Alt (Cat (deriv c a) b) (deriv c b) else Cat (deriv c a) b
  | Alt a b => Alt (deriv c a) (deriv c b)
  | Star a => Cat (deriv c a) (Star a)
  end.

(** Does [r] match the whole of [s]? *)
Fixpoint matches (r : re) (s : string) : bool :=
  match s with
  | EmptyString => nullable r
  | String c rest => matches (deriv c r) rest
  end.

Inductive token : Type :=
| TAtom (r : re)
| TStar
| TPlus
| TQuest.

Definition is_meta (c : ascii) : bool :=
  existsb (Ascii.eqb c) (list_ascii_of_string "()[]{}|^$").

Definition is_punct (c : ascii) : bool :=
  let n := N_of_ascii c in
  ((33 <=? n) && (n <=? 126))%N && negb (is_upper c || is_lower c || is_digit c).

Fixpoint tokens (s : string) : option (list token) :=
  match s with
  | EmptyString => Some []
  | String c rest =>
      if Ascii.eqb c "\" then
        match rest with
        | String d rest' =>
            if is_punct d then option_map (cons (TAtom (Chr d))) (tokens rest') else None
        | EmptyString => None
        end
      else if Ascii.eqb c "." then option_map (cons (TAtom Dot)) (tokens rest)
      else if Ascii.eqb c "*" then option_map (cons TStar) (tokens rest)
      else if Ascii.eqb c "+" then option_map (cons TPlus) (tokens rest)
      else if Ascii.eqb c "?" then option_map (cons TQuest) (tokens rest)
      else if is_meta c then None
      else option_map (cons (TAtom (Chr c))) (tokens rest)
  end.

Fixpoint build (ts : list token) : option re :=
  match ts with
  | [] => Some Eps
  | TAtom a :: rest =>
      match rest with
      | TStar :: rest' => option_map (Cat (Star a)) (build rest')
      | TPlus :: rest' => option_map (Cat (Cat a (Star a))) (build rest')
      | TQuest :: rest' => option_map (Cat (Alt Eps a)) (build rest')
      | _ => option_map (Cat a) (build rest)
      end
  | _ => None
  end.

Definition compile (s : string) : option re :=
  let n := String.length s in
  if HasPrefix s "^" && HasSuffix s "$" && Nat.leb 2 n then
    match tokens (substring 1 (n - 2) s) with
    | Some ts => build ts
    | None => None
    end
  else None.

#[export] Instance engine : GoRegexp :=
  {| Regexp := re; MustCompile := compile; MatchString := matches |}.

End Fragment.

(** ** Vocabulary of the specification *)

(** An identifier that is already Pascal case: it begins with an upper-case
    ASCII letter and holds no underscore. *)
Definition is_PascalCase (s : string) : bool :=
  match s with
  | EmptyString => false
  | String c _ => is_upper c && negb (Contains s "_")
  end.

(** The semantic types a column resolves to. *)
Definition semantic_types : list string :=
  ["int8"; "int16"; "int"; "int64"; "float64"; "string"; "bool"; "[]byte"].

(** The keyword families, each with its semantic type. *)
Definition keyword_families : list (string * list string) :=
  [ ("int8", ["tinyint"]);
    ("int16", ["smallint"; "smallserial"]);
    ("int", ["integer"; "serial"; "int"]);
    ("int64", ["bigint"; "bigserial"]);
    ("float64", ["decimal"; "numeric"; "real"; "double precision"; "double"; "float"]);
    ("string", ["char"; "character"; "character varying"; "text"; "varchar"; "enum";
                "mediumtext"; "longtext"]);
    ("bool", ["bool"; "boolean"]);
    ("[]byte", ["binary"; "varbinary"; "tinyblob"; "mediumblob"; "longblob"; "blob"; "bytea"]) ].

Definition recognized_keywords : list string :=
  concat (map snd keyword_families).

(** The semantic type of a keyword by family; [string] outside every family. *)
Definition family_type (keyword : string) : string :=
  match List.find (fun fam => existsb (String.eqb keyword) (snd fam)) keyword_families with
  | Some fam => fst fam
  | None => "string"
  end.

(** The optional marker around a semantic type. *)
Definition optional (ty : string) : string := "*" +:+ ty.

(** A comment is kept, or it was empty or the name itself and [fallback] took
    its place. *)
Definition kept_or_backfilled (name before after : string) (fallback : option string) : Prop :=
  after = before
  \/ ((before = "" \/ before = name) /\ fallback = Some after /\ after <> "").

Section Fallbacks.
Context `{GoRegexp}.

(** The fallback comment the configuration holds for a table, if any. *)
Definition table_fallback (config : Config.t) (table : Table.t) : option string :=
  match Config.Comments config !! Table.Table table with
  | Some va => Some (Config.Comment va)
  | None => None
  end.

(** The fallback comment the configuration holds for a column of a table. *)
Definition column_fallback (config : Config.t) (table : Table.t) (column : Column.t)
  : option string :=
  match Config.Comments config !! Table.Table table with
  | Some va => Config.Columns va !! Column.Column column
  | None => None
  end.

End Fallbacks.

(** A column lister fails fast: called with an empty schema name or an empty
    table name it issues no statement and returns no column and no error. *)
Definition fails_fast (QueryColumns : Way -> string -> string -> DB (list Column.t)) : Prop :=
  forall (way : Way) (schema table : string) (log : list SQL),
    schema = "" \/ table = "" ->
    QueryColumns way schema table log = (Done [], log).

(** The statement [SchemaSqlite.QueryColumns] issues for a table. *)
Definition table_info_statement (table : string) : SQL :=
  NewSQL ("PRAGMA table_info(" +:+ table +:+ ");") [].

(** A database that answers every statement with no row, but lists one column
    [id INTEGER PRIMARY KEY] for [PRAGMA table_info]. *)
Definition way_one_column : Way :=
  mkWay Sqlite
        (fun _ => Ok [])
        (fun _ => Ok [])
        (fun _ => Ok [])
        (fun _ => Ok [mkTableInfoRow 0 "id" "INTEGER" 1 None 1]).

(** A row of [PRAGMA table_info] that is part of the primary key. *)
Definition is_primary_key (r : TableInfoRow) : bool := (0 <? pk r)%Z.

(** The name of the first row that is part of the primary key, in the order of
    the rows; empty when there is none. *)
Definition first_primary_key (rows : list TableInfoRow) : string :=
  match List.find is_primary_key rows with
  | Some r => name r
  | None => ""
  end.

(** A freshly listed SQLite table: a name and its definition. *)
Definition sqlite_table (table defined : string) : Table.t :=
  Table.mk "" table "" [] defined "" "" "".

(** A database whose [PRAGMA table_info] lists two columns, both part of the
    primary key. *)
Definition way_two_keys : Way :=
  mkWay Sqlite
        (fun _ => Ok [])
        (fun _ => Ok [])
        (fun _ => Ok [])
        (fun _ => Ok [mkTableInfoRow 0 "a" "INTEGER" 1 None 1;
                      mkTableInfoRow 1 "b" "TEXT" 1 None 2]).

(** A row of [PRAGMA table_info] that is part of the primary key and has a
    name. *)
Definition is_named_primary_key (r : TableInfoRow) : bool :=
  is_primary_key r && negb (String.eqb (name r) "").

(** The name of the first row that is part of the primary key and has a name,
    in the order of the rows; empty when there is none. *)
Definition first_named_primary_key (rows : list TableInfoRow) : string :=
  match List.find is_named_primary_key rows with
  | Some r => name r
  | None => ""
  end.

(** Once [QuerySchemas] has run on the table, its auto-increment column is the
    first primary-key column of [rows]. *)
Definition first_key_marked (way : Way) (table : Table.t) (rows : list TableInfoRow) : Prop :=
  exists (table' : Table.t) (log : list SQL),
    SchemaSqlite_QuerySchemas way [table] [] = (Done [table'], log)
    /\ Table.AutoIncrementColumn table' = first_primary_key rows.

(** The rows of a table declared as
    [CREATE TABLE t ("" INTEGER, id INTEGER, PRIMARY KEY ("", id))]: the first
    column of the primary key has the empty name. *)
Definition unnamed_key_rows : list TableInfoRow :=
  [mkTableInfoRow 0 "" "INTEGER" 0 None 1; mkTableInfoRow 1 "id" "INTEGER" 0 None 2].

(** A database whose [PRAGMA table_info] lists [unnamed_key_rows]. *)
Definition way_unnamed_key : Way :=
  mkWay Sqlite
        (fun _ => Ok [])
        (fun _ => Ok [])
        (fun _ => Ok [])
        (fun _ => Ok unnamed_key_rows).

(** The line that creates the sequence [seq]. *)
Definition create_sequence_line (seq : string) : string :=
  "CREATE SEQUENCE IF NOT EXISTS " +:+ seq +:+ " START 1;" +:+ newline.

(** The sequence behind the default of a column: the name in
    [nextval('<name>'::regclass)] once double quotes are removed from the
    default expression, if it has that form. *)
Definition sequence_default (c : Column.t) : option string :=
  match Column.ColumnDefault c with
  | Some d => pgsqlSeq_group (ReplaceAll d dquote "")
  | None => None
  end.

(** The statement [SchemaPostgresql.QueryTableDefineSql] issues for a table. *)
Definition define_statement (table : Table.t) : SQL :=
  NewSQL ("SELECT show_create_table_schema('" +:+ Table.Database table +:+ "', '"
            +:+ Table.Table table +:+ "')") [].

(** After [QueryTableDefineSql], the column [c] is the auto-increment column
    of the table and the definition, when one is produced, begins with the line
    that creates [seq]. *)
Definition sequence_column_marked (way : Way) (table : Table.t) (log : list SQL)
  (c : Column.t) (seq : string) : Prop :=
  match SchemaPostgresql_QueryTableDefineSql way table log with
  | ((table', Done defined), _) =>
      Table.AutoIncrementColumn table' = Column.Column c
      /\ HasPrefix defined (create_sequence_line seq) = true
      /\ Table.Defined table' = defined
  | ((table', _), _) => Table.AutoIncrementColumn table' = Column.Column c
  end.

(** A PostgreSQL column with a name and a default expression. *)
Definition pg_column (table column : string) (default : option string) : Column.t :=
  Column_of_PgColumnRow
    (mkPgColumnRow "public" table column None default (Some "NO") (Some "integer")
                   None None None None None None).

(** A table [orders] with a serial column [id] and a second sequence-backed
    column [ticket]. *)
Definition orders_two_sequences : Table.t :=
  Table.mk "public" "orders" "" 
    [ pg_column "orders" "id" (Some "nextval('orders_id_seq'::regclass)");
      pg_column "orders" "note" None;
      pg_column "orders" "ticket" (Some "nextval('orders_ticket_seq'::regclass)") ]
    "" "" "" "".

(** A table [orders] whose only sequence-backed column is [id]; the sequence
    name is quoted in the default expression. *)
Definition orders_one_sequence : Table.t :=
  Table.mk "public" "orders" ""
    [ pg_column "orders" "id"
        (Some ("nextval('" +:+ dquote +:+ "orders_id_seq" +:+ dquote +:+ "'::regclass)"));
      pg_column "orders" "note" (Some "'none'::text") ]
    "" "" "" "".

(** A database that answers every definition request with one row. *)
Definition way_orders : Way :=
  mkWay Postgresql
        (fun _ => Ok [])
        (fun _ => Ok [])
        (fun _ => Ok ["CREATE TABLE public.orders (id integer NOT NULL);"])
        (fun _ => Ok []).

(** The names the allow-list admits: its entries with surrounding white space
    removed, blank entries dropped. *)
Definition allowed_names `{GoStrings} (only : list string) : list string :=
  List.filter (fun t => negb (String.eqb t "")) (map TrimSpace only).

(** Membership of a name in a list of names. *)
Definition name_in (names : list string) (table : string) : bool :=
  existsb (String.eqb table) names.

(** An entry of the deny-list that [initConfigDisableTable] compiles as a
    pattern. *)
Definition is_pattern (v : string) : bool := HasPrefix v "^" && HasSuffix v "$".

(** A table that was just listed, with its name only. *)
Definition listed (table : string) : Table.t := Table.mk "" table "" [] "" "" "" "".

Definition no_database : Config.Database_t := Config.mkDatabase "" "" "" "".

(** A configuration as it is loaded, with a deny-list and an allow-list. *)
Definition loaded_config (disable only : list string) : @Config.t Fragment.engine :=
  Config.mk Fragment.engine no_database disable None [] ∅ only.

(** The allow-list read literally: the tables kept are the listed ones whose
    name is an entry of [OnlyTable] as it is written. *)
Definition keeps_literal_entries `{GoRegexp} `{GoStrings} (config : Config.t)
  (lists : list Table.t) : Prop :=
  selectTables config lists
  = List.filter (fun t => name_in (Config.OnlyTable config) (Table.Table t)) lists.

(** The literal entries of a deny-list: the entries that are not patterns,
    with surrounding white space removed. *)
Definition deny_literals `{GoStrings} (disable : list string) : list string :=
  List.filter (fun v => negb (is_pattern v)) (map TrimSpace disable).

(** The configuration once [initConfigDisableTable] has run on it (the loaded
    one if that call panics). *)
Definition started_config (disable only : list string) : @Config.t Fragment.engine :=
  default (loaded_config disable only) (initConfigDisableTable (loaded_config disable only)).

(** A column with the catalogue attributes that type resolution reads. *)
Definition typed_column (data_type is_nullable declared : option string) : Column.t :=
  Column.mk "" "t" "c" "" declared data_type None is_nullable None None None None None None
            None None None "" "" "" "".

(** A configuration with fallback comments for the table [users] and its
    column [id]. *)
Definition commented_config : @Config.t Fragment.engine :=
  Config.mk Fragment.engine no_database [] None []
            {[ "users" := Config.mkComments "other" {[ "id" := "ID primary key" ]} ]} [].

(** A table [users] with a comment and two columns [id] and [email], each with
    its comment. *)
Definition users_table (comment id_comment email_comment : string) : Table.t :=
  Table.mk "app" "users" comment
    [ Column.set_Comment id_comment (pg_column "users" "id" None);
      Column.set_Comment email_comment (pg_column "users" "email" None) ]
    "" "" "" "".

(** ** Further vocabulary: identifiers *)

Definition is_underscore (c : ascii) : bool := Ascii.eqb c "_".

Definition not_upper (c : ascii) : bool := negb (is_upper c).

(** Snake case, read from the byte at hand: at the start of a segment
    ([start = true]) a lower-case letter is due; inside a segment any byte
    that is neither upper case nor an underscore may follow, or an underscore
    that opens the next segment.  The text may not end on an underscore. *)
Fixpoint snake_from (s : string) (start : bool) : bool :=
  match s with
  | EmptyString => negb start
  | String c rest =>
      if start then is_lower c && snake_from rest false
      else if is_underscore c then snake_from rest true
           else not_upper c && snake_from rest false
  end.

(** A snake-case identifier: segments separated by single underscores, each
    beginning with a lower-case letter and holding no upper-case letter. *)
Definition is_snake_case (s : string) : bool := snake_from s true.

(** ** The alphabets and [RandomString] *)

Definition Number : string := "0123456789".

Definition byte_lt (a b : ascii) : bool := (N_of_ascii a <? N_of_ascii b)%N.

(** [i++] on a [byte]. *)
Definition byte_inc (i : ascii) : ascii := ascii_of_N ((N_of_ascii i + 1) mod 256)%N.

(** [for i := first; continue(i); i++ { letter = append(letter, i) }].  A
    byte takes 256 values, so a loop that stops at all stops within 256
    rounds; [fuel] is that bound. *)
Fixpoint for_bytes (fuel : nat) (i : ascii) (continue : ascii -> bool) : list ascii :=
  match fuel with
  | O => []
  | S fuel' => if continue i then i :: for_bytes fuel' (byte_inc i) continue else []
  end.

Definition EnglishLetterLower : list ascii :=
  for_bytes 256 "a" (fun i => byte_lt i "z").

Definition EnglishLetterUpper : list ascii :=
  for_bytes 256 "A" (fun i => byte_le i "Z").

Definition EnglishSymbol : list ascii :=
  for_bytes 256 "!" (fun i => byte_le i "/")
  ++ for_bytes 256 ":" (fun i => byte_le i "@")
  ++ for_bytes 256 "[" (fun i => byte_le i "`")
  ++ for_bytes 256 "{" (fun i => byte_le i "~").

(** The loop of [RandomString]: [i] counts the bytes drawn so far and [todo]
    the bytes still to draw; [IntN i n] is what the [i]-th call of
    [rand.IntN] returns for the bound [n].  [chars[...]] panics out of range:
    [None]. *)
Fixpoint RandomString_loop (IntN : nat -> nat -> nat) (chars : list ascii) (count : nat)
  (i todo : nat) : option string :=
  match todo with
  | O => Some EmptyString
  | S todo' =>
      match nth_error chars (IntN i count) with
      | None => None
      | Some c =>
          match RandomString_loop IntN chars count (S i) todo' with
          | None => None
          | Some rest => Some (String c rest)
          end
      end
  end.

Definition RandomString (IntN : nat -> nat -> nat) (length : Z) (chars : list ascii)
  : option string :=
  let chars := if Nat.eqb (List.length chars) 0 then chars ++ list_ascii_of_string Number
               else chars in
  let count := List.length chars in
  let length := if (length <? 1)%Z then 1%Z else length in
  RandomString_loop IntN chars count 0 (Z.to_nat length).

(** A printable ASCII byte that is neither a letter nor a digit nor a space. *)
Definition is_symbol (c : ascii) : bool :=
  let n := N_of_ascii c in
  ((33 <=? n) && (n <=? 126))%N && negb (is_upper c || is_lower c || is_digit c).

(** The alphabet [RandomString] draws from. *)
Definition RandomString_alphabet (chars : list ascii) : list ascii :=
  match chars with
  | [] => list_ascii_of_string Number
  | _ => chars
  end.

(** A source of random numbers that walks through the range. *)
Definition IntN_walk (i n : nat) : nat := i mod n.

(** ** Further vocabulary: the aggregator *)

(** A column on which [Column.init] panics: its derived names are not yet set
    and its name is made of underscores only. *)
Definition unnameable (c : Column.t) : bool :=
  String.eqb (Column.ColumnCamel c) ""
  && negb (String.eqb (Column.Column c) "")
  && all_bytes is_underscore (Column.Column c).

(** What [GetAllTables] may change in a column: the four derived fields. *)
Definition derived_only (c c' : Column.t) : Prop :=
  c' = Column.set_names (Column.ColumnCamel c') (Column.ColumnPascal c')
                        (Column.ColumnUnderline c') (Column.GoType c') c.

(** A column and what [Column.init] makes of it.  A column whose camel-case
    name is set stays as it is.  Otherwise the camel-case name is the one
    [Camel] returns for the column name, the Pascal-case and snake-case names
    are derived from the column name unless they are set already, the type is
    the one [goType] resolves, and nothing else changes. *)
Definition derived_from `{GoStrings} (c c' : Column.t) : Prop :=
  if String.eqb (Column.ColumnCamel c) "" then
    derived_only c c'
    /\ Camel (Column.Column c) = Some (Column.ColumnCamel c')
    /\ Column.ColumnPascal c'
       = (if String.eqb (Column.ColumnPascal c) "" then Pascal (Column.Column c)
          else Column.ColumnPascal c)
    /\ Column.ColumnUnderline c'
       = (if String.eqb (Column.ColumnUnderline c) "" then Underline (Column.Column c)
          else Column.ColumnUnderline c)
    /\ Column.GoType c' = goType c
  else c' = c.

(** The type name [GetAllTables] generates for a table: the Pascal form of
    the table name, the configured prefix taken off. *)
Definition generated_type_name `{GoRegexp} (config : Config.t) (t : Table.t) : string :=
  let prefix := Config.TablePrefix (Config.Database_ config) in
  Pascal (if String.eqb prefix "" then Table.Table t else TrimPrefix (Table.Table t) prefix).

(** A table and what the last loop of [GetAllTables] makes of it at the time
    [now]: an empty comment becomes the table name; a type name that is not
    set becomes the generated one, and the stamped name the generated one
    followed by the time in decimal; the columns get their derived fields; and
    nothing else changes. *)
Definition finished_from `{GoRegexp} `{GoStrings} (config : Config.t) (now : Z)
  (t t' : Table.t) : Prop :=
  Table.Database t' = Table.Database t
  /\ Table.Table t' = Table.Table t
  /\ Table.Defined t' = Table.Defined t
  /\ Table.AutoIncrementColumn t' = Table.AutoIncrementColumn t
  /\ Table.Comment t' = (if String.eqb (Table.Comment t) "" then Table.Table t
                         else Table.Comment t)
  /\ Table.TableGoTypeName t'
     = (if String.eqb (Table.TableGoTypeName t) "" then generated_type_name config t
        else Table.TableGoTypeName t)
  /\ Table.TableGoTypeNameTimestamp t'
     = (if String.eqb (Table.TableGoTypeName t) ""
        then generated_type_name config t +:+ pretty now
        else Table.TableGoTypeNameTimestamp t)
  /\ Forall2 derived_from (Table.Columns t) (Table.Columns t').

(** A schema whose listing is [tables] and whose enrichment hands the tables
    back as they are; it issues no statement. *)
Definition fixed_schema (tables : list Table.t) : @Schema Fragment.engine :=
  @mkSchema Fragment.engine
    (fun _ table log => ((table, Done (Table.Defined table)), log))
    (fun _ _ => ret tables)
    (fun _ _ _ => ret [])
    (fun _ tables => ret tables).

(** A configuration with the table prefix [pre_]. *)
Definition prefixed_config : @Config.t Fragment.engine :=
  Config.mk Fragment.engine (Config.mkDatabase "postgres" "db" "public" "pre_")
            [] None [] ∅ [].

(** The first occurrences of the names of [l], in order. *)
Fixpoint first_occurrences (l : list string) : list string :=
  match l with
  | [] => []
  | x :: rest => x :: List.filter (fun y => negb (String.eqb y x)) (first_occurrences rest)
  end.

(** The names of the columns of a table, in order. *)
Definition column_names (t : Table.t) : list string :=
  map Column.Column (Table.Columns t).

(** The entries of a deny-list that are patterns, with surrounding white
    space removed. *)
Definition deny_patterns `{GoStrings} (disable : list string) : list string :=
  List.filter is_pattern (map TrimSpace disable).

(** ** Further vocabulary: the adapters *)

(** The statement that lists the columns of a PostgreSQL table. *)
Definition pg_columns_statement (schema table : string) : SQL :=
  NewSQL SchemaPostgresql_QueryColumns_prepare [schema; table].

(** The statement that fetches the comment of one PostgreSQL column. *)
Definition pg_comment_statement (table column : string) : SQL :=
  NewSQL SchemaPostgresql_column_comment_prepare [table; column].

(** The comment statements for the rows with a column name, in order. *)
Definition pg_comment_statements (table : string) (rows : list PgColumnRow) : list SQL :=
  map (fun r => pg_comment_statement table (pg_column_name r))
      (List.filter (fun r => negb (String.eqb (pg_column_name r) "")) rows).

(** The column of a row once its comment query has answered [comments]. *)
Definition pg_commented (comments : list string) (r : PgColumnRow) : Column.t :=
  if String.eqb (pg_column_name r) "" then Column_of_PgColumnRow r
  else match comments with
       | [] => Column_of_PgColumnRow r
       | tmp :: _ => Column.set_Comment tmp (Column_of_PgColumnRow r)
       end.

(** The statements [SchemaSqlite.QuerySchemas] issues for a table: none for a
    table without a name. *)
Definition sqlite_statements (t : Table.t) : list SQL :=
  if String.eqb (Table.Table t) "" then [] else [table_info_statement (Table.Table t)].

(** The two columns [id] and [email] of a table [users], as
    [information_schema.columns] lists them. *)
Definition users_rows : list PgColumnRow :=
  [ mkPgColumnRow "public" "users" "id" (Some 1%Z) None (Some "NO") (Some "integer")
                  None None None None None None;
    mkPgColumnRow "public" "users" "email" (Some 2%Z) None (Some "YES") (Some "text")
                  None None None None None None ].

(** A PostgreSQL database that lists [users_rows] for every table and answers
    comment queries with [comments]. *)
Definition way_users (comments : SQL -> Result (list string)) : Way :=
  mkWay Postgresql (fun _ => Ok []) (fun _ => Ok users_rows) comments (fun _ => Ok []).

(** Comment answers: the query for the column [email] fails, every other one
    finds the comment [identifier]. *)
Definition email_comment_fails (q : SQL) : Result (list string) :=
  if String.eqb (List.last (Args q) "") "email" then Err "connection lost"
  else Ok ["identifier"].

(** A SQLite database in which [PRAGMA table_info] fails for the table
    [broken] and lists one column for every other table. *)
Definition way_broken_table : Way :=
  mkWay Sqlite
        (fun _ => Ok [])
        (fun _ => Ok [])
        (fun _ => Ok [])
        (fun q => if String.eqb (Prepare q) "PRAGMA table_info(broken);"
                  then Err "no such table"
                  else Ok [mkTableInfoRow 0 "id" "INTEGER" 1 None 1]).

(** The three rewrites [SchemaPostgresql.QueryTableDefineSql] applies to the
    text the stored procedure returns. *)
Definition pg_rewrite (result : string) : string :=
  ReplaceAll
    (ReplaceAll (ReplaceAll result "CREATE TABLE" "CREATE TABLE IF NOT EXISTS")
                "CREATE INDEX" "CREATE INDEX IF NOT EXISTS")
    "CREATE UNIQUE INDEX" "CREATE UNIQUE INDEX IF NOT EXISTS".

(** A column whose default expression, if any, has lost its double quotes. *)
Definition unquoted_default (c : Column.t) : Column.t :=
  match Column.ColumnDefault c with
  | Some d => Column.set_ColumnDefault (Some (ReplaceAll d dquote "")) c
  | None => c
  end.

(** A table [notes] without a sequence-backed column; the default of [title]
    holds double quotes. *)
Definition notes_table : Table.t :=
  Table.mk "public" "notes" "" 
    [ pg_column "notes" "title" (Some ("'" +:+ dquote +:+ "untitled" +:+ dquote +:+ "'::text"));
      pg_column "notes" "body" None ]
    "old definition" "" "" "".

(** *** MySQL: the definition of a table *)

(** The longest prefix of [s] made of digits, and what follows it. *)
Fixpoint span_digits (s : string) : string * string :=
  match s with
  | EmptyString => (EmptyString, EmptyString)
  | String c rest =>
      if is_digit c then (let (d, r) := span_digits rest in (String c d, r))
      else (EmptyString, s)
  end.

(** A match of [autoIncrementRegexpReplace], the compiled pattern
    [(AUTO_INCREMENT|auto_increment)=\d+], at the start of [s] with the
    keyword [keyword]: the length of the match.  [\d+] takes the longest run
    of digits. *)
Definition autoIncrement_match_keyword (keyword s : string) : option nat :=
  let head := keyword +:+ "=" in
  if HasPrefix s head then
    let (digits, _) :=
      span_digits (substring (String.length head) (String.length s - String.length head) s) in
    if negb (String.eqb digits "") then Some (String.length head + String.length digits)
    else None
  else None.

(** The match at the start of [s], if any: the text of the capture group and
    the length of the match.  The first alternative is tried first. *)
Definition autoIncrement_match (s : string) : option (string * nat) :=
  match autoIncrement_match_keyword "AUTO_INCREMENT" s with
  | Some n => Some ("AUTO_INCREMENT", n)
  | None =>
      match autoIncrement_match_keyword "auto_increment" s with
      | Some n => Some ("auto_increment", n)
      | None => None
      end
  end.

(** [autoIncrementRegexpReplace.ReplaceAllString(s, "${1}=1")]: the matches
    are found from left to right without overlap, and each is replaced by its
    keyword followed by [=1].  [skip] counts the bytes of a match still to be
    dropped. *)
Fixpoint autoIncrement_reset_from (s : string) (skip : nat) : string :=
  match s with
  | EmptyString => EmptyString
  | String c rest =>
      match skip with
      | S k => autoIncrement_reset_from rest k
      | O =>
          match autoIncrement_match s with
          | Some (keyword, n) => keyword +:+ "=1" +:+ autoIncrement_reset_from rest (n - 1)
          | None => String c (autoIncrement_reset_from rest 0)
          end
      end
  end.

Definition autoIncrement_reset (s : string) : string := autoIncrement_reset_from s 0.

(** A counter at the start of [s]: the keyword in one of its two spellings,
    the equals sign, and a digit (the byte at index 15). *)
Definition counter_at (s : string) : bool :=
  (HasPrefix s "AUTO_INCREMENT=" || HasPrefix s "auto_increment=")
  && match String.get 15 s with
     | Some c => is_digit c
     | None => false
     end.

(** A counter somewhere in [s]. *)
Fixpoint holds_counter (s : string) : bool :=
  counter_at s
  || match s with
     | EmptyString => false
     | String _ rest => holds_counter rest
     end.

(** One iteration of the loop of [SchemaMysql.QueryTableDefineSql], on the
    value of [table.AutoIncrementColumn]. *)
Definition SchemaMysql_auto_step `{GoStrings} (auto : string) (c : Column.t) : string :=
  match Column.Extra c with
  | Some extra => if String.eqb (ToLower extra) "auto_increment" then Column.Column c else auto
  | None => auto
  end.

(** The statement [SchemaMysql.QueryTableDefineSql] issues for a table. *)
Definition show_create_statement (table : Table.t) : SQL :=
  NewSQL ("SHOW CREATE TABLE " +:+ Table.Database table +:+ "." +:+ Table.Table table) [].

(** [SchemaMysql.QueryTableDefineSql].  The rows of [SHOW CREATE TABLE] are
    pairs of strings, a shape [Way] has no field for: [answer_pairs] is that
    further answer of the handle.  The last row wins; the table is mutated
    before the statement is issued, so it is returned whatever the outcome. *)
Definition SchemaMysql_QueryTableDefineSql `{GoStrings}
  (answer_pairs : SQL -> Result (list (string * string))) (table : Table.t)
  : list SQL -> (Table.t * Outcome string) * list SQL :=
  fun log =>
    let auto := fold_left SchemaMysql_auto_step (Table.Columns table)
                          (Table.AutoIncrementColumn table) in
    let table := Table.set_AutoIncrementColumn auto table in
    match issue answer_pairs (show_create_statement table) log with
    | (Done rows, log') =>
        let result := snd (List.last rows ("", "")) in
        let defined := ReplaceAll result "CREATE TABLE" "CREATE TABLE IF NOT EXISTS" in
        let defined := autoIncrement_reset defined in
        ((Table.set_Defined defined table, Done defined), log')
    | (Failed e, log') => ((table, Failed e), log')
    | (Panicked, log') => ((table, Panicked), log')
    end.

(** A MySQL column that [QueryTableDefineSql] takes for the auto-increment
    column. *)
Definition mysql_auto `{GoStrings} (c : Column.t) : bool :=
  match Column.Extra c with
  | Some extra => String.eqb (ToLower extra) "auto_increment"
  | None => false
  end.

(** A MySQL column with a name and an [EXTRA] attribute. *)
Definition mysql_column (column : string) (extra : option string) : Column.t :=
  Column.mk "app" "users" column "" (Some "bigint") (Some "bigint") None (Some "NO")
            None None None None None None None None extra "" "" "" "".

(** A table [users] whose column [id] is [AUTO_INCREMENT]. *)
Definition mysql_users : Table.t :=
  Table.mk "app" "users" ""
    [ mysql_column "id" (Some "AUTO_INCREMENT"); mysql_column "email" (Some "") ]
    "" "" "" "".

(** An answer to [SHOW CREATE TABLE] with a counter that has moved on. *)
Definition show_create_users (q : SQL) : Result (list (string * string)) :=
  Ok [("users", "CREATE TABLE `users` (`id` bigint) ENGINE=InnoDB AUTO_INCREMENT=42 DEFAULT CHARSET=utf8")].

(** ** Template helpers and the data source name *)

(** [strings.Split(s, sep)] for a non-empty [sep] (the only use in the code):
    the pieces of [s] between the occurrences of [sep], found from left to
    right without overlap.  [piece] is the piece being read and [skip] counts
    the bytes of an occurrence still to be dropped. *)
Fixpoint Split_from (s sep : string) (skip : nat) (piece : string) : list string :=
  match s with
  | EmptyString => [piece]
  | String c rest =>
      match skip with
      | S k => Split_from rest sep k piece
      | O =>
          if HasPrefix s sep
          then piece :: Split_from rest sep (String.length sep - 1) EmptyString
          else Split_from rest sep 0 (piece +:+ String c EmptyString)
      end
  end.

Definition Split (s sep : string) : list string := Split_from s sep 0 EmptyString.

(** [strings.Join(elems, sep)] *)
Fixpoint Join (elems : list string) (sep : string) : string :=
  match elems with
  | [] => EmptyString
  | [a] => a
  | a :: rest => a +:+ sep +:+ Join rest sep
  end.

(** The template function [mark]: [c] is the quote, [s] a dotted name. *)
Definition mark `{GoStrings} (c s : string) : string :=
  let c := TrimSpace c in
  let c := if String.eqb c dquote then "\" +:+ dquote else c in
  let sss := Split s "." in
  c +:+ Join sss (c +:+ "." +:+ c) +:+ c.

(** The quote [mark] puts around each part of a name. *)
Definition mark_quote `{GoStrings} (c : string) : string :=
  if String.eqb (TrimSpace c) dquote then "\" +:+ dquote else TrimSpace c.

(** [strings.Index(s, substr)], counted from [i]: the index of the first
    occurrence, or -1. *)
Fixpoint Index_from (s substr : string) (i : Z) : Z :=
  if HasPrefix s substr then i
  else match s with
       | EmptyString => (-1)%Z
       | String _ rest => Index_from rest substr (i + 1)
       end.

Definition Index (s substr : string) : Z := Index_from s substr 0.

(** The slice [s[lo:hi]]; out of range it panics: [None]. *)
Definition slice (s : string) (lo hi : Z) : option string :=
  if ((0 <=? lo) && (lo <=? hi) && (hi <=? Z.of_nat (String.length s)))%Z
  then Some (substring (Z.to_nat lo) (Z.to_nat (hi - lo)) s)
  else None.

(** The MySQL branch of the last [switch] of [NewWay]: the value of
    [cfg.Database.Database] after it, given the value before and the data
    source name; [None] is the panic of a slice out of range. *)
Definition NewWay_mysql_Database (database dataSourceName : string) : option string :=
  if String.eqb database "" then
    let start := Index dataSourceName "/" in
    if (-1 <? start)%Z then
      let end_ := Index dataSourceName "?" in
      if (-1 <? end_)%Z then slice dataSourceName (start + 1) end_
      else slice dataSourceName (start + 1) (Z.of_nat (String.length dataSourceName))
    else Some database
  else Some database.

(** * Properties *)

(** ** Evaluation on small inputs *)

Example Pascal_myID : Pascal "myID" = "MyID". Proof. reflexivity. Qed.
Example Camel_user_name : Camel "user_name" = Some "userName". Proof. reflexivity. Qed.
Example Camel_underscores : Camel "__" = None. Proof. reflexivity. Qed.
Example Underline_HTTPServer : Underline "HTTPServer" = "h_t_t_p_server". Proof. reflexivity. Qed.
Example Pascal_h_t_t_p_server : Pascal "h_t_t_p_server" = "HTTPServer". Proof. reflexivity. Qed.
Example TrimSpace_ex `{GoStrings} : TrimSpace "  a b " = "a b".
Proof. rewrite TrimSpace_ascii by reflexivity. reflexivity. Qed.
Example ReplaceAll_ex :
  ReplaceAll "CREATE TABLE t; CREATE TABLE u" "CREATE TABLE" "CREATE TABLE IF NOT EXISTS"
  = "CREATE TABLE IF NOT EXISTS t; CREATE TABLE IF NOT EXISTS u".
Proof. reflexivity. Qed.
Example ReplaceAll_quotes :
  ReplaceAll ("nextval('" +:+ dquote +:+ "a" +:+ dquote +:+ "'::regclass)") dquote EmptyString
  = "nextval('a'::regclass)".
Proof. reflexivity. Qed.
Example Fragment_log_2023 :
  option_map (fun r => Fragment.matches r "log_2023") (Fragment.compile "^log_.*$") = Some true.
Proof. reflexivity. Qed.
Example Fragment_log_x :
  option_map (fun r => Fragment.matches r "log_x") (Fragment.compile "^log_.*$") = Some true.
Proof. reflexivity. Qed.
Example Fragment_logbook :
  option_map (fun r => Fragment.matches r "logbook") (Fragment.compile "^log_.*$") = Some false.
Proof. reflexivity. Qed.

(** ** Identifier transformer *)

(** Lower-casing an upper-case byte and raising it again gives it back, and
    the lower-case byte is neither an underscore nor upper case. *)
Lemma upper_byte_roundtrip (c : ascii) :
  is_upper c = true ->
  byte_sub32 (byte_add32 c) = c
  /\ is_lower (byte_add32 c) = true
  /\ Ascii.eqb (byte_add32 c) "_" = false.
Proof.
  destruct c as [b0 b1 b2 b3 b4 b5 b6 b7].
  destruct b0, b1, b2, b3, b4, b5, b6, b7; vm_compute; intros Hc;
    first [discriminate Hc | repeat split].
Qed.

(** The absence of an underscore, read off the head byte. *)
Lemma Contains_underscore_cons (c : ascii) (s : string) :
  Contains (String c s) "_" = false -> Ascii.eqb c "_" = false /\ Contains s "_" = false.
Proof.
  cbn [Contains]. unfold HasPrefix. cbn [String.prefix].
  destruct (ascii_dec "_" c) as [E | E].
  - intros Hc. exfalso. destruct s; cbn in Hc; discriminate Hc.
  - intros Hc. apply orb_false_iff in Hc as [_ Hc]. split; [ | exact Hc].
    apply Ascii.eqb_neq. congruence.
Qed.

(** Past the first byte, [Pascal_loop] undoes [Underline_loop] on text without
    underscores. *)
Lemma Pascal_Underline_loop_tail (s : string) (i : nat) :
  Contains s "_" = false ->
  Pascal_loop (Underline_loop s (S i)) false = s.
Proof.
  revert i. induction s as [ | c s IH]; intros i Hs; [reflexivity | ].
  apply Contains_underscore_cons in Hs as [Hc Hs].
  cbn [Underline_loop]. destruct (is_upper c) eqn:Hup.
  - destruct (upper_byte_roundtrip c Hup) as (Hback & Hlow & Hnot).
    change (Nat.ltb 0 (S i)) with true. cbn [Pascal_loop].
    change (Ascii.eqb "_" "_") with true. cbv iota.
    rewrite Hnot, Hlow. cbn [andb]. rewrite Hback, IH by exact Hs. reflexivity.
  - cbn [Pascal_loop]. rewrite Hc. cbn [andb]. rewrite IH by exact Hs. reflexivity.
Qed.

(** C8: the identifier transformers on the test vectors of the specification:
    Pascal of [user_name] is [UserName], Camel of [user_name] is [userName],
    Underline of [UserName] is [user_name], and Pascal of the empty string is
    empty. *)
Theorem C8_identifier_test_vectors `{GoStrings} :
  Pascal "user_name" = "UserName"
  /\ Camel "user_name" = Some "userName"
  /\ Underline "UserName" = "user_name"
  /\ Pascal "" = "".
Proof.
  repeat split; try reflexivity.
  (* [Camel] lowers the one-byte text [U], which is ASCII. *)
  unfold Camel. cbn [String.eqb Ascii.eqb Bool.eqb].
  change (Pascal "user_name") with "UserName". cbv iota.
  rewrite (ToLower_ascii "U") by reflexivity. reflexivity.
Qed.

(** C7: an identifier that is already Pascal case (it begins with an
    upper-case ASCII letter and holds no underscore) is given back unchanged by
    Underline followed by Pascal. *)
Theorem C7_Pascal_Underline_roundtrip (s : string) :
  is_PascalCase s = true ->
  Pascal (Underline s) = s.
Proof.
  destruct s as [ | c rest]; [discriminate | ].
  unfold is_PascalCase. intros Hs.
  apply andb_true_iff in Hs as [Hup Hs]. apply negb_true_iff in Hs.
  apply Contains_underscore_cons in Hs as [_ Hs].
  destruct (upper_byte_roundtrip c Hup) as (Hback & Hlow & Hnot).
  unfold Underline. cbn [String.eqb Underline_loop]. rewrite Hup.
  change (Nat.ltb 0 0) with false. cbv iota.
  unfold Pascal. cbn [String.eqb Pascal_loop].
  rewrite Hnot, Hlow. cbn [andb]. rewrite Hback.
  rewrite Pascal_Underline_loop_tail by exact Hs. reflexivity.
Qed.

Lemma C7_Pascal_Underline_roundtrip_witness :
  is_PascalCase "HTTPServer" = true /\ Pascal (Underline "HTTPServer") = "HTTPServer".
Proof.
  split; [reflexivity | ].
  apply (C7_Pascal_Underline_roundtrip "HTTPServer"). reflexivity.
Defined.

(** ** Type mapper *)

(** The [switch] of [goType] is the table of keyword families. *)
Lemma goType_switch_family (keyword : string) :
  goType_switch keyword = family_type keyword.
Proof.
  unfold goType_switch, family_type, keyword_families, case_of.
  cbn [List.find existsb snd fst].
  repeat match goal with
         | |- context [String.eqb keyword ?k] =>
             destruct (String.eqb keyword k); cbn [orb]; try reflexivity
         end.
Qed.

Lemma family_type_semantic (keyword : string) :
  In (family_type keyword) semantic_types.
Proof.
  unfold family_type, keyword_families.
  cbn [List.find existsb snd fst].
  repeat match goal with
         | |- context [String.eqb keyword ?k] =>
             destruct (String.eqb keyword k); cbn [orb]; [cbn; tauto | ]
         end.
  cbn; tauto.
Qed.

Lemma family_type_unrecognized (keyword : string) :
  ~ In keyword recognized_keywords -> family_type keyword = "string".
Proof.
  intros Hk. unfold family_type.
  destruct (List.find _ keyword_families) as [fam | ] eqn:Hfind; [ | reflexivity].
  exfalso. apply Hk.
  apply List.find_some in Hfind as [Hin Hex].
  apply existsb_exists in Hex as (k & Hk' & Heq).
  apply String.eqb_eq in Heq. subst k.
  unfold recognized_keywords. apply in_concat. exists (snd fam). split; [ | exact Hk'].
  apply in_map. exact Hin.
Qed.

(** Each keyword of a family resolves to the type of that family. *)
Lemma family_type_member :
  Forall (fun fam => Forall (fun k => family_type k = fst fam) (snd fam)) keyword_families.
Proof. repeat constructor. Qed.

(** [goType] in terms of the nullability flag and the family of the keyword. *)
Lemma goType_by_family `{GoStrings} (s : Column.t) :
  goType s =
    if goType_nullable s && negb (String.eqb (family_type (goType_datatype s)) "[]byte")
    then optional (family_type (goType_datatype s))
    else family_type (goType_datatype s).
Proof.
  unfold goType, optional. rewrite goType_switch_family.
  destruct (goType_nullable s), (String.eqb (family_type (goType_datatype s)) "[]byte");
    reflexivity.
Qed.

(** The flag [nullable] is cleared by the value [no] alone, in any case of
    letters. *)
Lemma goType_nullable_false `{GoStrings} (s : Column.t) :
  goType_nullable s = false <->
  exists v, Column.IsNullable s = Some v /\ ToLower v = "no".
Proof.
  unfold goType_nullable. destruct (Column.IsNullable s) as [v | ].
  - destruct (String.eqb (ToLower v) "no") eqn:Hv.
    + apply String.eqb_eq in Hv. split; [ | reflexivity]. intros _. exists v. tauto.
    + apply String.eqb_neq in Hv. split; [discriminate | ].
      intros (w & Hw & Hno). congruence.
  - split; [discriminate | ]. intros (w & Hw & _). discriminate.
Qed.

(** C4: the resolved semantic type of a column.  The keyword is the data
    type (or, without one, the declared type) in the lower case
    [strings.ToLower] gives it; it is mapped by family to one of int8, int16,
    int, int64, float64, string, bool and []byte, a keyword of no family to
    string; a nullable column gets the optional marker in front unless the type
    is []byte, which is never wrapped; a column that is not nullable gets the
    type as it is. *)
Theorem C4_goType_resolution `{GoStrings} (s : Column.t) :
  In (family_type (goType_datatype s)) semantic_types
  /\ (forall v, Column.DataType s = Some v -> ToLower v <> "" -> goType_datatype s = ToLower v)
  /\ (forall ty, Column.DataType s = None -> Column.Type_ s = Some ty -> ty <> "" ->
        goType_datatype s = ToLower ty)
  /\ Forall (fun fam => Forall (fun k => family_type k = fst fam) (snd fam)) keyword_families
  /\ (~ In (goType_datatype s) recognized_keywords -> family_type (goType_datatype s) = "string")
  /\ (goType_nullable s = true -> family_type (goType_datatype s) <> "[]byte" ->
        goType s = "*" +:+ family_type (goType_datatype s))
  /\ (family_type (goType_datatype s) = "[]byte" -> goType s = "[]byte")
  /\ (goType_nullable s = false -> goType s = family_type (goType_datatype s)).
Proof.
  split; [apply family_type_semantic | ].
  split.
  { intros v Hv Hne. unfold goType_datatype. rewrite Hv.
    apply String.eqb_neq in Hne. rewrite Hne. cbn [andb].
    destruct (Column.Type_ s); reflexivity. }
  split.
  { intros ty Hd Hty Hne. unfold goType_datatype. rewrite Hd, Hty.
    apply String.eqb_neq in Hne. rewrite Hne. reflexivity. }
  split; [apply family_type_member | ].
  split; [apply family_type_unrecognized | ].
  rewrite goType_by_family.
  repeat split.
  - intros Hn Hb. apply String.eqb_neq in Hb. rewrite Hn, Hb. reflexivity.
  - intros Hb. rewrite Hb. cbn [String.eqb Ascii.eqb]. rewrite andb_false_r. reflexivity.
  - intros Hn. rewrite Hn. reflexivity.
Qed.

(** C9: a column whose nullability attribute is absent, or present with a
    value whose lower-casing is not [no], is resolved as nullable: its type is
    pointer-wrapped unless it is []byte.  Only a value that lower-cases to [no]
    gives the type without the marker.  The lower case is the one
    [strings.ToLower] gives. *)
Theorem C9_nullable_unless_no `{GoStrings} (s : Column.t) :
  (goType_nullable s = true <->
     Column.IsNullable s = None
     \/ exists v, Column.IsNullable s = Some v /\ ToLower v <> "no")
  /\ (goType_nullable s = true ->
        goType s = if String.eqb (family_type (goType_datatype s)) "[]byte"
                   then "[]byte"
                   else "*" +:+ family_type (goType_datatype s))
  /\ (goType_nullable s = false <->
        exists v, Column.IsNullable s = Some v /\ ToLower v = "no")
  /\ (goType_nullable s = false ->
        goType s = family_type (goType_datatype s)
        /\ In (goType s) semantic_types).
Proof.
  split.
  { unfold goType_nullable. destruct (Column.IsNullable s) as [v | ].
    - destruct (String.eqb (ToLower v) "no") eqn:Hv.
      + apply String.eqb_eq in Hv. split; [discriminate | ].
        intros [Hnone | (w & Hw & Hno)]; [discriminate | congruence].
      + apply String.eqb_neq in Hv. split; [ | reflexivity].
        intros _. right. exists v. tauto.
    - split; [ | reflexivity]. intros _. left. reflexivity. }
  split.
  { intros Hn. rewrite goType_by_family, Hn. cbn [andb].
    destruct (String.eqb (family_type (goType_datatype s)) "[]byte") eqn:Hb; [ | reflexivity].
    apply String.eqb_eq in Hb. cbn [negb]. exact Hb. }
  split; [apply goType_nullable_false | ].
  intros Hn. rewrite goType_by_family, Hn. cbn [andb].
  split; [reflexivity | apply family_type_semantic].
Qed.

(** ** Comment backfill *)

Section Backfill.
Context `{GoRegexp}.

Lemma Column_set_Comment_same (c : Column.t) : Column.set_Comment (Column.Comment c) c = c.
Proof. destruct c; reflexivity. Qed.

Lemma Table_set_Comment_same (t : Table.t) : Table.set_Comment (Table.Comment t) t = t.
Proof. destruct t; reflexivity. Qed.

Lemma Table_set_Columns_same (t : Table.t) : Table.set_Columns (Table.Columns t) t = t.
Proof. destruct t; reflexivity. Qed.

(** The fallback of a column touches the comment only, and only an empty or
    self-referential one. *)
Lemma Run_backfill_column_frame (columns : gmap string string) (column : Column.t) :
  Run_backfill_column columns column
    = Column.set_Comment (Column.Comment (Run_backfill_column columns column)) column
  /\ kept_or_backfilled (Column.Column column) (Column.Comment column)
       (Column.Comment (Run_backfill_column columns column))
       (columns !! Column.Column column).
Proof.
  unfold Run_backfill_column, kept_or_backfilled.
  destruct (columns !! Column.Column column) as [vb | ] eqn:Hvb;
    [ | rewrite Column_set_Comment_same; auto].
  destruct (String.eqb vb "") eqn:Hempty; cbn [negb];
    [rewrite Column_set_Comment_same; auto | ].
  apply String.eqb_neq in Hempty.
  destruct (String.eqb (Column.Comment column) "") eqn:H1; cbn [orb].
  { apply String.eqb_eq in H1. destruct column; cbn in *. auto 6. }
  destruct (String.eqb (Column.Comment column) (Column.Column column)) eqn:H2.
  { apply String.eqb_eq in H2. destruct column; cbn in *. auto 6. }
  rewrite Column_set_Comment_same; auto.
Qed.

Lemma Run_backfill_columns_frame (columns : gmap string string) (cs : list Column.t) :
  Forall2 (fun column column' =>
             column' = Column.set_Comment (Column.Comment column') column
             /\ kept_or_backfilled (Column.Column column) (Column.Comment column)
                  (Column.Comment column') (columns !! Column.Column column))
          cs (map (Run_backfill_column columns) cs).
Proof.
  induction cs as [ | c cs IH]; cbn [map]; constructor; [ | exact IH].
  apply Run_backfill_column_frame.
Qed.

Lemma Forall2_kept (cs : list Column.t) (columns : gmap string string) :
  Forall2 (fun column column' =>
             column' = Column.set_Comment (Column.Comment column') column
             /\ kept_or_backfilled (Column.Column column) (Column.Comment column)
                  (Column.Comment column') (columns !! Column.Column column))
          cs cs.
Proof.
  induction cs as [ | c cs IH]; constructor; [ | exact IH].
  rewrite Column_set_Comment_same. split; [reflexivity | left; reflexivity].
Qed.

(** The table part of the loop of [Run] is [Run_backfill] on every table, in
    order. *)
Lemma Run_loop_tables (config : Config.t) (tables : list Table.t) :
  forall seen all, fst (Run_loop config seen all tables) = map (Run_backfill config) tables.
Proof.
  induction tables as [ | table rest IH]; intros seen all; [reflexivity | ].
  cbn [Run_loop map].
  destruct (Run_allColumns seen all (Table.Columns (Run_backfill config table))) as [seen' all'].
  specialize (IH seen' all').
  destruct (Run_loop config seen' all' rest) as [rest' all'']. cbn [fst] in *.
  rewrite IH. reflexivity.
Qed.

Lemma Run_template_Tables (config : Config.t) (tables : list Table.t) :
  Tables (Run_template config tables) = map (Run_backfill config) tables.
Proof.
  unfold Run_template. rewrite <- (Run_loop_tables config tables ∅ []).
  destruct (Run_loop config ∅ [] tables); reflexivity.
Qed.

(** [Run_backfill] touches the comment of the table and the comments of its
    columns, and nothing else. *)
Lemma Run_backfill_frame (config : Config.t) (table : Table.t) :
  Run_backfill config table
    = Table.set_Columns (Table.Columns (Run_backfill config table))
        (Table.set_Comment (Table.Comment (Run_backfill config table)) table)
  /\ kept_or_backfilled (Table.Table table) (Table.Comment table)
       (Table.Comment (Run_backfill config table)) (table_fallback config table)
  /\ Forall2 (fun column column' =>
                column' = Column.set_Comment (Column.Comment column') column
                /\ kept_or_backfilled (Column.Column column) (Column.Comment column)
                     (Column.Comment column') (column_fallback config table column))
       (Table.Columns table) (Table.Columns (Run_backfill config table)).
Proof.
  unfold Run_backfill, table_fallback, column_fallback, kept_or_backfilled.
  destruct (Config.Comments config !! Table.Table table) as [va | ] eqn:Hva.
  2:{ rewrite Table_set_Comment_same, Table_set_Columns_same.
      split; [reflexivity | ]. split; [auto | ].
      induction (Table.Columns table) as [ | c cs IH]; constructor; [ | exact IH].
      rewrite Column_set_Comment_same. auto. }
  set (table1 :=
         if negb (String.eqb (Config.Comment va) "")
         then (if String.eqb (Table.Comment table) ""
                  || String.eqb (Table.Comment table) (Table.Table table)
               then Table.set_Comment (Config.Comment va) table
               else table)
         else table).
  assert (H1 : table1 = Table.set_Comment (Table.Comment table1) table
               /\ (Table.Comment table1 = Table.Comment table
                   \/ (Table.Comment table = "" \/ Table.Comment table = Table.Table table)
                      /\ Some (Config.Comment va) = Some (Table.Comment table1)
                      /\ Table.Comment table1 <> "")).
  { subst table1.
    destruct (String.eqb (Config.Comment va) "") eqn:Hempty; cbn [negb];
      [rewrite Table_set_Comment_same; auto | ].
    apply String.eqb_neq in Hempty.
    destruct (String.eqb (Table.Comment table) "") eqn:Ha; cbn [orb].
    { apply String.eqb_eq in Ha. split; [destruct table; reflexivity | ].
      right. destruct table; cbn in *. auto. }
    destruct (String.eqb (Table.Comment table) (Table.Table table)) eqn:Hb.
    { apply String.eqb_eq in Hb. split; [destruct table; reflexivity | ].
      right. destruct table; cbn in *. auto. }
    rewrite Table_set_Comment_same. auto. }
  clearbody table1. destruct H1 as (Hframe & Hcomment).
  assert (Hcols : Table.Columns table1 = Table.Columns table)
    by (rewrite Hframe; destruct table; reflexivity).
  destruct (Nat.ltb 0 (size (Config.Columns va))) eqn:Hsize.
  - split.
    { rewrite Hframe at 2. destruct table1, table; reflexivity. }
    split.
    { destruct table1; exact Hcomment. }
    replace (Table.Columns (Table.set_Columns
               (map (Run_backfill_column (Config.Columns va)) (Table.Columns table1)) table1))
      with (map (Run_backfill_column (Config.Columns va)) (Table.Columns table))
      by (rewrite <- Hcols; destruct table1; reflexivity).
    apply Run_backfill_columns_frame.
  - split.
    { rewrite Hcols. rewrite Hframe at 1. destruct table; reflexivity. }
    split; [exact Hcomment | ].
    rewrite Hcols. apply Forall2_kept.
Qed.

(** C5: the comment backfill of [Run] never overwrites a comment that is
    neither empty nor the name itself.  On every table the fallback of the
    configuration replaces the comment only when that comment is empty or equal
    to the name of the table, and likewise on every column with the name of the
    column; otherwise the comment is as it was, and no other field changes. *)
Theorem C5_backfill_never_overwrites (config : Config.t) (tables : list Table.t) :
  Forall2 (fun table table' =>
             table' = Table.set_Columns (Table.Columns table')
                        (Table.set_Comment (Table.Comment table') table)
             /\ (Table.Comment table <> "" -> Table.Comment table <> Table.Table table ->
                   Table.Comment table' = Table.Comment table)
             /\ kept_or_backfilled (Table.Table table) (Table.Comment table)
                  (Table.Comment table') (table_fallback config table)
             /\ Forall2 (fun column column' =>
                           column' = Column.set_Comment (Column.Comment column') column
                           /\ (Column.Comment column <> "" ->
                                 Column.Comment column <> Column.Column column ->
                                 Column.Comment column' = Column.Comment column)
                           /\ kept_or_backfilled (Column.Column column) (Column.Comment column)
                                (Column.Comment column') (column_fallback config table column))
                  (Table.Columns table) (Table.Columns table'))
          tables (Tables (Run_template config tables)).
Proof.
  rewrite Run_template_Tables.
  induction tables as [ | table rest IH]; cbn [map]; constructor; [ | exact IH].
  destruct (Run_backfill_frame config table) as (Hframe & Hcomment & Hcols).
  split; [exact Hframe | ].
  split.
  { intros Hne Hself. destruct Hcomment as [Hkept | ([Hempty | Hname] & _)];
      [exact Hkept | contradiction | contradiction]. }
  split; [exact Hcomment | ].
  eapply Forall2_impl; [exact Hcols | ].
  intros column column' (Hc & Hk). split; [exact Hc | ]. split; [ | exact Hk].
  intros Hne Hself. destruct Hk as [Hkept | ([Hempty | Hname] & _)];
    [exact Hkept | contradiction | contradiction].
Qed.

End Backfill.

(** ** Listing columns with an empty name *)

Lemma SchemaMysql_QueryColumns_fails_fast : fails_fast SchemaMysql_QueryColumns.
Proof.
  intros way schema table log [-> | ->]; unfold SchemaMysql_QueryColumns.
  - reflexivity.
  - rewrite orb_true_r. reflexivity.
Qed.

Lemma SchemaPostgresql_QueryColumns_fails_fast : fails_fast SchemaPostgresql_QueryColumns.
Proof.
  intros way schema table log [-> | ->]; unfold SchemaPostgresql_QueryColumns.
  - reflexivity.
  - rewrite orb_true_r. reflexivity.
Qed.

(** What [SchemaSqlite.QueryColumns] does for a table with a name, whatever
    the schema name: the [PRAGMA] statement is issued. *)
Lemma SchemaSqlite_QueryColumns_issues (way : Way) (schema table : string) (log : list SQL) :
  table <> "" ->
  SchemaSqlite_QueryColumns way schema table log =
    match answer_table_info way (table_info_statement table) with
    | Ok rows => (Done (map (Column_of_TableInfoRow table) rows), log ++ [table_info_statement table])
    | Err e => (Failed e, log ++ [table_info_statement table])
    end.
Proof.
  intros Hne. apply String.eqb_neq in Hne.
  unfold SchemaSqlite_QueryColumns, table_info_statement, bind, issue, ret. rewrite Hne.
  destruct (answer_table_info way _); reflexivity.
Qed.

(** C2, as stated, fails for SQLite: with an empty schema name and the table
    [users] the statement is issued and a column comes back. *)
Lemma C2_sqlite_empty_schema_counterexample :
  SchemaSqlite_QueryColumns way_one_column "" "users" []
    = (Done [Column_of_TableInfoRow "users" (mkTableInfoRow 0 "id" "INTEGER" 1 None 1)],
       [table_info_statement "users"])
  /\ ~ fails_fast SchemaSqlite_QueryColumns.
Proof.
  split; [reflexivity | ].
  intros Hclaim.
  specialize (Hclaim way_one_column "" "users" [] (or_introl eq_refl)).
  vm_compute in Hclaim. discriminate Hclaim.
Qed.

(** C2, amended: the MySQL and PostgreSQL adapters fail fast on an empty
    schema name or an empty table name; the SQLite adapter, which has no schema
    names, fails fast on an empty table name only, and for a table with a name
    it issues its statement whatever the schema name is. *)
Theorem C2_QueryColumns_empty_names :
  fails_fast SchemaMysql_QueryColumns
  /\ fails_fast SchemaPostgresql_QueryColumns
  /\ (forall (way : Way) (schema : string) (log : list SQL),
        SchemaSqlite_QueryColumns way schema "" log = (Done [], log))
  /\ (forall (way : Way) (schema table : string) (log : list SQL),
        table <> "" ->
        snd (SchemaSqlite_QueryColumns way schema table log) = log ++ [table_info_statement table]).
Proof.
  split; [apply SchemaMysql_QueryColumns_fails_fast | ].
  split; [apply SchemaPostgresql_QueryColumns_fails_fast | ].
  split; [reflexivity | ].
  intros way schema table log Hne.
  rewrite SchemaSqlite_QueryColumns_issues by exact Hne.
  destruct (answer_table_info way _); reflexivity.
Qed.

(** ** SQLite: primary-key columns and the auto-increment column *)

(** A column built from a row carries the flag exactly when the row is part of
    the primary key. *)
Lemma Column_of_TableInfoRow_Extra (table : string) (r : TableInfoRow) :
  Column.Column (Column_of_TableInfoRow table r) = name r
  /\ Column.Extra (Column_of_TableInfoRow table r)
     = if is_primary_key r then Some "auto_increment" else None.
Proof. split; reflexivity. Qed.

(** Once set, the auto-increment column is not overwritten. *)
Lemma SchemaSqlite_auto_step_set (auto : string) (columns : list Column.t) :
  auto <> "" -> fold_left SchemaSqlite_auto_step columns auto = auto.
Proof.
  intros Hne. induction columns as [ | c cs IH]; [reflexivity | ].
  cbn [fold_left]. unfold SchemaSqlite_auto_step at 2.
  apply String.eqb_neq in Hne. rewrite Hne. cbn [andb].
  destruct (Column.Extra c); exact IH.
Qed.

(** From the empty name, the loop stops at the first primary-key row that has
    a name: a primary-key row with the empty name leaves the field empty, and
    the guard of the loop lets the next one in. *)
Lemma SchemaSqlite_auto_step_first (table : string) (rows : list TableInfoRow) :
  fold_left SchemaSqlite_auto_step (map (Column_of_TableInfoRow table) rows) ""
    = first_named_primary_key rows.
Proof.
  unfold first_named_primary_key.
  induction rows as [ | r rows IH]; [reflexivity | ].
  cbn [map fold_left List.find].
  unfold SchemaSqlite_auto_step at 2, is_named_primary_key at 1.
  destruct (Column_of_TableInfoRow_Extra table r) as [Hname ->].
  destruct (is_primary_key r); cbn [andb]; [ | exact IH].
  change (String.eqb "" "" && String.eqb "auto_increment" "auto_increment") with true.
  cbv iota. rewrite Hname.
  destruct (String.eqb (name r) "") eqn:Hr; cbn [negb].
  - apply String.eqb_eq in Hr. rewrite Hr. exact IH.
  - apply SchemaSqlite_auto_step_set. apply String.eqb_neq. exact Hr.
Qed.

(** In rows sorted by [cid], the first row that satisfies [p] has the least
    [cid] among the rows that satisfy it. *)
Lemma find_least_cid (p : TableInfoRow -> bool) (rows : list TableInfoRow) (r : TableInfoRow) :
  StronglySorted (fun a b => (cid a < cid b)%Z) rows ->
  List.find p rows = Some r ->
  forall r', In r' rows -> p r' = true -> (cid r <= cid r')%Z.
Proof.
  induction rows as [ | a rows IH]; intros Hsorted Hfind r' Hin Hpk; [contradiction | ].
  apply StronglySorted_inv in Hsorted as [Hsorted Hall].
  cbn [List.find] in Hfind. destruct (p a) eqn:Ha.
  - injection Hfind as ->. destruct Hin as [-> | Hin]; [lia | ].
    rewrite List.Forall_forall in Hall. specialize (Hall r' Hin). lia.
  - destruct Hin as [-> | Hin]; [congruence | ].
    apply IH; assumption.
Qed.

(** In rows strictly sorted by [cid], a row is determined by its [cid]. *)
Lemma sorted_cid_injective (rows : list TableInfoRow) (a b : TableInfoRow) :
  StronglySorted (fun x y => (cid x < cid y)%Z) rows ->
  In a rows -> In b rows -> cid a = cid b -> a = b.
Proof.
  induction rows as [ | x rows IH]; intros Hsorted Ha Hb Hcid; [contradiction | ].
  apply StronglySorted_inv in Hsorted as [Hsorted Hall].
  rewrite List.Forall_forall in Hall.
  destruct Ha as [-> | Ha], Hb as [-> | Hb].
  - reflexivity.
  - specialize (Hall b Hb). lia.
  - specialize (Hall a Ha). lia.
  - apply IH; assumption.
Qed.

(** In rows sorted by [cid], the named primary-key row of least [cid] is the
    one [first_named_primary_key] names. *)
Lemma first_named_primary_key_least (rows : list TableInfoRow) (r : TableInfoRow) :
  StronglySorted (fun x y => (cid x < cid y)%Z) rows ->
  In r rows -> is_named_primary_key r = true ->
  (forall r', In r' rows -> is_named_primary_key r' = true -> (cid r <= cid r')%Z) ->
  first_named_primary_key rows = name r.
Proof.
  intros Hsorted Hin Hpk Hleast. unfold first_named_primary_key.
  destruct (List.find is_named_primary_key rows) as [r0 | ] eqn:Hfind.
  - pose proof (find_least_cid _ rows r0 Hsorted Hfind r Hin Hpk) as Hle.
    apply List.find_some in Hfind as [Hin0 Hpk0].
    specialize (Hleast r0 Hin0 Hpk0).
    f_equal. apply (sorted_cid_injective rows); [assumption .. | lia].
  - pose proof (List.find_none _ _ Hfind r Hin) as Hno. congruence.
Qed.

(** The columns built from the rows, row by row. *)
Lemma Columns_of_rows (table : string) (rows : list TableInfoRow) :
  Forall2 (fun r column =>
             Column.Column column = name r
             /\ Column.Extra column = if is_primary_key r then Some "auto_increment" else None)
          rows (map (Column_of_TableInfoRow table) rows).
Proof.
  induction rows as [ | r rows IH]; cbn [map]; constructor; [ | exact IH].
  apply Column_of_TableInfoRow_Extra.
Qed.

(** The body of the loop of [SchemaSqlite.QuerySchemas] on a table whose
    statement the database answers. *)
Lemma SchemaSqlite_QuerySchemas_table_ok (way : Way) (table : Table.t)
  (rows : list TableInfoRow) (log : list SQL) :
  Table.Table table <> "" ->
  answer_table_info way (table_info_statement (Table.Table table)) = Ok rows ->
  SchemaSqlite_QuerySchemas_table way table log =
    (Done (Table.set_Columns (map (Column_of_TableInfoRow (Table.Table table)) rows)
             (Table.set_AutoIncrementColumn
                (if String.eqb (Table.AutoIncrementColumn table) ""
                 then first_named_primary_key rows
                 else Table.AutoIncrementColumn table)
                table)),
     log ++ [table_info_statement (Table.Table table)]).
Proof.
  intros Hname Hanswer.
  unfold SchemaSqlite_QuerySchemas_table, bind.
  rewrite SchemaSqlite_QueryColumns_issues by exact Hname.
  rewrite Hanswer. unfold ret.
  destruct (String.eqb (Table.AutoIncrementColumn table) "") eqn:Hauto.
  - apply String.eqb_eq in Hauto. rewrite Hauto, SchemaSqlite_auto_step_first. reflexivity.
  - apply String.eqb_neq in Hauto. rewrite SchemaSqlite_auto_step_set by exact Hauto.
    reflexivity.
Qed.

(** Two columns of the primary key, both named: the first one is taken. *)
Example SchemaSqlite_QuerySchemas_two_keys :
  SchemaSqlite_QuerySchemas way_two_keys [sqlite_table "t" "CREATE TABLE t (a, b)"] []
  = (Done [Table.mk "" "t" ""
             (map (Column_of_TableInfoRow "t")
                  [mkTableInfoRow 0 "a" "INTEGER" 1 None 1; mkTableInfoRow 1 "b" "TEXT" 1 None 2])
             "CREATE TABLE t (a, b)" "a" "" ""],
     [table_info_statement "t"]).
Proof. reflexivity. Qed.

(** C10, as stated, fails when the first column of the primary key has the
    empty name: for [CREATE TABLE t ("" INTEGER, id INTEGER, PRIMARY KEY ("", id))]
    both columns carry the flag, the first of them in ordinal order is the
    unnamed one, and the auto-increment column of the table ends as [id], the
    later one. *)
Lemma C10_unnamed_key_counterexample :
  answer_table_info way_unnamed_key (table_info_statement "t") = Ok unnamed_key_rows
  /\ Forall (fun r => is_primary_key r = true) unnamed_key_rows
  /\ StronglySorted (fun x y => (cid x < cid y)%Z) unnamed_key_rows
  /\ first_primary_key unnamed_key_rows = ""
  /\ SchemaSqlite_QuerySchemas way_unnamed_key [sqlite_table "t" ""] []
     = (Done [Table.mk "" "t" "" (map (Column_of_TableInfoRow "t") unnamed_key_rows)
                       "" "id" "" ""],
        [table_info_statement "t"])
  /\ ~ first_key_marked way_unnamed_key (sqlite_table "t" "") unnamed_key_rows.
Proof.
  split; [reflexivity | ].
  split; [repeat constructor | ].
  split; [repeat constructor | ].
  split; [reflexivity | ].
  split; [reflexivity | ].
  intros (table' & log & Hrun & Hauto).
  vm_compute in Hrun. injection Hrun as Htable _. subst table'.
  discriminate Hauto.
Qed.

(** C10, amended: the SQLite adapter.  Every column that [PRAGMA table_info]
    reports as part of the primary key ([pk > 0]) carries the extra flag
    [auto_increment], and [QuerySchemas] sets the auto-increment column of a
    table on which it is still empty to the first such column, in the order of
    the rows, whose name is not empty; that is the one of least [cid] among
    them when the rows come sorted by [cid], and a later primary-key column
    does not replace it.  A table whose auto-increment column is already set
    keeps it.  Nothing else about the column is looked at, and nothing but the
    columns and the auto-increment column of the table changes.  [rows_of]
    gives the rows the database answers for each table. *)
Theorem C10_sqlite_first_named_primary_key (way : Way) (rows_of : Table.t -> list TableInfoRow)
  (tables : list Table.t) (log : list SQL) :
  Forall (fun table =>
            Table.Table table <> ""
            /\ answer_table_info way (table_info_statement (Table.Table table))
               = Ok (rows_of table))
         tables ->
  exists tables',
    SchemaSqlite_QuerySchemas way tables log
      = (Done tables', log ++ map (fun table => table_info_statement (Table.Table table)) tables)
    /\ Forall2 (fun table table' =>
                  table' = Table.set_Columns (Table.Columns table')
                             (Table.set_AutoIncrementColumn (Table.AutoIncrementColumn table')
                                                            table)
                  /\ Forall2 (fun r column =>
                                Column.Column column = name r
                                /\ Column.Extra column
                                   = if is_primary_key r then Some "auto_increment" else None)
                             (rows_of table) (Table.Columns table')
                  /\ Table.AutoIncrementColumn table'
                     = (if String.eqb (Table.AutoIncrementColumn table) ""
                        then first_named_primary_key (rows_of table)
                        else Table.AutoIncrementColumn table)
                  /\ (Table.AutoIncrementColumn table = "" ->
                      StronglySorted (fun x y => (cid x < cid y)%Z) (rows_of table) ->
                      forall r, In r (rows_of table) -> is_named_primary_key r = true ->
                        (forall r', In r' (rows_of table) -> is_named_primary_key r' = true ->
                                    (cid r <= cid r')%Z) ->
                        Table.AutoIncrementColumn table' = name r))
               tables tables'.
Proof.
  intros Hall. revert log.
  induction Hall as [ | table tables (Hname & Hanswer) _ IH]; intros log.
  - exists []. split; [ | constructor].
    cbn. unfold ret. rewrite app_nil_r. reflexivity.
  - destruct (IH (log ++ [table_info_statement (Table.Table table)]))
      as (tables' & Hrun & Hrel).
    eexists. split.
    + unfold SchemaSqlite_QuerySchemas in *. cbn [mapM]. unfold bind at 1.
      rewrite (SchemaSqlite_QuerySchemas_table_ok way table (rows_of table) log Hname Hanswer).
      unfold bind at 1. rewrite Hrun. unfold ret. cbn [map].
      rewrite <- app_assoc. reflexivity.
    + constructor; [ | exact Hrel].
      split; [destruct table; reflexivity | ].
      split; [destruct table; apply Columns_of_rows | ].
      split; [destruct table; reflexivity | ].
      intros Hfresh Hsorted r Hin Hpk Hleast.
      rewrite <- (first_named_primary_key_least (rows_of table) r Hsorted Hin Hpk Hleast).
      rewrite <- (String.eqb_eq _ _) in Hfresh.
      destruct table; cbn in *. rewrite Hfresh. reflexivity.
Qed.

Lemma C10_sqlite_first_named_primary_key_witness :
  exists tables',
    SchemaSqlite_QuerySchemas way_unnamed_key [sqlite_table "t" ""] []
      = (Done tables', [] ++ [table_info_statement "t"])
    /\ Forall2 (fun table' name => Table.AutoIncrementColumn table' = name) tables' ["id"].
Proof.
  destruct (C10_sqlite_first_named_primary_key way_unnamed_key (fun _ => unnamed_key_rows)
              [sqlite_table "t" ""] [])
    as (tables' & Hrun & Hrel).
  { repeat constructor. discriminate. }
  exists tables'. split; [exact Hrun | ].
  inversion Hrel as [ | table table' tables rest (_ & _ & Hauto & _) Hrest]; subst.
  inversion Hrest; subst. repeat constructor. exact Hauto.
Defined.

(** ** PostgreSQL: sequence-backed defaults *)

Example orders_one_sequence_define :
  SchemaPostgresql_QueryTableDefineSql way_orders orders_one_sequence []
  = ((Table.mk "public" "orders" ""
        [ pg_column "orders" "id" (Some "nextval('orders_id_seq'::regclass)");
          pg_column "orders" "note" (Some "'none'::text") ]
        (create_sequence_line "orders_id_seq"
           +:+ "CREATE TABLE IF NOT EXISTS public.orders (id integer NOT NULL);")
        "id" "" "",
      Done (create_sequence_line "orders_id_seq"
              +:+ "CREATE TABLE IF NOT EXISTS public.orders (id integer NOT NULL);")),
     [define_statement orders_one_sequence]).
Proof. reflexivity. Qed.

(** A sequence name qualified by its schema is outside the pattern. *)
Example sequence_default_qualified :
  sequence_default (pg_column "orders" "id" (Some "nextval('public.orders_id_seq'::regclass)"))
  = None.
Proof. reflexivity. Qed.

Example orders_two_sequences_define :
  SchemaPostgresql_QueryTableDefineSql way_orders orders_two_sequences []
  = ((Table.mk "public" "orders" "" (Table.Columns orders_two_sequences)
        (create_sequence_line "orders_ticket_seq"
           +:+ "CREATE TABLE IF NOT EXISTS public.orders (id integer NOT NULL);")
        "ticket" "" "",
      Done (create_sequence_line "orders_ticket_seq"
              +:+ "CREATE TABLE IF NOT EXISTS public.orders (id integer NOT NULL);")),
     [define_statement orders_two_sequences]).
Proof. reflexivity. Qed.

Lemma HasPrefix_app (s t : string) : HasPrefix (s +:+ t) s = true.
Proof.
  unfold HasPrefix. induction s as [ | c s IH].
  - destruct t; reflexivity.
  - change (String c s +:+ t) with (String c (s +:+ t)). cbn [String.prefix].
    destruct (ascii_dec c c) as [_ | Hne]; [exact IH | contradiction].
Qed.

(** Without an occurrence of [old], [ReplaceAll] changes nothing. *)
Lemma ReplaceAll_absent (s old new : string) :
  Contains s old = false -> ReplaceAll s old new = s.
Proof.
  unfold ReplaceAll. destruct (String.eqb old ""); [reflexivity | ].
  induction s as [ | c s IH]; intros Hs; [reflexivity | ].
  cbn [Contains] in Hs. apply orb_false_iff in Hs as [Hpre Hs].
  cbn [ReplaceAll_from]. rewrite Hpre, IH by exact Hs. reflexivity.
Qed.

(** The default expression as the loop leaves it: double quotes removed. *)
Lemma strip_quotes (d : string) :
  (if Contains d dquote then ReplaceAll d dquote "" else d) = ReplaceAll d dquote "".
Proof.
  destruct (Contains d dquote) eqn:Hd; [reflexivity | ].
  symmetry. apply ReplaceAll_absent. exact Hd.
Qed.

(** The capture group of [pgsqlSeq] is never empty. *)
Lemma pgsqlSeq_group_not_empty (s g : string) : pgsqlSeq_group s = Some g -> g <> "".
Proof.
  unfold pgsqlSeq_group. destruct (HasPrefix s "nextval('"); [ | discriminate].
  destruct (span_word _) as [w r].
  destruct (String.eqb w "") eqn:Hw; cbn [negb andb]; [discriminate | ].
  destruct (String.eqb r "'::regclass)"); [ | discriminate].
  intros [= <-]. apply String.eqb_neq. exact Hw.
Qed.

(** A step of the loop on a sequence-backed column records its sequence and
    its name. *)
Lemma SchemaPostgresql_define_step_sequence (st : string * string) (c : Column.t)
  (seq : string) :
  sequence_default c = Some seq ->
  fst (SchemaPostgresql_define_step st c) = (create_sequence_line seq, Column.Column c).
Proof.
  unfold sequence_default, SchemaPostgresql_define_step.
  destruct (Column.ColumnDefault c) as [d | ]; [ | discriminate].
  rewrite strip_quotes. intros Hseq.
  unfold pgsqlSeq_MatchString, pgsqlSeq_FindAllStringSubmatch. rewrite Hseq.
  apply pgsqlSeq_group_not_empty in Hseq. apply String.eqb_neq in Hseq. rewrite Hseq.
  destruct c; reflexivity.
Qed.

(** A step on any other column leaves the state as it is. *)
Lemma SchemaPostgresql_define_step_other (st : string * string) (c : Column.t) :
  sequence_default c = None ->
  fst (SchemaPostgresql_define_step st c) = st.
Proof.
  unfold sequence_default, SchemaPostgresql_define_step.
  destruct (Column.ColumnDefault c) as [d | ]; [ | reflexivity].
  rewrite strip_quotes. intros Hseq.
  unfold pgsqlSeq_MatchString. rewrite Hseq. reflexivity.
Qed.

Lemma SchemaPostgresql_define_loop_cons (st : string * string) (c : Column.t)
  (cs : list Column.t) :
  fst (SchemaPostgresql_define_loop st (c :: cs))
  = fst (SchemaPostgresql_define_loop (fst (SchemaPostgresql_define_step st c)) cs).
Proof.
  cbn [SchemaPostgresql_define_loop].
  destruct (SchemaPostgresql_define_step st c) as [st1 c']. cbn [fst].
  destruct (SchemaPostgresql_define_loop st1 cs) as [st2 rest']. reflexivity.
Qed.

Lemma SchemaPostgresql_define_loop_others (st : string * string) (cs : list Column.t) :
  Forall (fun c => sequence_default c = None) cs ->
  fst (SchemaPostgresql_define_loop st cs) = st.
Proof.
  induction 1 as [ | c cs Hc _ IH]; [reflexivity | ].
  rewrite SchemaPostgresql_define_loop_cons, SchemaPostgresql_define_step_other by exact Hc.
  exact IH.
Qed.

(** The state of the loop after the last sequence-backed column. *)
Lemma SchemaPostgresql_define_loop_last (st : string * string)
  (before after : list Column.t) (c : Column.t) (seq : string) :
  sequence_default c = Some seq ->
  Forall (fun c' => sequence_default c' = None) after ->
  fst (SchemaPostgresql_define_loop st (before ++ c :: after))
  = (create_sequence_line seq, Column.Column c).
Proof.
  intros Hc Hafter. revert st.
  induction before as [ | b before IH]; intros st.
  - cbn [app]. rewrite SchemaPostgresql_define_loop_cons.
    rewrite (SchemaPostgresql_define_step_sequence st c seq Hc).
    apply SchemaPostgresql_define_loop_others. exact Hafter.
  - cbn [app]. rewrite SchemaPostgresql_define_loop_cons. apply IH.
Qed.

(** [QueryTableDefineSql] in terms of the final state of its loop. *)
Lemma SchemaPostgresql_QueryTableDefineSql_result (way : Way) (table : Table.t)
  (log : list SQL) :
  exists columns,
    SchemaPostgresql_QueryTableDefineSql way table log =
      let st := fst (SchemaPostgresql_define_loop ("", Table.AutoIncrementColumn table)
                       (Table.Columns table)) in
      let table1 := Table.set_AutoIncrementColumn (snd st) (Table.set_Columns columns table) in
      match answer_strings way (define_statement table) with
      | Ok rows =>
          let defined :=
            fst st +:+
            ReplaceAll
              (ReplaceAll
                 (ReplaceAll (last_row rows) "CREATE TABLE" "CREATE TABLE IF NOT EXISTS")
                 "CREATE INDEX" "CREATE INDEX IF NOT EXISTS")
              "CREATE UNIQUE INDEX" "CREATE UNIQUE INDEX IF NOT EXISTS" in
          ((Table.set_Defined defined table1, Done defined), log ++ [define_statement table])
      | Err e => ((table1, Failed e), log ++ [define_statement table])
      end.
Proof.
  unfold SchemaPostgresql_QueryTableDefineSql, define_statement, issue.
  destruct (SchemaPostgresql_define_loop _ _) as [[createSequence auto] columns].
  exists columns. cbn [fst snd].
  replace (Table.Database (Table.set_AutoIncrementColumn auto (Table.set_Columns columns table)))
    with (Table.Database table) by (destruct table; reflexivity).
  replace (Table.Table (Table.set_AutoIncrementColumn auto (Table.set_Columns columns table)))
    with (Table.Table table) by (destruct table; reflexivity).
  destruct (answer_strings way _); reflexivity.
Qed.

(** C6, as stated, fails when a second column is sequence-backed: the column
    [id] of [orders] has the default [nextval('orders_id_seq'::regclass)], yet
    the auto-increment column is [ticket], and the definition begins with the
    line for [orders_ticket_seq]. *)
Lemma C6_two_sequences_counterexample :
  In (pg_column "orders" "id" (Some "nextval('orders_id_seq'::regclass)"))
     (Table.Columns orders_two_sequences)
  /\ sequence_default (pg_column "orders" "id" (Some "nextval('orders_id_seq'::regclass)"))
     = Some "orders_id_seq"
  /\ Table.AutoIncrementColumn
       (fst (fst (SchemaPostgresql_QueryTableDefineSql way_orders orders_two_sequences [])))
     = "ticket"
  /\ ~ sequence_column_marked way_orders orders_two_sequences []
         (pg_column "orders" "id" (Some "nextval('orders_id_seq'::regclass)"))
         "orders_id_seq".
Proof.
  split; [left; reflexivity | ].
  split; [reflexivity | ].
  split; [reflexivity | ].
  unfold sequence_column_marked. rewrite orders_two_sequences_define.
  intros (Hauto & _). discriminate Hauto.
Qed.

(** C6, amended: for the PostgreSQL adapter, when columns of the table have a
    default that, once double quotes are removed, matches
    [nextval('<name>'::regclass)], [QueryTableDefineSql] sets the
    auto-increment column to the name of the last such column, and the
    definition it produces begins with the line
    [CREATE SEQUENCE IF NOT EXISTS <name> START 1;] for the sequence of that
    column; it produces one whenever the database answers the statement. *)
Theorem C6_last_sequence_column (way : Way) (table : Table.t) (log : list SQL)
  (before after : list Column.t) (c : Column.t) (seq : string) :
  Table.Columns table = before ++ c :: after ->
  sequence_default c = Some seq ->
  Forall (fun c' => sequence_default c' = None) after ->
  sequence_column_marked way table log c seq
  /\ (forall rows, answer_strings way (define_statement table) = Ok rows ->
        exists rest,
          snd (fst (SchemaPostgresql_QueryTableDefineSql way table log))
          = Done (create_sequence_line seq +:+ rest)).
Proof.
  intros Hcols Hc Hafter.
  destruct (SchemaPostgresql_QueryTableDefineSql_result way table log) as (columns & Hrun).
  unfold sequence_column_marked. rewrite Hrun. clear Hrun.
  rewrite Hcols.
  rewrite (SchemaPostgresql_define_loop_last _ before after c seq Hc Hafter).
  cbn [fst snd].
  destruct (answer_strings way (define_statement table)) as [rows | e].
  - cbn [fst snd]. split.
    + split; [destruct table; reflexivity | ].
      split; [apply HasPrefix_app | destruct table; reflexivity].
    + intros rows' [= <-]. eexists. reflexivity.
  - cbn [fst snd]. split; [destruct table; reflexivity | ].
    intros rows' Hrows. discriminate Hrows.
Qed.

Lemma C6_last_sequence_column_witness :
  sequence_column_marked way_orders orders_one_sequence []
    (pg_column "orders" "id"
       (Some ("nextval('" +:+ dquote +:+ "orders_id_seq" +:+ dquote +:+ "'::regclass)")))
    "orders_id_seq"
  /\ (forall rows, answer_strings way_orders (define_statement orders_one_sequence) = Ok rows ->
        exists rest,
          snd (fst (SchemaPostgresql_QueryTableDefineSql way_orders orders_one_sequence []))
          = Done (create_sequence_line "orders_id_seq" +:+ rest)).
Proof.
  apply (C6_last_sequence_column way_orders orders_one_sequence [] []
           [pg_column "orders" "note" (Some "'none'::text")]).
  - reflexivity.
  - reflexivity.
  - repeat constructor.
Defined.

(** ** Table filter of [GetAllTables] *)

Example deny_list_mixed_init :
  option_map (fun cfg => (Config.DisableTableMap cfg, length (Config.DisableTableRegexp cfg)))
             (initConfigDisableTable (loaded_config ["^log_.*$"; "log_2023"] []))
  = Some (Some {[ "log_2023" ]}, 1).
Proof. vm_compute. reflexivity. Qed.

Section Filter.
Context `{GoRegexp} `{GoStrings}.

Lemma name_in_In (names : list string) (table : string) :
  name_in names table = true <-> In table names.
Proof.
  unfold name_in. rewrite existsb_exists. split.
  - intros (x & Hx & Heq). apply String.eqb_eq in Heq. subst x. exact Hx.
  - intros Hin. exists table. split; [exact Hin | apply String.eqb_refl].
Qed.

(** The set built from the allow-list holds the names it admits, on top of
    what it started with. *)
Lemma onlyTableMap_loop_elem (only : list string) :
  forall (m : gset string) (table : string),
    table ∈ onlyTableMap_loop m only <-> table ∈ m \/ In table (allowed_names only).
Proof.
  unfold allowed_names.
  induction only as [ | t rest IH]; intros m table; cbn [onlyTableMap_loop map List.filter].
  - cbn [In]. tauto.
  - destruct (String.eqb (TrimSpace t) "") eqn:Ht; cbn [negb]; rewrite IH.
    + tauto.
    + cbn [In]. rewrite elem_of_union, elem_of_singleton. intuition congruence.
Qed.

Lemma onlyTableMap_elem (config : Config.t) (table : string) :
  table ∈ onlyTableMap config <-> In table (allowed_names (Config.OnlyTable config)).
Proof.
  unfold onlyTableMap. rewrite onlyTableMap_loop_elem. rewrite elem_of_empty. tauto.
Qed.

(** The flag [onlyTable] is set exactly when the allow-list admits a name. *)
Lemma onlyTable_flag (config : Config.t) :
  Nat.ltb 0 (size (onlyTableMap config)) = true
  <-> exists v, In v (Config.OnlyTable config) /\ TrimSpace v <> "".
Proof.
  rewrite Nat.ltb_lt. split.
  - intros Hsize.
    destruct (set_choose_L (onlyTableMap config)) as [table Htable].
    { intros Hempty. rewrite Hempty, size_empty in Hsize. lia. }
    apply onlyTableMap_elem in Htable. unfold allowed_names in Htable.
    apply List.filter_In in Htable as [Hin Hne].
    apply List.in_map_iff in Hin as (v & <- & Hv).
    exists v. split; [exact Hv | ].
    apply negb_true_iff in Hne. apply String.eqb_neq. exact Hne.
  - intros (v & Hv & Hne).
    assert (Hin : TrimSpace v ∈ onlyTableMap config).
    { apply onlyTableMap_elem. unfold allowed_names. apply List.filter_In. split.
      - apply List.in_map. exact Hv.
      - apply negb_true_iff. apply String.eqb_neq. exact Hne. }
    destruct (decide (size (onlyTableMap config) = 0)) as [Hzero | Hpos]; [ | lia].
    apply size_empty_inv in Hzero. apply leibniz_equiv in Hzero.
    rewrite Hzero in Hin. apply elem_of_empty in Hin. contradiction.
Qed.

(** With the flag set, the filter loop keeps the tables of the set, in order,
    and does not look at the deny-list. *)
Lemma selectTables_loop_only (config : Config.t) (m : gset string) (lists : list Table.t) :
  selectTables_loop config m true lists
  = List.filter (fun t => bool_decide (Table.Table t ∈ m)) lists.
Proof.
  induction lists as [ | t rest IH]; [reflexivity | ].
  cbn [selectTables_loop List.filter]. rewrite IH. reflexivity.
Qed.

(** With the flag clear, the filter loop drops the tables [isTableDisabled]
    rejects. *)
Lemma selectTables_loop_deny (config : Config.t) (m : gset string) (lists : list Table.t) :
  selectTables_loop config m false lists
  = List.filter (fun t => negb (isTableDisabled config (Table.Table t))) lists.
Proof.
  induction lists as [ | t rest IH]; [reflexivity | ].
  cbn [selectTables_loop List.filter]. rewrite IH.
  destruct (isTableDisabled config (Table.Table t)); reflexivity.
Qed.

Lemma selectTables_allow (config : Config.t) (lists : list Table.t) :
  (exists v, In v (Config.OnlyTable config) /\ TrimSpace v <> "") ->
  selectTables config lists
  = List.filter (fun t => name_in (allowed_names (Config.OnlyTable config)) (Table.Table t))
                lists.
Proof.
  intros Hsome. apply onlyTable_flag in Hsome.
  unfold selectTables. rewrite Hsome, selectTables_loop_only.
  apply List.filter_ext. intros t.
  apply eq_true_iff_eq. rewrite bool_decide_eq_true, name_in_In. apply onlyTableMap_elem.
Qed.

End Filter.

(** C3, as stated, fails when an entry of the allow-list has white space around
    it: with [OnlyTable = ["users"; " orders"]] the listed table named
    [" orders"] is an entry of the allow-list, and it is dropped. *)
Lemma C3_untrimmed_entry_counterexample :
  (exists v, In v (Config.OnlyTable (loaded_config [] ["users"; " orders"]))
             /\ TrimSpace v <> "")
  /\ selectTables (loaded_config [] ["users"; " orders"]) [listed " orders"; listed "users"]
     = [listed "users"]
  /\ ~ keeps_literal_entries (loaded_config [] ["users"; " orders"])
         [listed " orders"; listed "users"].
Proof.
  split; [exists "users"; split; [left; reflexivity | discriminate] | ].
  split; [vm_compute; reflexivity | ].
  unfold keeps_literal_entries. vm_compute. discriminate.
Qed.

(** C3, amended: when the allow-list holds an entry that is not blank,
    [GetAllTables] keeps exactly the listed tables whose name is an entry of the
    allow-list with surrounding white space removed, in the order of the
    listing, and the deny-list plays no part: another configuration with the
    same allow-list keeps the same tables.  The tables kept are the ones handed
    to [QuerySchemas].  White space is what [strings.TrimSpace] removes, and an
    entry is blank when nothing is left of it. *)
Theorem C3_allow_list_precedence `{GoRegexp} `{GoStrings} (config : Config.t)
  (lists : list Table.t) :
  (exists v, In v (Config.OnlyTable config) /\ TrimSpace v <> "") ->
  selectTables config lists
  = List.filter (fun t => name_in (allowed_names (Config.OnlyTable config)) (Table.Table t))
                lists
  /\ (forall config' : Config.t,
        Config.OnlyTable config' = Config.OnlyTable config ->
        selectTables config' lists = selectTables config lists)
  /\ (forall (schema : Schema) (way : Way) (now : Z) (log log' : list SQL),
        QueryTables schema config (GetAllTables_databaseName config way) log = (Done lists, log') ->
        GetAllTables config schema way now log
        = (let* tables :=
             QuerySchemas schema config
               (List.filter
                  (fun t => name_in (allowed_names (Config.OnlyTable config)) (Table.Table t))
                  lists) in
           or_panic (GetAllTables_finish_all config now tables)) log').
Proof.
  intros Hsome. split; [apply selectTables_allow; exact Hsome | ]. split.
  - intros config' Honly.
    rewrite (selectTables_allow config lists Hsome).
    rewrite (selectTables_allow config' lists) by (rewrite Honly; exact Hsome).
    rewrite Honly. reflexivity.
  - intros schema way now log log' Hlist.
    unfold GetAllTables. cbv zeta. unfold bind at 1. rewrite Hlist.
    rewrite (selectTables_allow config lists Hsome). reflexivity.
Qed.

Lemma C3_allow_list_precedence_witness :
  selectTables (started_config ["^disabled_.*$"; "users"] ["users"; " disabled_users "])
    [listed "disabled_users"; listed "orders"; listed "users"]
  = [listed "disabled_users"; listed "users"].
Proof.
  destruct (C3_allow_list_precedence
              (started_config ["^disabled_.*$"; "users"] ["users"; " disabled_users "])
              [listed "disabled_users"; listed "orders"; listed "users"]) as (Hkeep & _).
  - exists "users". split; [left; reflexivity | discriminate].
  - rewrite Hkeep. reflexivity.
Defined.

Section DenyFilter.
Context `{GoRegexp} `{GoStrings}.

(** What a step of [initConfigDisableTable] does to the set of literals. *)
Lemma initConfigDisableTable_step_map (cfg cfg' : Config.t) (v : string) :
  initConfigDisableTable_step cfg v = Some cfg' ->
  Config.DisableTableMap cfg'
  = if is_pattern (TrimSpace v) then Config.DisableTableMap cfg
    else Some ({[ TrimSpace v ]} ∪ default ∅ (Config.DisableTableMap cfg)).
Proof.
  unfold initConfigDisableTable_step, is_pattern.
  destruct (HasPrefix (TrimSpace v) "^" && HasSuffix (TrimSpace v) "$").
  - destruct (MustCompile (TrimSpace v)); [ | discriminate]. intros [= <-]. reflexivity.
  - intros [= <-]. cbn. destruct (Config.DisableTableMap cfg); reflexivity.
Qed.

(** After the loop the set of literals exists as soon as it existed before or
    the deny-list has a literal entry, and it holds those entries. *)
Lemma initConfigDisableTable_loop_map (vs : list string) :
  forall cfg cfg' : Config.t,
    initConfigDisableTable_loop cfg vs = Some cfg' ->
    match Config.DisableTableMap cfg' with
    | Some m' =>
        (Config.DisableTableMap cfg <> None \/ deny_literals vs <> [])
        /\ forall x, x ∈ m' <->
                     x ∈ default ∅ (Config.DisableTableMap cfg) \/ In x (deny_literals vs)
    | None => Config.DisableTableMap cfg = None /\ deny_literals vs = []
    end.
Proof.
  unfold deny_literals.
  induction vs as [ | v vs IH]; intros cfg cfg'; cbn [initConfigDisableTable_loop].
  - intros [= <-]. cbn [map List.filter In].
    destruct (Config.DisableTableMap cfg) as [m | ]; cbn [default].
    + split; [left; discriminate | tauto].
    + tauto.
  - destruct (initConfigDisableTable_step cfg v) as [cfg1 | ] eqn:Hstep; [ | discriminate].
    intros Hloop. specialize (IH cfg1 cfg' Hloop).
    apply initConfigDisableTable_step_map in Hstep.
    cbn [map List.filter].
    destruct (is_pattern (TrimSpace v)); cbn [negb].
    + rewrite Hstep in IH. exact IH.
    + rewrite Hstep in IH. cbn [default] in IH.
      destruct (Config.DisableTableMap cfg') as [m' | ].
      * destruct IH as (_ & IH). split; [right; discriminate | ].
        intros x. rewrite IH. unfold id. rewrite elem_of_union, elem_of_singleton. cbn [In].
        intuition congruence.
      * destruct IH as (Habs & _). discriminate Habs.
Qed.

(** What the deny filter does once the configuration is initialised: with a
    literal entry in the deny-list a table is rejected exactly when its name is
    a literal entry, and the patterns are not consulted; with patterns only, it
    is rejected exactly when a pattern matches. *)
Lemma isTableDisabled_after_init (cfg0 cfg : Config.t) (table : string) :
  Config.DisableTableMap cfg0 = None ->
  initConfigDisableTable cfg0 = Some cfg ->
  isTableDisabled cfg table
  = match deny_literals (Config.DisableTable cfg0) with
    | [] => anyMatch (Config.DisableTableRegexp cfg) table
    | literals => name_in literals table
    end.
Proof.
  intros Hnil Hinit. unfold initConfigDisableTable in Hinit.
  apply initConfigDisableTable_loop_map in Hinit. rewrite Hnil in Hinit. cbn [default] in Hinit.
  unfold isTableDisabled.
  destruct (Config.DisableTableMap cfg) as [m | ].
  - destruct Hinit as ([Habs | Hlit] & Hm); [congruence | ].
    destruct (deny_literals (Config.DisableTable cfg0)) as [ | l ls] eqn:Hls; [congruence | ].
    apply eq_true_iff_eq. rewrite bool_decide_eq_true, name_in_In, Hm, elem_of_empty. tauto.
  - destruct Hinit as (_ & ->). reflexivity.
Qed.

End DenyFilter.

(** The deny-list of [exampleConfig] in the source: two patterns and a
    literal.  The table [disable_users] matches the first pattern and is kept. *)
Example exampleConfig_deny_list :
  selectTables
    (started_config ["^disable_.*$"; "^example_.*$"; "system_table_name"] [])
    [listed "disable_users"; listed "example_test"; listed "system_table_name"; listed "users"]
  = [listed "disable_users"; listed "example_test"; listed "users"].
Proof. vm_compute. reflexivity. Qed.

(** C1: with an empty allow-list the filter should drop a table whose name
    equals a literal of the deny-list or matches one of its patterns.  The code
    does not: for the deny-list [^log_.*$], [audit] the configuration
    initialises without a panic, the pattern matches [log_x] and [log_2023],
    neither name is the literal, and still [isTableDisabled] answers [false]
    for them and the filter keeps them; only [audit] is dropped. *)
Theorem C1_pattern_ignored_beside_literal :
  initConfigDisableTable (loaded_config ["^log_.*$"; "audit"] [])
  = Some (started_config ["^log_.*$"; "audit"] [])
  /\ deny_literals ["^log_.*$"; "audit"] = ["audit"]
  /\ map (fun re => (MatchString re "log_2023", MatchString re "log_x", MatchString re "logbook"))
         (Config.DisableTableRegexp (started_config ["^log_.*$"; "audit"] []))
     = [(true, true, false)]
  /\ isTableDisabled (started_config ["^log_.*$"; "audit"] []) "log_x" = false
  /\ selectTables (started_config ["^log_.*$"; "audit"] [])
       [listed "audit"; listed "log_2023"; listed "log_x"; listed "logbook"]
     = [listed "log_2023"; listed "log_x"; listed "logbook"].
Proof. vm_compute. repeat split; reflexivity. Qed.

Section DenyFilterCorollary.
Context `{GoRegexp} `{GoStrings}.

(** Beside a literal entry the patterns of the deny-list have no effect: a
    table whose name is no literal entry is not rejected, whatever matches. *)
Corollary isTableDisabled_ignores_patterns (cfg0 cfg : Config.t) (v table : string) :
  Config.DisableTableMap cfg0 = None ->
  initConfigDisableTable cfg0 = Some cfg ->
  In v (deny_literals (Config.DisableTable cfg0)) ->
  ~ In table (deny_literals (Config.DisableTable cfg0)) ->
  isTableDisabled cfg table = false.
Proof.
  intros Hnil Hinit Hv Hnot.
  rewrite (isTableDisabled_after_init cfg0 cfg table Hnil Hinit).
  destruct (deny_literals (Config.DisableTable cfg0)) as [ | l ls] eqn:Hls; [contradiction | ].
  apply not_true_is_false. rewrite name_in_In. exact Hnot.
Qed.

End DenyFilterCorollary.

(** ** Further evaluation *)

(** A deny-list of patterns only, and one of literals only, behave as the
    specification says. *)
Example deny_list_pattern_only :
  selectTables (started_config ["^log_.*$"] [])
    [listed "log_2023"; listed "log_x"; listed "logbook"]
  = [listed "logbook"].
Proof. vm_compute. reflexivity. Qed.

Example deny_list_literal_only :
  selectTables (started_config ["log_2023"] [])
    [listed "log_2023"; listed "log_x"; listed "logbook"]
  = [listed "log_x"; listed "logbook"].
Proof. vm_compute. reflexivity. Qed.

Example goType_bigint_not_null :
  goType (typed_column (Some "BIGINT") (Some "NO") None) = "int64".
Proof. reflexivity. Qed.

Example goType_varchar_nullable :
  goType (typed_column (Some "character varying") (Some "YES") None) = "*string".
Proof. reflexivity. Qed.

Example goType_bytea_nullable :
  goType (typed_column (Some "bytea") (Some "YES") None) = "[]byte".
Proof. reflexivity. Qed.

Example goType_no_nullability :
  goType (typed_column (Some "tinyint") None None) = "*int8".
Proof. reflexivity. Qed.

Example goType_sqlite_declared_type :
  goType (typed_column None (Some "no") (Some "INTEGER")) = "int".
Proof. reflexivity. Qed.

Example goType_unrecognized :
  goType (typed_column (Some "jsonb") (Some "no") None) = "string".
Proof. reflexivity. Qed.

(** The test of the specification: a live comment is kept, an empty or
    self-referential one gives way to the fallback. *)
Example backfill_real_comment :
  Tables (Run_template commented_config [users_table "real comment" "identifier" ""])
  = [users_table "real comment" "identifier" ""].
Proof. vm_compute. reflexivity. Qed.

Example backfill_empty_and_self :
  Tables (Run_template commented_config [users_table "users" "" "email"])
  = [users_table "other" "ID primary key" "email"].
Proof. vm_compute. reflexivity. Qed.

Example backfill_AllTableColumns :
  AllTableColumns (Run_template commented_config
                     [users_table "a" "" ""; users_table "b" "" ""])
  = ["id"; "email"].
Proof. vm_compute. reflexivity. Qed.

(** * Further properties of the code *)

(** ** Identifier transformer: what the three functions guarantee *)


(** Facts about one lower-case byte and the upper-case byte it is raised to. *)
Lemma lower_byte_raise (c : ascii) :
  is_lower c = true ->
  byte_add32 (byte_sub32 c) = c
  /\ is_upper (byte_sub32 c) = true
  /\ is_lower (byte_sub32 c) = false
  /\ Ascii.eqb (byte_sub32 c) "_" = false
  /\ Ascii.eqb c "_" = false.
Proof.
  destruct c as [b0 b1 b2 b3 b4 b5 b6 b7].
  destruct b0, b1, b2, b3, b4, b5, b6, b7; vm_compute; intros Hc;
    first [discriminate Hc | repeat split].
Qed.

(** Facts about one upper-case byte and the lower-case byte it is turned to. *)
Lemma upper_byte_lower (c : ascii) :
  is_upper c = true ->
  is_upper (byte_add32 c) = false
  /\ is_lower c = false
  /\ Ascii.eqb c "_" = false.
Proof.
  destruct c as [b0 b1 b2 b3 b4 b5 b6 b7].
  destruct b0, b1, b2, b3, b4, b5, b6, b7; vm_compute; intros Hc;
    first [discriminate Hc | repeat split].
Qed.

Lemma underscore_not_letter : is_upper "_" = false /\ is_lower "_" = false.
Proof. split; reflexivity. Qed.

Lemma Contains_underscore_intro (c : ascii) (s : string) :
  Ascii.eqb c "_" = false -> Contains s "_" = false -> Contains (String c s) "_" = false.
Proof.
  intros Hc Hs. cbn [Contains]. rewrite Hs, orb_false_r.
  unfold HasPrefix. cbn [String.prefix].
  destruct (ascii_dec "_" c) as [E | E]; [ | reflexivity].
  subst c. discriminate Hc.
Qed.

Lemma Pascal_loop_no_underscore (s : string) :
  forall next2upper, Contains (Pascal_loop s next2upper) "_" = false.
Proof.
  induction s as [ | c s IH]; intros next2upper; [reflexivity | ].
  cbn [Pascal_loop]. destruct (Ascii.eqb c "_") eqn:Hc; [apply IH | ].
  destruct (next2upper && is_lower c) eqn:Hup.
  - apply andb_true_iff in Hup as [_ Hlow].
    destruct (lower_byte_raise c Hlow) as (_ & _ & _ & Hnot & _).
    apply Contains_underscore_intro; [exact Hnot | apply IH].
  - apply Contains_underscore_intro; [exact Hc | apply IH].
Qed.

(** Without an underscore and past the first byte, [Pascal_loop] copies. *)
Lemma Pascal_loop_copy (s : string) :
  Contains s "_" = false -> Pascal_loop s false = s.
Proof.
  induction s as [ | c s IH]; intros Hs; [reflexivity | ].
  apply Contains_underscore_cons in Hs as [Hc Hs].
  cbn [Pascal_loop]. rewrite Hc. cbn [andb]. rewrite IH by exact Hs. reflexivity.
Qed.

(** The first byte [Pascal_loop] writes at the start of a segment is not a
    lower-case letter. *)
Lemma Pascal_loop_head (s : string) (e : ascii) (t : string) :
  Pascal_loop s true = String e t -> is_lower e = false.
Proof.
  induction s as [ | c s IH]; [discriminate | ].
  cbn [Pascal_loop]. destruct (Ascii.eqb c "_"); [exact IH | ].
  cbn [andb]. destruct (is_lower c) eqn:Hlow.
  - intros [= <- _]. apply (lower_byte_raise c Hlow).
  - intros [= <- _]. exact Hlow.
Qed.

Lemma Pascal_unfold (s : string) : Pascal s = Pascal_loop s true.
Proof. destruct s; reflexivity. Qed.

(** X1: the result of [Pascal] holds no underscore. *)
Theorem Pascal_no_underscore (s : string) : Contains (Pascal s) "_" = false.
Proof. rewrite Pascal_unfold. apply Pascal_loop_no_underscore. Qed.

(** [Pascal] leaves alone a text without underscores that does not begin with
    a lower-case letter. *)
Lemma Pascal_fixed (t : string) :
  Contains t "_" = false ->
  (forall e t', t = String e t' -> is_lower e = false) ->
  Pascal t = t.
Proof.
  intros Hno Hhead. rewrite Pascal_unfold.
  destruct t as [ | e t']; [reflexivity | ].
  apply Contains_underscore_cons in Hno as [He Hno].
  cbn [Pascal_loop]. rewrite He, (Hhead e t' eq_refl). cbn [andb].
  rewrite Pascal_loop_copy by exact Hno. reflexivity.
Qed.

(** X2: [Pascal] is idempotent. *)
Theorem Pascal_idempotent (s : string) : Pascal (Pascal s) = Pascal s.
Proof.
  apply Pascal_fixed; [rewrite Pascal_unfold; apply Pascal_loop_no_underscore | ].
  intros e t' Heq. rewrite Pascal_unfold in Heq.
  apply (Pascal_loop_head s e t' Heq).
Qed.

Lemma Underline_unfold (s : string) : Underline s = Underline_loop s 0.
Proof. destruct s; reflexivity. Qed.

Lemma Underline_loop_not_upper (s : string) :
  forall i, all_bytes not_upper (Underline_loop s i) = true.
Proof.
  induction s as [ | c s IH]; intros i; [reflexivity | ].
  cbn [Underline_loop]. destruct (is_upper c) eqn:Hup.
  - destruct (upper_byte_lower c Hup) as (Hlow & _).
    destruct (Nat.ltb 0 i); cbn [all_bytes]; unfold not_upper at 1;
      [change (is_upper "_") with false; cbn [negb andb]; unfold not_upper at 1 | ];
      rewrite Hlow, IH; reflexivity.
  - cbn [all_bytes]. unfold not_upper at 1. rewrite Hup, IH. reflexivity.
Qed.

(** Without an upper-case byte [Underline_loop] copies. *)
Lemma Underline_loop_copy (s : string) :
  all_bytes not_upper s = true -> forall i, Underline_loop s i = s.
Proof.
  induction s as [ | c s IH]; intros Hs i; [reflexivity | ].
  cbn [all_bytes] in Hs. apply andb_true_iff in Hs as [Hc Hs].
  unfold not_upper in Hc. apply negb_true_iff in Hc.
  cbn [Underline_loop]. rewrite Hc, IH by exact Hs. reflexivity.
Qed.

(** X3: the result of [Underline] holds no upper-case letter, and [Underline]
    is idempotent. *)
Theorem Underline_lower_idempotent (s : string) :
  all_bytes not_upper (Underline s) = true
  /\ Underline (Underline s) = Underline s.
Proof.
  rewrite !Underline_unfold. split; [apply Underline_loop_not_upper | ].
  apply Underline_loop_copy, Underline_loop_not_upper.
Qed.

(** [Pascal_loop] writes nothing exactly on a text of underscores. *)
Lemma Pascal_loop_empty (s : string) :
  forall next2upper, Pascal_loop s next2upper = "" <-> all_bytes is_underscore s = true.
Proof.
  induction s as [ | c s IH]; intros next2upper; [tauto | ].
  cbn [Pascal_loop all_bytes]. unfold is_underscore at 1.
  destruct (Ascii.eqb c "_"); cbn [andb]; [apply IH | ].
  destruct (next2upper && is_lower c); split; discriminate.
Qed.

Lemma Camel_None `{GoStrings} (str : string) :
  Camel str = None <-> str <> "" /\ all_bytes is_underscore str = true.
Proof.
  unfold Camel. destruct (String.eqb str "") eqn:Hempty.
  - apply String.eqb_eq in Hempty. split; [discriminate | tauto].
  - apply String.eqb_neq in Hempty. rewrite Pascal_unfold.
    destruct (Pascal_loop str true) as [ | e t] eqn:Hp.
    + apply Pascal_loop_empty in Hp. tauto.
    + split; [discriminate | ]. intros [_ Hall].
      apply (Pascal_loop_empty str true) in Hall. congruence.
Qed.

(** X4: [Camel] panics exactly on a non-empty name made of underscores only;
    on every other name it returns. *)
Theorem Camel_panics_iff `{GoStrings} (str : string) :
  Camel str = None <-> str <> "" /\ all_bytes is_underscore str = true.
Proof. apply Camel_None. Qed.

(** The two halves of the round trip on snake case: inside a segment, and at
    the start of a segment that follows an underscore. *)
Lemma Underline_Pascal_loop_snake (s : string) :
  (forall i, snake_from s false = true ->
             Underline_loop (Pascal_loop s false) (S i) = s)
  /\ (forall i, snake_from s true = true ->
                Underline_loop (Pascal_loop s true) (S i) = String "_" s).
Proof.
  induction s as [ | c s [IHin IHstart]]; [split; [reflexivity | discriminate] | ].
  split; intros i Hs; cbn [snake_from] in Hs.
  - unfold is_underscore in Hs. cbn [Pascal_loop].
    destruct (Ascii.eqb c "_") eqn:Hc.
    + apply Ascii.eqb_eq in Hc. subst c. apply IHstart. exact Hs.
    + apply andb_true_iff in Hs as [Hup Hs].
      unfold not_upper in Hup. apply negb_true_iff in Hup.
      cbn [andb Underline_loop]. rewrite Hup, IHin by exact Hs. reflexivity.
  - apply andb_true_iff in Hs as [Hlow Hs].
    destruct (lower_byte_raise c Hlow) as (Hback & Hup & _ & _ & Hnot).
    cbn [Pascal_loop]. rewrite Hnot, Hlow. cbn [andb Underline_loop].
    rewrite Hup, Hback. change (Nat.ltb 0 (S i)) with true. cbv iota.
    rewrite IHin by exact Hs. reflexivity.
Qed.

(** X5: a snake-case identifier is given back by [Pascal] followed by
    [Underline]. *)
Theorem Underline_Pascal_roundtrip (s : string) :
  is_snake_case s = true -> Underline (Pascal s) = s.
Proof.
  unfold is_snake_case. destruct s as [ | c s]; [discriminate | ].
  cbn [snake_from]. intros Hs. apply andb_true_iff in Hs as [Hlow Hs].
  destruct (lower_byte_raise c Hlow) as (Hback & Hup & _ & _ & Hnot).
  rewrite Pascal_unfold. cbn [Pascal_loop]. rewrite Hnot, Hlow. cbn [andb].
  rewrite Underline_unfold. cbn [Underline_loop]. rewrite Hup, Hback.
  change (Nat.ltb 0 0) with false. cbv iota.
  rewrite (proj1 (Underline_Pascal_loop_snake s)) by exact Hs. reflexivity.
Qed.

Lemma Underline_Pascal_roundtrip_witness :
  is_snake_case "created_at2" = true /\ Underline (Pascal "created_at2") = "created_at2".
Proof.
  split; [reflexivity | ].
  apply (Underline_Pascal_roundtrip "created_at2"). reflexivity.
Defined.

(** [Pascal] keeps ASCII text ASCII. *)
Lemma lower_sub32_ascii (c : ascii) : is_lower c = true -> is_ascii (byte_sub32 c) = true.
Proof.
  destruct c as [b0 b1 b2 b3 b4 b5 b6 b7].
  destruct b0, b1, b2, b3, b4, b5, b6, b7; vm_compute; intros Hc;
    first [discriminate Hc | reflexivity].
Qed.

Lemma Pascal_loop_ascii (s : string) (next2upper : bool) :
  all_bytes is_ascii s = true -> all_bytes is_ascii (Pascal_loop s next2upper) = true.
Proof.
  revert next2upper. induction s as [ | c s IH]; intros next2upper Hs; [reflexivity | ].
  cbn [all_bytes] in Hs. apply andb_true_iff in Hs as [Hc Hs].
  cbn [Pascal_loop]. destruct (Ascii.eqb c "_"); [apply IH; exact Hs | ].
  destruct (next2upper && is_lower c) eqn:Hup; cbn [all_bytes]; rewrite IH by exact Hs.
  - apply andb_true_iff in Hup as [_ Hlow]. rewrite lower_sub32_ascii by exact Hlow. reflexivity.
  - rewrite Hc. reflexivity.
Qed.

(** X6: [Pascal] undoes [Camel] on a name of ASCII bytes: when [Camel]
    returns, its result has the Pascal form of the name it was given. *)
Theorem Pascal_Camel `{GoStrings} (str r : string) :
  all_bytes is_ascii str = true ->
  Camel str = Some r -> Pascal r = Pascal str.
Proof.
  intros Hascii.
  unfold Camel. destruct (String.eqb str "") eqn:Hempty.
  - apply String.eqb_eq in Hempty. intros [= <-]. subst str. reflexivity.
  - rewrite (Pascal_unfold str).
    pose proof (Pascal_loop_no_underscore str true) as Hno.
    pose proof (Pascal_loop_head str) as Hhead.
    pose proof (Pascal_loop_ascii str true Hascii) as Hbytes.
    destruct (Pascal_loop str true) as [ | e t]; [discriminate | ].
    cbn [all_bytes] in Hbytes. apply andb_true_iff in Hbytes as [He_ascii _].
    (* The first byte is ASCII: [ToLower] lowers it as a byte. *)
    rewrite (ToLower_ascii (String e EmptyString))
      by (cbn [all_bytes]; rewrite He_ascii; reflexivity).
    intros [= <-]. specialize (Hhead e t eq_refl).
    apply Contains_underscore_cons in Hno as [He Hno].
    change (Pascal (String (lower_byte e) t) = String e t).
    rewrite Pascal_unfold. cbn [Pascal_loop andb].
    rewrite Pascal_loop_copy by exact Hno.
    assert (Hl : Ascii.eqb (lower_byte e) "_" = false
                 /\ (if is_lower (lower_byte e) then byte_sub32 (lower_byte e)
                     else lower_byte e) = e).
    { unfold lower_byte. destruct (is_upper e) eqn:Hup.
      - destruct (upper_byte_roundtrip e Hup) as (Hback & Hlow & Hnot).
        rewrite Hlow. split; assumption.
      - rewrite Hhead. split; [exact He | reflexivity]. }
    destruct Hl as [Hl1 Hl2]. rewrite Hl1.
    destruct (is_lower (lower_byte e)); rewrite Hl2; reflexivity.
Qed.

Lemma Pascal_Camel_witness :
  Camel "user_name" = Some "userName" /\ Pascal "userName" = Pascal "user_name".
Proof.
  split; [reflexivity | ].
  apply (Pascal_Camel "user_name" "userName"); reflexivity.
Defined.

(** ** The alphabets and [RandomString] *)

Lemma In_existsb_byte (c : ascii) (l : list ascii) :
  In c l <-> existsb (Ascii.eqb c) l = true.
Proof.
  rewrite existsb_exists. split.
  - intros Hin. exists c. split; [exact Hin | apply Ascii.eqb_refl].
  - intros (x & Hx & Heq). apply Ascii.eqb_eq in Heq. subst x. exact Hx.
Qed.

Lemma EnglishLetterUpper_bytes (c : ascii) :
  existsb (Ascii.eqb c) EnglishLetterUpper = is_upper c.
Proof.
  destruct c as [b0 b1 b2 b3 b4 b5 b6 b7].
  destruct b0, b1, b2, b3, b4, b5, b6, b7; vm_compute; reflexivity.
Qed.

Lemma EnglishLetterLower_bytes (c : ascii) :
  existsb (Ascii.eqb c) EnglishLetterLower = is_lower c && negb (Ascii.eqb c "z").
Proof.
  destruct c as [b0 b1 b2 b3 b4 b5 b6 b7].
  destruct b0, b1, b2, b3, b4, b5, b6, b7; vm_compute; reflexivity.
Qed.

Lemma EnglishSymbol_bytes (c : ascii) :
  existsb (Ascii.eqb c) EnglishSymbol = is_symbol c.
Proof.
  destruct c as [b0 b1 b2 b3 b4 b5 b6 b7].
  destruct b0, b1, b2, b3, b4, b5, b6, b7; vm_compute; reflexivity.
Qed.

(** X7: the three alphabets.  [EnglishLetterUpper] lists exactly the
    upper-case letters and [EnglishSymbol] exactly the printable bytes that are
    neither letters nor digits nor space; [EnglishLetterLower] lists the
    lower-case letters but [z], which its loop stops short of.  None lists a
    byte twice. *)
Theorem English_alphabets (c : ascii) :
  (In c EnglishLetterUpper <-> is_upper c = true)
  /\ (In c EnglishLetterLower <-> is_lower c = true /\ c <> "z"%char)
  /\ (In c EnglishSymbol <-> is_symbol c = true)
  /\ NoDup EnglishLetterUpper /\ NoDup EnglishLetterLower /\ NoDup EnglishSymbol.
Proof.
  split; [rewrite In_existsb_byte, EnglishLetterUpper_bytes; tauto | ].
  split.
  { rewrite In_existsb_byte, EnglishLetterLower_bytes, andb_true_iff, negb_true_iff.
    rewrite Ascii.eqb_neq. tauto. }
  split; [rewrite In_existsb_byte, EnglishSymbol_bytes; tauto | ].
  repeat split; apply (bool_decide_unpack _); vm_compute; exact I.
Qed.

Lemma RandomString_loop_shape (IntN : nat -> nat -> nat) (chars : list ascii) (todo : nat) :
  (forall i n, 0 < n -> IntN i n < n) ->
  0 < List.length chars ->
  forall i, exists r,
    RandomString_loop IntN chars (List.length chars) i todo = Some r
    /\ String.length r = todo
    /\ Forall (fun c => In c chars) (list_ascii_of_string r).
Proof.
  intros Hbound Hcount.
  induction todo as [ | todo IH]; intros i.
  - exists EmptyString. repeat split. constructor.
  - cbn [RandomString_loop].
    destruct (nth_error chars (IntN i (List.length chars))) as [c | ] eqn:Hnth.
    + destruct (IH (S i)) as (rest & -> & Hlen & Hall).
      exists (String c rest). split; [reflexivity | ]. split; [cbn; congruence | ].
      cbn [list_ascii_of_string]. constructor; [ | exact Hall].
      apply nth_error_In in Hnth. exact Hnth.
    + apply nth_error_None in Hnth. specialize (Hbound i _ Hcount). lia.
Qed.

(** X8: with a source of random numbers that keeps within its bound,
    [RandomString] returns a string of the length asked for, of length one when
    less than one is asked for, and each of its bytes is one of [chars], or a
    digit when no [chars] are given. *)
Theorem RandomString_shape (IntN : nat -> nat -> nat) (length : Z) (chars : list ascii) :
  (forall i n, 0 < n -> IntN i n < n) ->
  exists r,
    RandomString IntN length chars = Some r
    /\ String.length r = Z.to_nat (Z.max 1 length)
    /\ Forall (fun c => In c (RandomString_alphabet chars)) (list_ascii_of_string r).
Proof.
  intros Hbound. unfold RandomString.
  replace (Z.to_nat (if (length <? 1)%Z then 1%Z else length))
    with (Z.to_nat (Z.max 1 length))
    by (destruct (Z.ltb_spec length 1); f_equal; lia).
  destruct chars as [ | c chars].
  - cbn [List.length Nat.eqb app RandomString_alphabet].
    apply RandomString_loop_shape; [exact Hbound | cbn; lia].
  - cbn [List.length Nat.eqb RandomString_alphabet].
    apply (RandomString_loop_shape IntN (c :: chars)); [exact Hbound | cbn; lia].
Qed.

Lemma RandomString_shape_witness :
  exists r,
    RandomString IntN_walk 0 [] = Some r
    /\ String.length r = Z.to_nat (Z.max 1 0)
    /\ Forall (fun c => In c (RandomString_alphabet [])) (list_ascii_of_string r).
Proof.
  apply (RandomString_shape IntN_walk 0 []).
  intros i n Hn. unfold IntN_walk. apply Nat.mod_upper_bound. lia.
Defined.

Example RandomString_walk :
  RandomString IntN_walk 4 (list_ascii_of_string "abc") = Some "abca".
Proof. reflexivity. Qed.

(** ** [Column.init] and the last loop of [GetAllTables] *)

Lemma Camel_Some_empty `{GoStrings} (str : string) : Camel str = Some "" -> str = "".
Proof.
  unfold Camel. destruct (String.eqb str "") eqn:Hempty.
  - intros _. apply String.eqb_eq. exact Hempty.
  - destruct (Pascal str) as [ | e t]; [discriminate | ].
    intros [= Hcamel]. exfalso.
    destruct (ToLower (String e EmptyString)) as [ | l ls] eqn:Hlow.
    + apply ToLower_nonempty in Hlow. discriminate Hlow.
    + discriminate Hcamel.
Qed.

Lemma goType_set_names `{GoStrings} (a b c d : string) (s : Column.t) :
  goType (Column.set_names a b c d s) = goType s.
Proof. destruct s; reflexivity. Qed.

(** X9: [Column.init] is idempotent: once it has returned, a second call
    changes nothing. *)
Theorem Column_init_idempotent `{GoStrings} (s s' : Column.t) :
  Column_init s = Some s' -> Column_init s' = Some s'.
Proof.
  unfold Column_init at 1.
  destruct (String.eqb (Column.ColumnCamel s) "") eqn:Hcamel; cbn [negb].
  2:{ intros [= <-]. unfold Column_init. rewrite Hcamel. reflexivity. }
  destruct (Camel (Column.Column s)) as [camel | ] eqn:HC; [ | discriminate].
  intros [= <-]. unfold Column_init.
  destruct (String.eqb camel "") eqn:Hc.
  2:{ destruct s; cbn in *. rewrite Hc. reflexivity. }
  apply String.eqb_eq in Hc. subst camel.
  apply Camel_Some_empty in HC.
  destruct s as [db tb col cm ty dt df nl op cl co np ns cs cn ck ex cc cp cu gt].
  cbn in *. subst col. apply String.eqb_eq in Hcamel. subst cc. cbn.
  destruct (String.eqb cp "") eqn:Hp, (String.eqb cu "") eqn:Hu; cbn;
    rewrite ?Hp, ?Hu; reflexivity.
Qed.

Lemma Column_init_idempotent_witness :
  Column_init (typed_column (Some "bigint") (Some "NO") None)
  = Some (Column.set_names "c" "C" "c" "int64" (typed_column (Some "bigint") (Some "NO") None))
  /\ Column_init
       (Column.set_names "c" "C" "c" "int64" (typed_column (Some "bigint") (Some "NO") None))
     = Some (Column.set_names "c" "C" "c" "int64"
               (typed_column (Some "bigint") (Some "NO") None)).
Proof.
  split; [reflexivity | ].
  apply (Column_init_idempotent (typed_column (Some "bigint") (Some "NO") None)).
  reflexivity.
Defined.

Lemma Column_init_None `{GoStrings} (c : Column.t) : Column_init c = None <-> unnameable c = true.
Proof.
  unfold Column_init, unnameable.
  destruct (String.eqb (Column.ColumnCamel c) ""); cbn [negb andb]; [ | split; discriminate].
  destruct (Camel (Column.Column c)) as [camel | ] eqn:HC.
  - split; [discriminate | ]. intros Hu. apply andb_true_iff in Hu as [Hne Hall].
    apply negb_true_iff, String.eqb_neq in Hne.
    pose proof (proj2 (Camel_None (Column.Column c)) (conj Hne Hall)). congruence.
  - apply Camel_None in HC as [Hne Hall]. apply String.eqb_neq in Hne.
    rewrite Hne, Hall. tauto.
Qed.

Lemma Column_init_derived `{GoStrings} (c c' : Column.t) :
  Column_init c = Some c' -> derived_from c c'.
Proof.
  unfold Column_init, derived_from, derived_only.
  destruct (String.eqb (Column.ColumnCamel c) ""); cbn [negb].
  - destruct (Camel (Column.Column c)); [ | discriminate].
    intros [= <-]. destruct c; cbn. repeat split; reflexivity.
  - intros [= <-]. reflexivity.
Qed.

Lemma Columns_init_None `{GoStrings} (cs : list Column.t) :
  Columns_init cs = None <-> Exists (fun c => unnameable c = true) cs.
Proof.
  induction cs as [ | c cs IH]; cbn [Columns_init].
  - split; [discriminate | ]. intros Hex. inversion Hex.
  - rewrite Exists_cons, <- IH, <- Column_init_None.
    destruct (Column_init c); [ | tauto].
    destruct (Columns_init cs); split; try discriminate; try tauto.
    intros [? | ?]; discriminate.
Qed.

Lemma Columns_init_derived `{GoStrings} (cs : list Column.t) :
  forall cs', Columns_init cs = Some cs' -> Forall2 derived_from cs cs'.
Proof.
  induction cs as [ | c cs IH]; intros cs'; cbn [Columns_init].
  - intros [= <-]. constructor.
  - destruct (Column_init c) as [c' | ] eqn:Hc; [ | discriminate].
    destruct (Columns_init cs) as [rest | ]; [ | discriminate].
    intros [= <-]. constructor; [apply Column_init_derived; exact Hc | apply IH; reflexivity].
Qed.

Section Finish.
Context `{GoRegexp} `{GoStrings}.

(** The body of the last loop of [GetAllTables], field by field. *)
Lemma GetAllTables_finish_fields (config : Config.t) (timestamp : Z) (t : Table.t) :
  GetAllTables_finish config timestamp t =
    match Columns_init (Table.Columns t) with
    | None => None
    | Some cs =>
        let name :=
          Pascal (if negb (String.eqb (Config.TablePrefix (Config.Database_ config)) "")
                  then TrimPrefix (Table.Table t) (Config.TablePrefix (Config.Database_ config))
                  else Table.Table t) in
        Some (Table.mk (Table.Database t) (Table.Table t)
                (if String.eqb (Table.Comment t) "" then Table.Table t else Table.Comment t)
                cs (Table.Defined t) (Table.AutoIncrementColumn t)
                (if String.eqb (Table.TableGoTypeName t) "" then name
                 else Table.TableGoTypeName t)
                (if String.eqb (Table.TableGoTypeName t) "" then Sprintf_s_d name timestamp
                 else Table.TableGoTypeNameTimestamp t))
    end.
Proof.
  destruct t as [db tb cm cs df ai gn gs]. unfold GetAllTables_finish.
  cbn [Table.Comment Table.Table].
  destruct (String.eqb cm ""); cbn [Table.set_Comment Table.TableGoTypeName Table.Database
    Table.Table Table.Comment Table.Columns Table.Defined Table.AutoIncrementColumn
    Table.TableGoTypeNameTimestamp];
    destruct (String.eqb gn ""); cbn; destruct (Columns_init cs); reflexivity.
Qed.

Lemma GetAllTables_finish_None (config : Config.t) (timestamp : Z) (t : Table.t) :
  GetAllTables_finish config timestamp t = None
  <-> Exists (fun c => unnameable c = true) (Table.Columns t).
Proof.
  rewrite <- Columns_init_None, GetAllTables_finish_fields.
  destruct (Columns_init (Table.Columns t)); split; congruence.
Qed.

Lemma GetAllTables_finish_from (config : Config.t) (timestamp : Z) (t t' : Table.t) :
  GetAllTables_finish config timestamp t = Some t' -> finished_from config timestamp t t'.
Proof.
  rewrite GetAllTables_finish_fields. unfold finished_from, generated_type_name, Sprintf_s_d.
  destruct (Columns_init (Table.Columns t)) as [cs | ] eqn:Hcs; [ | discriminate].
  intros [= <-].
  cbn [Table.Database Table.Table Table.Defined Table.AutoIncrementColumn Table.Comment
       Table.TableGoTypeName Table.TableGoTypeNameTimestamp Table.Columns].
  destruct (String.eqb (Config.TablePrefix (Config.Database_ config)) ""); cbn [negb];
    repeat split; apply Columns_init_derived; exact Hcs.
Qed.

Lemma GetAllTables_finish_all_None (config : Config.t) (timestamp : Z) (ts : list Table.t) :
  GetAllTables_finish_all config timestamp ts = None
  <-> Exists (fun t => Exists (fun c => unnameable c = true) (Table.Columns t)) ts.
Proof.
  induction ts as [ | t ts IH]; cbn [GetAllTables_finish_all].
  - split; [discriminate | ]. intros Hex. inversion Hex.
  - rewrite Exists_cons, <- IH, <- (GetAllTables_finish_None config timestamp t).
    destruct (GetAllTables_finish config timestamp t); [ | tauto].
    destruct (GetAllTables_finish_all config timestamp ts); split; try discriminate; try tauto.
    intros [? | ?]; discriminate.
Qed.

Lemma GetAllTables_finish_all_from (config : Config.t) (timestamp : Z) (ts : list Table.t) :
  forall ts', GetAllTables_finish_all config timestamp ts = Some ts' ->
              Forall2 (finished_from config timestamp) ts ts'.
Proof.
  induction ts as [ | t ts IH]; intros ts'; cbn [GetAllTables_finish_all].
  - intros [= <-]. constructor.
  - destruct (GetAllTables_finish config timestamp t) as [t' | ] eqn:Ht; [ | discriminate].
    destruct (GetAllTables_finish_all config timestamp ts) as [rest | ]; [ | discriminate].
    intros [= <-].
    constructor; [apply (GetAllTables_finish_from config timestamp); exact Ht | ].
    apply IH. reflexivity.
Qed.

(** X10: what [GetAllTables] does to the tables the adapter has enriched.  It
    panics exactly when one of them has a column whose derived names are not
    yet set and whose name is made of underscores only.  Otherwise it returns
    them in the same order, issuing no further statement, each one finished:
    an empty comment has become the table name; a type name that was not set
    is the Pascal form of the table name without the configured prefix, and
    the stamped name is that followed by the time; every column whose
    camel-case name was not set has its three derived names and its resolved
    type; and nothing else has changed. *)
Theorem GetAllTables_after_enrichment (config : Config.t) (schema : Schema) (way : Way)
  (now : Z) (lists enriched : list Table.t) (log log1 log2 : list SQL) :
  QueryTables schema config (GetAllTables_databaseName config way) log = (Done lists, log1) ->
  QuerySchemas schema config (selectTables config lists) log1 = (Done enriched, log2) ->
  (Exists (fun t => Exists (fun c => unnameable c = true) (Table.Columns t)) enriched ->
   GetAllTables config schema way now log = (Panicked, log2))
  /\ (~ Exists (fun t => Exists (fun c => unnameable c = true) (Table.Columns t)) enriched ->
      exists tables,
        GetAllTables config schema way now log = (Done tables, log2)
        /\ Forall2 (finished_from config now) enriched tables).
Proof.
  intros Hlist Henrich.
  unfold GetAllTables. cbv zeta. unfold bind. rewrite Hlist, Henrich.
  pose proof (GetAllTables_finish_all_None config now enriched) as Hnone.
  pose proof (GetAllTables_finish_all_from config now enriched) as Hfrom.
  destruct (GetAllTables_finish_all config now enriched) as [tables | ]; cbn [or_panic].
  - split.
    + intros Hex. apply Hnone in Hex. discriminate Hex.
    + intros _. exists tables. split; [reflexivity | apply Hfrom; reflexivity].
  - split; [reflexivity | ]. intros Hno. exfalso. apply Hno, Hnone. reflexivity.
Qed.

End Finish.

Lemma GetAllTables_after_enrichment_witness :
  (Exists (fun t => Exists (fun c => unnameable c = true) (Table.Columns t))
          [users_table "" "" ""] ->
   GetAllTables prefixed_config (fixed_schema [users_table "" "" ""]) way_orders 1700000000 []
   = (Panicked, []))
  /\ (~ Exists (fun t => Exists (fun c => unnameable c = true) (Table.Columns t))
          [users_table "" "" ""] ->
      exists tables,
        GetAllTables prefixed_config (fixed_schema [users_table "" "" ""]) way_orders
                     1700000000 []
        = (Done tables, [])
        /\ Forall2 (finished_from prefixed_config 1700000000) [users_table "" "" ""] tables).
Proof.
  apply (GetAllTables_after_enrichment prefixed_config (fixed_schema [users_table "" "" ""])
           way_orders 1700000000 [users_table "" "" ""] [users_table "" "" ""] [] [] []);
    reflexivity.
Defined.

Lemma substring_all (s : string) : substring 0 (String.length s) s = s.
Proof. induction s as [ | c s IH]; cbn; [reflexivity | rewrite IH; reflexivity]. Qed.

(** [TrimPrefix] takes off a prefix that was put in front. *)
Lemma TrimPrefix_app (pre s : string) : TrimPrefix (pre +:+ s) pre = s.
Proof.
  unfold TrimPrefix. rewrite HasPrefix_app.
  induction pre as [ | c pre IH].
  - cbn [String.append String.length]. rewrite Nat.sub_0_r. apply substring_all.
  - change (String c pre +:+ s) with (String c (pre +:+ s)).
    cbn [String.length substring Nat.sub]. exact IH.
Qed.

Section TypeNames.
Context `{GoRegexp} `{GoStrings}.

(** X11: the generated type name of a table.  For a table whose name begins
    with the configured prefix and whose type name is not yet set,
    [GetAllTables] derives the type name from the rest of the name: it is the
    Pascal form of that rest, holds no underscore, and the stamped name is the
    type name followed by the decimal timestamp. *)
Theorem GetAllTables_type_name (config : Config.t) (now : Z) (t t' : Table.t) (rest : string) :
  Config.TablePrefix (Config.Database_ config) <> "" ->
  Table.Table t = Config.TablePrefix (Config.Database_ config) +:+ rest ->
  Table.TableGoTypeName t = "" ->
  GetAllTables_finish config now t = Some t' ->
  Table.TableGoTypeName t' = Pascal rest
  /\ Contains (Table.TableGoTypeName t') "_" = false
  /\ Table.TableGoTypeNameTimestamp t' = Pascal rest +:+ pretty now.
Proof.
  intros Hprefix Hname Hunset. rewrite GetAllTables_finish_fields.
  destruct (Columns_init (Table.Columns t)); [ | discriminate].
  intros [= <-]. cbn [Table.TableGoTypeName Table.TableGoTypeNameTimestamp].
  rewrite Hunset. cbn [String.eqb].
  apply String.eqb_neq in Hprefix. rewrite Hprefix. cbn [negb].
  rewrite Hname, TrimPrefix_app. unfold Sprintf_s_d.
  repeat split. rewrite Pascal_unfold. apply Pascal_loop_no_underscore.
Qed.

End TypeNames.

Lemma GetAllTables_type_name_witness :
  Table.TableGoTypeName
    (Table.mk "" "pre_user_log" "user_log" [] "" "" "UserLog" "UserLog1700000000")
  = Pascal "user_log"
  /\ Contains
       (Table.TableGoTypeName
          (Table.mk "" "pre_user_log" "user_log" [] "" "" "UserLog" "UserLog1700000000")) "_"
     = false
  /\ Table.TableGoTypeNameTimestamp
       (Table.mk "" "pre_user_log" "user_log" [] "" "" "UserLog" "UserLog1700000000")
     = Pascal "user_log" +:+ pretty 1700000000%Z.
Proof.
  apply (GetAllTables_type_name prefixed_config 1700000000
           (Table.mk "" "pre_user_log" "user_log" [] "" "" "" "")
           (Table.mk "" "pre_user_log" "user_log" [] "" "" "UserLog" "UserLog1700000000")
           "user_log").
  - discriminate.
  - reflexivity.
  - reflexivity.
  - vm_compute. reflexivity.
Defined.

(** ** The loop of [App.Run]: all column names, and the backfill applied twice *)

Lemma filter_filter_and {A : Type} (p q : A -> bool) (l : list A) :
  List.filter q (List.filter p l) = List.filter (fun y => p y && q y) l.
Proof.
  induction l as [ | x l IH]; [reflexivity | ].
  cbn [List.filter]. destruct (p x); cbn [List.filter andb]; [ | exact IH].
  destruct (q x); rewrite IH; reflexivity.
Qed.

Lemma filter_all {A : Type} (p : A -> bool) (l : list A) :
  (forall y, p y = true) -> List.filter p l = l.
Proof.
  intros Hp. induction l as [ | x l IH]; [reflexivity | ].
  cbn [List.filter]. rewrite Hp, IH. reflexivity.
Qed.

Lemma first_occurrences_filter (p : string -> bool) (l : list string) :
  first_occurrences (List.filter p l) = List.filter p (first_occurrences l).
Proof.
  induction l as [ | x l IH]; [reflexivity | ].
  cbn [List.filter first_occurrences]. destruct (p x) eqn:Hx.
  - cbn [first_occurrences]. f_equal. rewrite IH, !filter_filter_and.
    apply List.filter_ext. intros y. apply andb_comm.
  - rewrite IH, filter_filter_and. apply List.filter_ext. intros y.
    destruct (String.eqb y x) eqn:Hy; cbn [negb andb].
    + apply String.eqb_eq in Hy. subst y. exact Hx.
    + reflexivity.
Qed.

Lemma first_occurrences_app (l1 l2 : list string) :
  first_occurrences (l1 ++ l2)
  = first_occurrences l1 ++ List.filter (fun y => negb (name_in l1 y)) (first_occurrences l2).
Proof.
  induction l1 as [ | x l1 IH].
  - cbn [app first_occurrences]. symmetry. apply filter_all. reflexivity.
  - cbn [app first_occurrences]. rewrite IH, List.filter_app, filter_filter_and.
    cbn [app]. do 2 f_equal. apply List.filter_ext. intros y.
    unfold name_in. cbn [existsb]. rewrite negb_orb. apply andb_comm.
Qed.

Lemma first_occurrences_In (l : list string) (x : string) :
  In x (first_occurrences l) <-> In x l.
Proof.
  induction l as [ | y l IH]; [tauto | ].
  cbn [first_occurrences In]. rewrite List.filter_In, IH, negb_true_iff, String.eqb_neq.
  destruct (String.eqb_spec x y); intuition congruence.
Qed.

Lemma first_occurrences_NoDup (l : list string) : List.NoDup (first_occurrences l).
Proof.
  induction l as [ | x l IH]; cbn [first_occurrences]; constructor.
  - rewrite List.filter_In, negb_true_iff, String.eqb_neq. tauto.
  - apply List.NoDup_filter. exact IH.
Qed.

Section AllColumns.
Context `{GoRegexp}.

Lemma Run_allColumns_seen (columns : list Column.t) :
  forall (seen : gset string) (all : list string) (x : string),
    x ∈ fst (Run_allColumns seen all columns)
    <-> x ∈ seen \/ In x (map Column.Column columns).
Proof.
  induction columns as [ | c columns IH]; intros seen all x; cbn [Run_allColumns map In].
  - cbn [fst]. tauto.
  - destruct (bool_decide (Column.Column c ∈ seen)) eqn:Hc; rewrite IH.
    + apply bool_decide_eq_true in Hc. intuition congruence.
    + rewrite elem_of_union, elem_of_singleton. intuition congruence.
Qed.

Lemma Run_allColumns_all (columns : list Column.t) :
  forall (seen : gset string) (all : list string),
    snd (Run_allColumns seen all columns)
    = all ++ first_occurrences
               (List.filter (fun y => negb (bool_decide (y ∈ seen)))
                            (map Column.Column columns)).
Proof.
  induction columns as [ | c columns IH]; intros seen all;
    cbn [Run_allColumns map List.filter].
  - cbn [snd first_occurrences]. rewrite app_nil_r. reflexivity.
  - destruct (bool_decide (Column.Column c ∈ seen)) eqn:Hc; cbn [negb]; rewrite IH.
    + reflexivity.
    + cbn [first_occurrences]. rewrite <- app_assoc. cbn [app]. do 2 f_equal.
      rewrite <- first_occurrences_filter, filter_filter_and. f_equal.
      apply List.filter_ext. intros y.
      destruct (String.eqb_spec y (Column.Column c)) as [-> | Hne]; cbn [negb].
      * rewrite andb_false_r. apply negb_false_iff, bool_decide_eq_true.
        apply elem_of_union_l, elem_of_singleton. reflexivity.
      * rewrite andb_true_r. f_equal. apply bool_decide_ext.
        rewrite elem_of_union, elem_of_singleton. tauto.
Qed.

Lemma Run_backfill_column_names (config : Config.t) (t : Table.t) :
  column_names (Run_backfill config t) = column_names t.
Proof.
  destruct (Run_backfill_frame config t) as (_ & _ & Hcols).
  unfold column_names.
  induction Hcols as [ | c c' cs cs' (Hc & _) _ IH]; [reflexivity | ].
  cbn [map]. rewrite IH, Hc. destruct c; reflexivity.
Qed.

Lemma Run_loop_all (config : Config.t) (tables : list Table.t) :
  forall (seen : gset string) (all : list string),
    snd (Run_loop config seen all tables)
    = all ++ first_occurrences
               (List.filter (fun y => negb (bool_decide (y ∈ seen)))
                            (concat (map column_names tables))).
Proof.
  induction tables as [ | t tables IH]; intros seen all; cbn [Run_loop map concat].
  - cbn [snd List.filter first_occurrences]. rewrite app_nil_r. reflexivity.
  - pose proof (Run_allColumns_all (Table.Columns (Run_backfill config t)) seen all) as Hall.
    pose proof (Run_allColumns_seen (Table.Columns (Run_backfill config t)) seen all) as Hseen.
    destruct (Run_allColumns seen all (Table.Columns (Run_backfill config t))) as [seen1 all1].
    cbn [fst snd] in Hall, Hseen.
    specialize (IH seen1 all1).
    destruct (Run_loop config seen1 all1 tables) as [rest all2]. cbn [snd] in *.
    rewrite IH, Hall. clear IH Hall.
    change (map Column.Column (Table.Columns (Run_backfill config t)))
      with (column_names (Run_backfill config t)) in *.
    rewrite Run_backfill_column_names in *.
    rewrite List.filter_app, first_occurrences_app, <- app_assoc. do 2 f_equal.
    rewrite <- first_occurrences_filter, filter_filter_and. f_equal.
    apply List.filter_ext. intros y.
    destruct (bool_decide (y ∈ seen)) eqn:Hy; cbn [negb andb].
    + apply negb_false_iff, bool_decide_eq_true, Hseen. left.
      apply bool_decide_eq_true in Hy. exact Hy.
    + apply bool_decide_eq_false in Hy. f_equal.
      apply eq_true_iff_eq. rewrite bool_decide_eq_true, Hseen.
      unfold name_in. rewrite existsb_exists. split.
      * intros [Hin | Hin]; [contradiction | ].
        exists y. split; [ | apply String.eqb_refl].
        apply List.filter_In. split; [exact Hin | ].
        apply negb_true_iff, bool_decide_eq_false. exact Hy.
      * intros (z & Hz & Heq). apply String.eqb_eq in Heq. subst z.
        apply List.filter_In in Hz. tauto.
Qed.

(** X12: the list [AllTableColumns] that [Run] hands to the templates holds
    the column names of all tables, each once, in the order of their first
    occurrence. *)
Theorem Run_AllTableColumns (config : Config.t) (tables : list Table.t) :
  AllTableColumns (Run_template config tables)
  = first_occurrences (concat (map column_names tables))
  /\ List.NoDup (AllTableColumns (Run_template config tables))
  /\ (forall x, In x (AllTableColumns (Run_template config tables))
                <-> exists t c, In t tables /\ In c (Table.Columns t) /\ Column.Column c = x).
Proof.
  assert (Hall : AllTableColumns (Run_template config tables)
                 = first_occurrences (concat (map column_names tables))).
  { unfold Run_template. pose proof (Run_loop_all config tables ∅ []) as Hloop.
    destruct (Run_loop config ∅ [] tables) as [ts all]. cbn [snd AllTableColumns] in *.
    rewrite Hloop. cbn [app]. f_equal. apply filter_all.
    intros y. apply negb_true_iff, bool_decide_eq_false. apply not_elem_of_empty. }
  rewrite Hall. split; [reflexivity | ]. split; [apply first_occurrences_NoDup | ].
  intros x. rewrite first_occurrences_In, in_concat. split.
  - intros (names & Hnames & Hx). apply List.in_map_iff in Hnames as (t & <- & Ht).
    unfold column_names in Hx. apply List.in_map_iff in Hx as (c & Hc & Hin).
    exists t, c. tauto.
  - intros (t & c & Ht & Hc & Hx). exists (column_names t). split.
    + apply List.in_map. exact Ht.
    + unfold column_names. rewrite <- Hx. apply List.in_map. exact Hc.
Qed.

End AllColumns.

Section BackfillTwice.
Context `{GoRegexp}.

Lemma Run_backfill_column_twice (columns : gmap string string) (column : Column.t) :
  Run_backfill_column columns (Run_backfill_column columns column)
  = Run_backfill_column columns column.
Proof.
  destruct column as [db tb col cm ty dt df nl op cl co np ns cs cn ck ex cc cp cu gt].
  unfold Run_backfill_column. cbn [Column.Column Column.Comment].
  destruct (columns !! col) as [vb | ] eqn:Hvb; [ | cbn; rewrite Hvb; reflexivity].
  destruct (String.eqb vb "") eqn:Hempty; cbn [negb]; [cbn; rewrite Hvb, Hempty; reflexivity | ].
  destruct (String.eqb cm "" || String.eqb cm col) eqn:Hc;
    cbn [Column.set_Comment Column.Column Column.Comment]; rewrite Hvb, Hempty; cbn [negb].
  - cbn [orb]. destruct (String.eqb vb col); reflexivity.
  - rewrite Hc. reflexivity.
Qed.

(** X13: the comment backfill of [Run] is idempotent: applied to a table it
    has already been applied to, it changes nothing. *)
Theorem Run_backfill_twice (config : Config.t) (table : Table.t) :
  Run_backfill config (Run_backfill config table) = Run_backfill config table.
Proof.
  destruct table as [db tb cm cs df ai gn gs].
  unfold Run_backfill. cbn [Table.Table Table.Comment].
  destruct (Config.Comments config !! tb) as [va | ] eqn:Hva; [ | cbn; rewrite Hva; reflexivity].
  assert (Hcols : map (Run_backfill_column (Config.Columns va))
                      (map (Run_backfill_column (Config.Columns va)) cs)
                  = map (Run_backfill_column (Config.Columns va)) cs).
  { rewrite List.map_map. apply List.map_ext. intros c. apply Run_backfill_column_twice. }
  destruct (String.eqb (Config.Comment va) "") eqn:Hempty; cbn [negb].
  - destruct (Nat.ltb 0 (size (Config.Columns va))) eqn:Hsize;
      cbn [Table.Table Table.Comment Table.Columns Table.set_Columns Table.set_Comment];
      rewrite Hva, Hempty, Hsize; cbn [negb];
      cbn [Table.Table Table.Comment Table.Columns Table.set_Columns Table.set_Comment];
      rewrite ?Hcols; reflexivity.
  - destruct (String.eqb cm "" || String.eqb cm tb) eqn:Hc;
      destruct (Nat.ltb 0 (size (Config.Columns va))) eqn:Hsize;
      cbn [Table.Table Table.Comment Table.Columns Table.set_Columns Table.set_Comment];
      rewrite Hva, Hempty, Hsize; cbn [negb orb];
      cbn [Table.Table Table.Comment Table.Columns Table.set_Columns Table.set_Comment];
      rewrite ?Hc, ?Hempty; cbn [orb];
      try (destruct (String.eqb (Config.Comment va) tb));
      cbn [Table.Table Table.Comment Table.Columns Table.set_Columns Table.set_Comment];
      rewrite ?Hcols; reflexivity.
Qed.

End BackfillTwice.

(** ** The deny-list after [initConfigDisableTable], in general *)

Lemma Forall2_In_left {A B : Type} (R : A -> B -> Prop) (l : list A) (l' : list B) (x : A) :
  Forall2 R l l' -> In x l -> exists y, In y l' /\ R x y.
Proof.
  induction 1 as [ | a b l l' Hab _ IH]; intros Hin; [contradiction | ].
  destruct Hin as [-> | Hin].
  - exists b. split; [left; reflexivity | exact Hab].
  - destruct (IH Hin) as (y & Hy & Hxy). exists y. split; [right; exact Hy | exact Hxy].
Qed.

Lemma Forall2_In_right {A B : Type} (R : A -> B -> Prop) (l : list A) (l' : list B) (y : B) :
  Forall2 R l l' -> In y l' -> exists x, In x l /\ R x y.
Proof.
  induction 1 as [ | a b l l' Hab _ IH]; intros Hin; [contradiction | ].
  destruct Hin as [-> | Hin].
  - exists a. split; [left; reflexivity | exact Hab].
  - destruct (IH Hin) as (x & Hx & Hxy). exists x. split; [right; exact Hx | exact Hxy].
Qed.

Section DenyListInit.
Context `{GoRegexp} `{GoStrings}.

Lemma initConfigDisableTable_step_None (cfg : Config.t) (v : string) :
  initConfigDisableTable_step cfg v = None
  <-> is_pattern (TrimSpace v) = true /\ MustCompile (TrimSpace v) = None.
Proof.
  unfold initConfigDisableTable_step, is_pattern.
  destruct (HasPrefix (TrimSpace v) "^" && HasSuffix (TrimSpace v) "$").
  - destruct (MustCompile (TrimSpace v)); split; try tauto; try discriminate.
    intros [_ ?]; discriminate.
  - split; [discriminate | intros [? _]; discriminate].
Qed.

Lemma initConfigDisableTable_loop_None (vs : list string) :
  forall cfg : Config.t,
    initConfigDisableTable_loop cfg vs = None
    <-> Exists (fun v => is_pattern (TrimSpace v) = true /\ MustCompile (TrimSpace v) = None) vs.
Proof.
  induction vs as [ | v vs IH]; intros cfg; cbn [initConfigDisableTable_loop].
  - split; [discriminate | ]. intros Hex. inversion Hex.
  - rewrite Exists_cons, <- (initConfigDisableTable_step_None cfg v).
    destruct (initConfigDisableTable_step cfg v) as [cfg1 | ].
    + rewrite IH. split; [tauto | ]. intros [? | ?]; [discriminate | assumption].
    + tauto.
Qed.

(** The regular expressions after the loop: the ones there before, followed
    by the compiled patterns of the deny-list, in order. *)
Lemma initConfigDisableTable_loop_regexps (vs : list string) :
  forall cfg cfg' : Config.t,
    initConfigDisableTable_loop cfg vs = Some cfg' ->
    exists compiled,
      Config.DisableTableRegexp cfg' = Config.DisableTableRegexp cfg ++ compiled
      /\ Forall2 (fun v re => MustCompile v = Some re) (deny_patterns vs) compiled.
Proof.
  unfold deny_patterns.
  induction vs as [ | v vs IH]; intros cfg cfg'; cbn [initConfigDisableTable_loop].
  - intros [= <-]. exists []. rewrite app_nil_r. split; [reflexivity | constructor].
  - destruct (initConfigDisableTable_step cfg v) as [cfg1 | ] eqn:Hstep; [ | discriminate].
    intros Hloop. destruct (IH cfg1 cfg' Hloop) as (compiled & Hre & Hall).
    cbn [map List.filter].
    unfold initConfigDisableTable_step in Hstep. fold (is_pattern (TrimSpace v)) in Hstep.
    destruct (is_pattern (TrimSpace v)).
    + destruct (MustCompile (TrimSpace v)) as [re | ] eqn:Hc; [ | discriminate].
      injection Hstep as <-. exists (re :: compiled). split.
      * rewrite Hre. cbn. rewrite <- app_assoc. reflexivity.
      * constructor; assumption.
    + injection Hstep as <-. exists compiled. split; [exact Hre | exact Hall].
Qed.

Lemma anyMatch_exists (rs : list Regexp) (table : string) :
  anyMatch rs table = true <-> exists re, In re rs /\ MatchString re table = true.
Proof.
  induction rs as [ | r rs IH]; cbn [anyMatch In].
  - split; [discriminate | intros (? & [] & _)].
  - destruct (MatchString r table) eqn:Hr.
    + split; [ | reflexivity]. intros _. exists r. tauto.
    + rewrite IH. split.
      * intros (re & Hin & Hm). exists re. tauto.
      * intros (re & [-> | Hin] & Hm); [congruence | exists re; tauto].
Qed.

(** X14: [initConfigDisableTable] panics exactly when an entry of the
    deny-list, once [strings.TrimSpace] has trimmed it, has the form of a
    pattern and does not compile; literal entries never make it panic. *)
Theorem initConfigDisableTable_panics_iff (cfg : Config.t) :
  initConfigDisableTable cfg = None
  <-> exists v, In v (Config.DisableTable cfg)
                /\ is_pattern (TrimSpace v) = true
                /\ MustCompile (TrimSpace v) = None.
Proof.
  unfold initConfigDisableTable.
  rewrite initConfigDisableTable_loop_None, List.Exists_exists. reflexivity.
Qed.

(** X15: what [isTableDisabled] answers on a configuration as loaded, once
    [initConfigDisableTable] has run.  If every entry of the deny-list is a
    pattern, a table is rejected exactly when one of the compiled patterns
    matches its name.  If the deny-list has a literal entry, a table is
    rejected exactly when its name is a literal entry with surrounding white
    space removed.  Entries are taken as [strings.TrimSpace] leaves them. *)
Theorem isTableDisabled_initialised (cfg0 cfg : Config.t) (table : string) :
  Config.DisableTableMap cfg0 = None ->
  Config.DisableTableRegexp cfg0 = [] ->
  initConfigDisableTable cfg0 = Some cfg ->
  (deny_literals (Config.DisableTable cfg0) = [] ->
   (isTableDisabled cfg table = true
    <-> exists v re, In v (deny_patterns (Config.DisableTable cfg0))
                     /\ MustCompile v = Some re /\ MatchString re table = true))
  /\ (deny_literals (Config.DisableTable cfg0) <> [] ->
      (isTableDisabled cfg table = true
       <-> In table (deny_literals (Config.DisableTable cfg0)))).
Proof.
  intros Hnil Hnone Hinit.
  rewrite (isTableDisabled_after_init cfg0 cfg table Hnil Hinit).
  unfold initConfigDisableTable in Hinit.
  apply initConfigDisableTable_loop_regexps in Hinit as (compiled & Hre & Hall).
  rewrite Hnone in Hre. cbn [app] in Hre.
  split.
  - intros ->. rewrite anyMatch_exists, Hre. split.
    + intros (re & Hin & Hm).
      apply (Forall2_In_right _ _ _ _ Hall) in Hin as (v & Hv & Hc).
      exists v, re. tauto.
    + intros (v & re & Hv & Hc & Hm).
      apply (Forall2_In_left _ _ _ _ Hall) in Hv as (re' & Hin & Hc').
      exists re'. split; [exact Hin | congruence].
  - intros Hlit.
    destruct (deny_literals (Config.DisableTable cfg0)) as [ | l ls]; [contradiction | ].
    apply name_in_In.
Qed.

End DenyListInit.

Lemma isTableDisabled_initialised_witness :
  (deny_literals (Config.DisableTable (loaded_config ["^log_.*$"] [])) = [] ->
   (isTableDisabled (started_config ["^log_.*$"] []) "log_x" = true
    <-> exists v re, In v (deny_patterns (Config.DisableTable (loaded_config ["^log_.*$"] [])))
                     /\ @MustCompile Fragment.engine v = Some re
                     /\ @MatchString Fragment.engine re "log_x" = true))
  /\ (deny_literals (Config.DisableTable (loaded_config ["^log_.*$"] [])) <> [] ->
      (isTableDisabled (started_config ["^log_.*$"] []) "log_x" = true
       <-> In "log_x" (deny_literals (Config.DisableTable (loaded_config ["^log_.*$"] []))))).
Proof.
  apply (isTableDisabled_initialised (loaded_config ["^log_.*$"] [])
           (started_config ["^log_.*$"] []) "log_x").
  - reflexivity.
  - reflexivity.
  - vm_compute. reflexivity.
Defined.

(** ** The table filter, in general *)

Section FilterModes.
Context `{GoRegexp} `{GoStrings}.

(** X16: whatever the configuration, the filter of [GetAllTables] only drops
    tables: what it keeps is the listing filtered by a test on the table name,
    so the order of the listing is kept, nothing is added, and two tables of
    the same name share their fate. *)
Theorem selectTables_by_name (config : Config.t) :
  exists keep : string -> bool,
    forall lists : list Table.t,
      selectTables config lists = List.filter (fun t => keep (Table.Table t)) lists.
Proof.
  unfold selectTables.
  destruct (Nat.ltb 0 (size (onlyTableMap config))).
  - exists (fun name => bool_decide (name ∈ onlyTableMap config)).
    intros lists. apply selectTables_loop_only.
  - exists (fun name => negb (isTableDisabled config name)).
    intros lists. apply selectTables_loop_deny.
Qed.

(** X17: an allow-list whose entries are all blank (nothing is left of them
    once [strings.TrimSpace] has trimmed them) counts as no allow-list: the
    filter keeps exactly the tables that [isTableDisabled] does not reject. *)
Theorem selectTables_blank_allow_list (config : Config.t) (lists : list Table.t) :
  Forall (fun v => TrimSpace v = "") (Config.OnlyTable config) ->
  selectTables config lists
  = List.filter (fun t => negb (isTableDisabled config (Table.Table t))) lists.
Proof.
  intros Hblank. unfold selectTables.
  destruct (Nat.ltb 0 (size (onlyTableMap config))) eqn:Hflag.
  - apply onlyTable_flag in Hflag as (v & Hv & Hne).
    rewrite List.Forall_forall in Hblank. specialize (Hblank v Hv). contradiction.
  - apply selectTables_loop_deny.
Qed.

End FilterModes.

Lemma selectTables_blank_allow_list_witness :
  selectTables (started_config ["audit"] [""; "  "]) [listed "audit"; listed "users"]
  = List.filter
      (fun t => negb (isTableDisabled (started_config ["audit"] [""; "  "]) (Table.Table t)))
      [listed "audit"; listed "users"].
Proof.
  apply (selectTables_blank_allow_list (started_config ["audit"] [""; "  "])).
  repeat constructor.
Defined.

(** ** Loops over the database: success and first failure *)

(** A loop whose every round succeeds returns the results in order and logs
    the statements of the rounds in order. *)
Lemma mapM_Done {A B : Type} (f : A -> DB B) (g : A -> B) (q : A -> list SQL) (l : list A) :
  (forall a log, In a l -> f a log = (Done (g a), log ++ q a)) ->
  forall log, mapM f l log = (Done (map g l), log ++ concat (map q l)).
Proof.
  induction l as [ | a l IH]; intros Hf log.
  - cbn. unfold ret. rewrite app_nil_r. reflexivity.
  - cbn [mapM map concat]. unfold bind at 1. rewrite (Hf a log (or_introl eq_refl)).
    unfold bind at 1. rewrite IH by (intros b log' Hb; apply Hf; right; exact Hb).
    unfold ret. rewrite app_assoc. reflexivity.
Qed.

(** A loop stops at the first round that fails: the error comes back, with
    the statements logged so far, and the later rounds do not run. *)
Lemma mapM_Failed {A B : Type} (f : A -> DB B) (g : A -> B) (q : A -> list SQL)
  (before after : list A) (a : A) (e : error) (qa : list SQL) :
  (forall b log, In b before -> f b log = (Done (g b), log ++ q b)) ->
  (forall log, f a log = (Failed e, log ++ qa)) ->
  forall log,
    mapM f (before ++ a :: after) log = (Failed e, log ++ concat (map q before) ++ qa).
Proof.
  intros Hbefore Ha. induction before as [ | b before IH]; intros log.
  - cbn [app mapM map concat]. unfold bind at 1. rewrite Ha. reflexivity.
  - cbn [app mapM map concat]. unfold bind at 1.
    rewrite (Hbefore b log (or_introl eq_refl)).
    unfold bind at 1. rewrite IH by (intros b' log' Hb'; apply Hbefore; right; exact Hb').
    rewrite <- !app_assoc. reflexivity.
Qed.

Lemma mapM_map {A B C : Type} (f : B -> DB C) (h : A -> B) (l : list A) :
  forall log, mapM f (map h l) log = mapM (fun a => f (h a)) l log.
Proof.
  induction l as [ | a l IH]; intros log; [reflexivity | ].
  cbn [map mapM]. unfold bind at 1 3. destruct (f (h a) log) as [[b | e | ] log1]; try reflexivity.
  unfold bind. rewrite IH. reflexivity.
Qed.

(** ** PostgreSQL: listing columns and fetching their comments *)

Lemma SchemaPostgresql_column_comment_Ok (way : Way) (table : string) (r : PgColumnRow)
  (comments : list string) (log : list SQL) :
  (pg_column_name r <> "" ->
   answer_strings way (pg_comment_statement table (pg_column_name r)) = Ok comments) ->
  SchemaPostgresql_column_comment way table (Column_of_PgColumnRow r) log
  = (Done (pg_commented comments r),
     log ++ (if String.eqb (pg_column_name r) "" then []
             else [pg_comment_statement table (pg_column_name r)])).
Proof.
  intros Hanswer. unfold SchemaPostgresql_column_comment, pg_commented.
  change (Column.Column (Column_of_PgColumnRow r)) with (pg_column_name r).
  destruct (String.eqb (pg_column_name r) "") eqn:Hname.
  - unfold ret. rewrite app_nil_r. reflexivity.
  - apply String.eqb_neq in Hname. specialize (Hanswer Hname).
    unfold bind, issue. fold (pg_comment_statement table (pg_column_name r)).
    rewrite Hanswer. destruct comments; reflexivity.
Qed.

Lemma pg_comment_statements_concat (table : string) (rows : list PgColumnRow) :
  concat (map (fun r => if String.eqb (pg_column_name r) "" then []
                        else [pg_comment_statement table (pg_column_name r)]) rows)
  = pg_comment_statements table rows.
Proof.
  unfold pg_comment_statements.
  induction rows as [ | r rows IH]; [reflexivity | ].
  cbn [map concat List.filter]. rewrite IH.
  destruct (String.eqb (pg_column_name r) ""); reflexivity.
Qed.

(** X18: when the database answers every statement, the PostgreSQL adapter
    lists the columns of a table with one statement and then fetches the
    comments with one statement per column that has a name, in the order of the
    columns.  The columns come back in that order, each with the first row of
    its comment answer as comment, or without comment when the answer has no
    row. *)
Theorem SchemaPostgresql_QueryColumns_fan_out (way : Way) (schema table : string)
  (rows : list PgColumnRow) (comments : PgColumnRow -> list string) (log : list SQL) :
  schema <> "" -> table <> "" ->
  answer_pg_columns way (pg_columns_statement schema table) = Ok rows ->
  (forall r, In r rows -> pg_column_name r <> "" ->
             answer_strings way (pg_comment_statement table (pg_column_name r))
             = Ok (comments r)) ->
  SchemaPostgresql_QueryColumns way schema table log
  = (Done (map (fun r => pg_commented (comments r) r) rows),
     log ++ pg_columns_statement schema table :: pg_comment_statements table rows).
Proof.
  intros Hschema Htable Hrows Hcomments.
  apply String.eqb_neq in Hschema, Htable.
  unfold SchemaPostgresql_QueryColumns. rewrite Hschema, Htable. cbn [orb].
  unfold bind at 1. unfold issue. fold (pg_columns_statement schema table). rewrite Hrows.
  rewrite mapM_map.
  rewrite (mapM_Done _ (fun r => pg_commented (comments r) r)
             (fun r => if String.eqb (pg_column_name r) "" then []
                       else [pg_comment_statement table (pg_column_name r)])).
  - rewrite pg_comment_statements_concat, <- app_assoc. reflexivity.
  - intros r log' Hr. apply SchemaPostgresql_column_comment_Ok.
    intros Hname. apply Hcomments; assumption.
Qed.

Lemma SchemaPostgresql_QueryColumns_fan_out_witness :
  SchemaPostgresql_QueryColumns (way_users (fun _ => Ok ["identifier"])) "public" "users" []
  = (Done (map (fun r => pg_commented ["identifier"] r) users_rows),
     [] ++ pg_columns_statement "public" "users" :: pg_comment_statements "users" users_rows).
Proof.
  apply (SchemaPostgresql_QueryColumns_fan_out (way_users (fun _ => Ok ["identifier"]))
           "public" "users" users_rows (fun _ => ["identifier"]) []).
  - discriminate.
  - discriminate.
  - reflexivity.
  - reflexivity.
Defined.

(** X19: how the PostgreSQL adapter fails while listing columns.  If the
    listing statement fails, its error comes back and no comment is fetched.
    If the comment query of a column fails, that error comes back, no column is
    returned, and the comments of the later columns are not fetched. *)
Theorem SchemaPostgresql_QueryColumns_first_error (way : Way) (schema table : string)
  (log : list SQL) :
  schema <> "" -> table <> "" ->
  (forall e, answer_pg_columns way (pg_columns_statement schema table) = Err e ->
             SchemaPostgresql_QueryColumns way schema table log
             = (Failed e, log ++ [pg_columns_statement schema table]))
  /\ (forall before r after comments e,
        answer_pg_columns way (pg_columns_statement schema table) = Ok (before ++ r :: after) ->
        (forall b, In b before -> pg_column_name b <> "" ->
                   answer_strings way (pg_comment_statement table (pg_column_name b))
                   = Ok (comments b)) ->
        pg_column_name r <> "" ->
        answer_strings way (pg_comment_statement table (pg_column_name r)) = Err e ->
        SchemaPostgresql_QueryColumns way schema table log
        = (Failed e,
           log ++ pg_columns_statement schema table
               :: pg_comment_statements table before
               ++ [pg_comment_statement table (pg_column_name r)])).
Proof.
  intros Hschema Htable.
  apply String.eqb_neq in Hschema, Htable.
  unfold SchemaPostgresql_QueryColumns. rewrite Hschema, Htable. cbn [orb].
  fold (pg_columns_statement schema table).
  split.
  - intros e Herr. unfold bind, issue. rewrite Herr. reflexivity.
  - intros before r after comments e Hrows Hbefore Hname Herr.
    unfold bind at 1. unfold issue. rewrite Hrows.
    rewrite mapM_map.
    rewrite (mapM_Failed _ (fun b => pg_commented (comments b) b)
               (fun b => if String.eqb (pg_column_name b) "" then []
                         else [pg_comment_statement table (pg_column_name b)])
               before after r e [pg_comment_statement table (pg_column_name r)]).
    + rewrite pg_comment_statements_concat, <- app_assoc. reflexivity.
    + intros b log' Hb. apply SchemaPostgresql_column_comment_Ok.
      intros Hnb. apply Hbefore; assumption.
    + intros log'. unfold SchemaPostgresql_column_comment.
      change (Column.Column (Column_of_PgColumnRow r)) with (pg_column_name r).
      apply String.eqb_neq in Hname. rewrite Hname.
      unfold bind, issue. fold (pg_comment_statement table (pg_column_name r)).
      rewrite Herr. reflexivity.
Qed.

Lemma SchemaPostgresql_QueryColumns_first_error_witness :
  SchemaPostgresql_QueryColumns (way_users email_comment_fails) "public" "users" []
  = (Failed "connection lost",
     [pg_columns_statement "public" "users";
      pg_comment_statement "users" "id";
      pg_comment_statement "users" "email"]).
Proof.
  destruct (SchemaPostgresql_QueryColumns_first_error (way_users email_comment_fails)
              "public" "users" []) as (_ & Hcomment); [discriminate | discriminate | ].
  rewrite (Hcomment [mkPgColumnRow "public" "users" "id" (Some 1%Z) None (Some "NO")
                                   (Some "integer") None None None None None None]
             (mkPgColumnRow "public" "users" "email" (Some 2%Z) None (Some "YES") (Some "text")
                            None None None None None None)
             [] (fun _ => ["identifier"]) "connection lost").
  - reflexivity.
  - reflexivity.
  - intros b [<- | []] _. reflexivity.
  - discriminate.
  - reflexivity.
Defined.

(** ** SQLite: a failing table, and the types of its columns *)

Lemma SchemaSqlite_QuerySchemas_table_Done (way : Way) (table : Table.t) (log : list SQL) :
  (Table.Table table <> "" ->
   exists rows, answer_table_info way (table_info_statement (Table.Table table)) = Ok rows) ->
  exists table',
    SchemaSqlite_QuerySchemas_table way table log = (Done table', log ++ sqlite_statements table).
Proof.
  intros Hanswer. unfold SchemaSqlite_QuerySchemas_table, sqlite_statements, bind.
  destruct (String.eqb (Table.Table table) "") eqn:Hname.
  - unfold SchemaSqlite_QueryColumns. rewrite Hname. unfold ret.
    rewrite app_nil_r. eexists. reflexivity.
  - apply String.eqb_neq in Hname. destruct (Hanswer Hname) as (rows & Hrows).
    rewrite SchemaSqlite_QueryColumns_issues by exact Hname.
    rewrite Hrows. unfold ret. eexists. reflexivity.
Qed.

(** X20: [SchemaSqlite.QuerySchemas] stops at the first table whose statement
    fails: the error comes back, the statements of the tables before it and its
    own have been issued, and the tables after it are not queried.  A table
    without a name is passed over without a statement. *)
Theorem SchemaSqlite_QuerySchemas_first_error (way : Way) (before after : list Table.t)
  (t : Table.t) (e : error) (log : list SQL) :
  Forall (fun b => Table.Table b <> "" ->
                   exists rows,
                     answer_table_info way (table_info_statement (Table.Table b)) = Ok rows)
         before ->
  Table.Table t <> "" ->
  answer_table_info way (table_info_statement (Table.Table t)) = Err e ->
  SchemaSqlite_QuerySchemas way (before ++ t :: after) log
  = (Failed e,
     log ++ concat (map sqlite_statements before) ++ [table_info_statement (Table.Table t)]).
Proof.
  intros Hbefore Hname Herr. unfold SchemaSqlite_QuerySchemas.
  revert log. induction Hbefore as [ | b before Hb _ IH]; intros log.
  - cbn [app mapM map concat]. unfold bind at 1. unfold SchemaSqlite_QuerySchemas_table.
    unfold bind at 1. rewrite SchemaSqlite_QueryColumns_issues by exact Hname.
    rewrite Herr. reflexivity.
  - cbn [app mapM map concat]. unfold bind at 1.
    destruct (SchemaSqlite_QuerySchemas_table_Done way b log Hb) as (b' & ->).
    unfold bind at 1. rewrite IH. rewrite <- !app_assoc. reflexivity.
Qed.

Lemma SchemaSqlite_QuerySchemas_first_error_witness :
  SchemaSqlite_QuerySchemas way_broken_table
    ([sqlite_table "users" ""; sqlite_table "" ""] ++ sqlite_table "broken" ""
       :: [sqlite_table "orders" ""]) []
  = (Failed "no such table",
     [] ++ concat (map sqlite_statements [sqlite_table "users" ""; sqlite_table "" ""])
        ++ [table_info_statement "broken"]).
Proof.
  apply (SchemaSqlite_QuerySchemas_first_error way_broken_table
           [sqlite_table "users" ""; sqlite_table "" ""] [sqlite_table "orders" ""]
           (sqlite_table "broken" "") "no such table" []).
  - repeat constructor; intros _; eexists; reflexivity.
  - discriminate.
  - reflexivity.
Defined.

(** X21: the semantic type of a SQLite column.  The column of a row of
    [PRAGMA table_info] resolves to the type of the family of its declared
    type, in the lower case [strings.ToLower] gives it; it is the bare type
    when the row says [notnull > 0], and otherwise the optional type unless it
    is []byte. *)
Theorem SchemaSqlite_column_goType `{GoStrings} (table : string) (r : TableInfoRow) :
  goType (Column_of_TableInfoRow table r)
  = if (0 <? notNull r)%Z then family_type (ToLower (columnType r))
    else if String.eqb (family_type (ToLower (columnType r))) "[]byte"
         then "[]byte"
         else "*" +:+ family_type (ToLower (columnType r)).
Proof.
  rewrite goType_by_family.
  assert (Hkey : goType_datatype (Column_of_TableInfoRow table r) = ToLower (columnType r)).
  { unfold goType_datatype. cbn [Column_of_TableInfoRow Column.DataType Column.Type_].
    destruct (columnType r); [ | reflexivity].
    cbn [String.eqb negb andb]. symmetry. apply (ToLower_ascii ""). reflexivity. }
  rewrite Hkey. unfold goType_nullable. cbn [Column_of_TableInfoRow Column.IsNullable].
  destruct (0 <? notNull r)%Z.
  - rewrite (ToLower_ascii "no") by reflexivity. reflexivity.
  - rewrite (ToLower_ascii "yes") by reflexivity.
    change (String.eqb (ToLower_bytes "yes") "no") with false. cbv iota. cbn [andb].
    destruct (String.eqb (family_type (ToLower (columnType r))) "[]byte") eqn:Hb.
    + apply String.eqb_eq in Hb. exact Hb.
    + reflexivity.
Qed.

(** ** PostgreSQL: the definition of a table without a sequence *)

Lemma ReplaceAll_dquote_gone (d : string) : Contains (ReplaceAll d dquote "") dquote = false.
Proof.
  unfold ReplaceAll. change (String.eqb dquote "") with false. cbv iota.
  induction d as [ | c d IH]; [reflexivity | ].
  cbn [ReplaceAll_from]. unfold HasPrefix at 1, dquote at 1. cbn [String.prefix].
  destruct (ascii_dec (ascii_of_nat 34) c) as [E | E].
  - replace (String.prefix "" d) with true by (destruct d; reflexivity).
    change (String.length dquote - 1) with 0. exact IH.
  - cbn [Contains]. rewrite IH, orb_false_r.
    unfold HasPrefix, dquote. cbn [String.prefix].
    destruct (ascii_dec (ascii_of_nat 34) c); [contradiction | reflexivity].
Qed.

Lemma SchemaPostgresql_define_step_column (st : string * string) (c : Column.t) :
  snd (SchemaPostgresql_define_step st c) = unquoted_default c.
Proof.
  unfold SchemaPostgresql_define_step, unquoted_default.
  destruct (Column.ColumnDefault c) as [d | ]; [ | reflexivity].
  rewrite strip_quotes.
  destruct (pgsqlSeq_MatchString _); [ | reflexivity].
  destruct (pgsqlSeq_FindAllStringSubmatch _) as [ | [ | ? [ | g [ | ? ?]]] [ | ? ?]];
    try reflexivity.
  destruct (negb (String.eqb g "")); reflexivity.
Qed.

Lemma SchemaPostgresql_define_loop_columns (cs : list Column.t) :
  forall st, snd (SchemaPostgresql_define_loop st cs) = map unquoted_default cs.
Proof.
  induction cs as [ | c cs IH]; intros st; [reflexivity | ].
  cbn [SchemaPostgresql_define_loop map].
  pose proof (SchemaPostgresql_define_step_column st c) as Hc.
  destruct (SchemaPostgresql_define_step st c) as [st1 c']. cbn [snd] in Hc.
  specialize (IH st1).
  destruct (SchemaPostgresql_define_loop st1 cs) as [st2 rest']. cbn [snd] in *.
  rewrite Hc, IH. reflexivity.
Qed.

(** [QueryTableDefineSql] in full: the table after the call and the outcome,
    from the final state of the loop and the answer of the database. *)
Lemma SchemaPostgresql_QueryTableDefineSql_full (way : Way) (table : Table.t)
  (log : list SQL) :
  SchemaPostgresql_QueryTableDefineSql way table log =
    let st := fst (SchemaPostgresql_define_loop ("", Table.AutoIncrementColumn table)
                     (Table.Columns table)) in
    let table1 :=
      Table.set_AutoIncrementColumn (snd st)
        (Table.set_Columns (map unquoted_default (Table.Columns table)) table) in
    match answer_strings way (define_statement table) with
    | Ok rows =>
        ((Table.set_Defined (fst st +:+ pg_rewrite (last_row rows)) table1,
          Done (fst st +:+ pg_rewrite (last_row rows))),
         log ++ [define_statement table])
    | Err e => ((table1, Failed e), log ++ [define_statement table])
    end.
Proof.
  destruct (SchemaPostgresql_QueryTableDefineSql_result way table log) as (columns & Hrun).
  pose proof (SchemaPostgresql_define_loop_columns (Table.Columns table)
                ("", Table.AutoIncrementColumn table)) as Hcols.
  unfold SchemaPostgresql_QueryTableDefineSql, define_statement, issue, pg_rewrite in *.
  destruct (SchemaPostgresql_define_loop _ _) as [[createSequence auto] columns'].
  cbn [fst snd] in *. subst columns'.
  replace (Table.Database (Table.set_AutoIncrementColumn auto
             (Table.set_Columns (map unquoted_default (Table.Columns table)) table)))
    with (Table.Database table) by (destruct table; reflexivity).
  replace (Table.Table (Table.set_AutoIncrementColumn auto
             (Table.set_Columns (map unquoted_default (Table.Columns table)) table)))
    with (Table.Table table) by (destruct table; reflexivity).
  destruct (answer_strings way _); reflexivity.
Qed.

(** X22: a PostgreSQL table without a sequence-backed column.
    [QueryTableDefineSql] leaves its auto-increment column as it is, and the
    definition is the text of the stored procedure with its three rewrites and
    no [CREATE SEQUENCE] line in front. *)
Theorem SchemaPostgresql_define_without_sequence (way : Way) (table : Table.t)
  (rows : list string) (log : list SQL) :
  Forall (fun c => sequence_default c = None) (Table.Columns table) ->
  answer_strings way (define_statement table) = Ok rows ->
  exists table',
    SchemaPostgresql_QueryTableDefineSql way table log
    = ((table', Done (pg_rewrite (last_row rows))), log ++ [define_statement table])
    /\ Table.Defined table' = pg_rewrite (last_row rows)
    /\ Table.AutoIncrementColumn table' = Table.AutoIncrementColumn table.
Proof.
  intros Hnone Hrows. rewrite SchemaPostgresql_QueryTableDefineSql_full.
  rewrite (SchemaPostgresql_define_loop_others _ _ Hnone), Hrows. cbn [fst snd].
  eexists. split; [reflexivity | ]. destruct table; split; reflexivity.
Qed.

Lemma SchemaPostgresql_define_without_sequence_witness :
  exists table',
    SchemaPostgresql_QueryTableDefineSql way_orders notes_table []
    = ((table', Done (pg_rewrite (last_row ["CREATE TABLE public.orders (id integer NOT NULL);"]))),
       [] ++ [define_statement notes_table])
    /\ Table.Defined table'
       = pg_rewrite (last_row ["CREATE TABLE public.orders (id integer NOT NULL);"])
    /\ Table.AutoIncrementColumn table' = Table.AutoIncrementColumn notes_table.
Proof.
  apply (SchemaPostgresql_define_without_sequence way_orders notes_table).
  - repeat constructor.
  - reflexivity.
Defined.

(** X23: what [SchemaPostgresql.QueryTableDefineSql] does whatever the table
    and the answer.  It issues exactly one statement.  Afterwards no default
    expression of the table holds a double quote, and the columns are otherwise
    as they were.  When the statement fails the error comes back and the
    definition of the table is left as it was. *)
Theorem SchemaPostgresql_define_always (way : Way) (table : Table.t) (log : list SQL) :
  snd (SchemaPostgresql_QueryTableDefineSql way table log) = log ++ [define_statement table]
  /\ Table.Columns (fst (fst (SchemaPostgresql_QueryTableDefineSql way table log)))
     = map unquoted_default (Table.Columns table)
  /\ Forall (fun c => forall d, Column.ColumnDefault c = Some d -> Contains d dquote = false)
            (Table.Columns (fst (fst (SchemaPostgresql_QueryTableDefineSql way table log))))
  /\ (forall e, answer_strings way (define_statement table) = Err e ->
        snd (fst (SchemaPostgresql_QueryTableDefineSql way table log)) = Failed e
        /\ Table.Defined (fst (fst (SchemaPostgresql_QueryTableDefineSql way table log)))
           = Table.Defined table).
Proof.
  rewrite SchemaPostgresql_QueryTableDefineSql_full. cbv zeta.
  assert (Hcols : forall t : Table.t,
             Table.Columns t = map unquoted_default (Table.Columns table) ->
             Forall (fun c => forall d, Column.ColumnDefault c = Some d ->
                                        Contains d dquote = false) (Table.Columns t)).
  { intros t ->. apply List.Forall_forall. intros c Hc d Hd.
    apply List.in_map_iff in Hc as (c0 & <- & _). unfold unquoted_default in Hd.
    destruct (Column.ColumnDefault c0) as [d0 | ] eqn:Hd0.
    - destruct c0; cbn in Hd. injection Hd as <-. apply ReplaceAll_dquote_gone.
    - congruence. }
  destruct (answer_strings way (define_statement table)) as [rows | e0]; cbn [fst snd].
  - split; [reflexivity | ]. split; [destruct table; reflexivity | ].
    split; [apply Hcols; destruct table; reflexivity | ]. intros e He. discriminate He.
  - split; [reflexivity | ]. split; [destruct table; reflexivity | ].
    split; [apply Hcols; destruct table; reflexivity | ].
    intros e [= <-]. split; [reflexivity | destruct table; reflexivity].
Qed.

(** ** MySQL: the definition of a table *)

Example SchemaMysql_define_users :
  SchemaMysql_QueryTableDefineSql show_create_users mysql_users []
  = ((Table.mk "app" "users" "" (Table.Columns mysql_users)
        "CREATE TABLE IF NOT EXISTS `users` (`id` bigint) ENGINE=InnoDB AUTO_INCREMENT=1 DEFAULT CHARSET=utf8"
        "id" "" "",
      Done "CREATE TABLE IF NOT EXISTS `users` (`id` bigint) ENGINE=InnoDB AUTO_INCREMENT=1 DEFAULT CHARSET=utf8"),
     [show_create_statement mysql_users]).
Proof. reflexivity. Qed.

Example autoIncrement_reset_cases :
  autoIncrement_reset "a AUTO_INCREMENT=120, auto_increment=7x Auto_Increment=5 AUTO_INCREMENT="
  = "a AUTO_INCREMENT=1, auto_increment=1x Auto_Increment=5 AUTO_INCREMENT=".
Proof. reflexivity. Qed.

Lemma append_assoc (a b c : string) : (a +:+ b) +:+ c = a +:+ (b +:+ c).
Proof.
  induction a as [ | x a IH]; [reflexivity | ].
  change (String x ((a +:+ b) +:+ c) = String x (a +:+ (b +:+ c))). rewrite IH. reflexivity.
Qed.

Lemma length_append (a b : string) :
  String.length (a +:+ b) = String.length a + String.length b.
Proof.
  induction a as [ | x a IH]; [reflexivity | ].
  change (S (String.length (a +:+ b)) = S (String.length a + String.length b)).
  rewrite IH. reflexivity.
Qed.

Lemma substring_drop_prefix (pre x : string) :
  substring (String.length pre) (String.length (pre +:+ x) - String.length pre) (pre +:+ x) = x.
Proof.
  induction pre as [ | c pre IH].
  - change ("" +:+ x) with x. cbn [String.length]. rewrite Nat.sub_0_r. apply substring_all.
  - change (String c pre +:+ x) with (String c (pre +:+ x)).
    cbn [String.length substring Nat.sub]. exact IH.
Qed.

Lemma span_digits_app (digits rest : string) :
  all_bytes is_digit digits = true ->
  (forall c r, rest = String c r -> is_digit c = false) ->
  span_digits (digits +:+ rest) = (digits, rest).
Proof.
  intros Hd Hrest. induction digits as [ | c digits IH].
  - change ("" +:+ rest) with rest. destruct rest as [ | c r]; [reflexivity | ].
    cbn [span_digits]. rewrite (Hrest c r eq_refl). reflexivity.
  - cbn [all_bytes] in Hd. apply andb_true_iff in Hd as [Hc Hd].
    change (String c digits +:+ rest) with (String c (digits +:+ rest)).
    cbn [span_digits]. rewrite Hc, IH by exact Hd. reflexivity.
Qed.

(** Dropping the bytes of a match. *)
Lemma autoIncrement_reset_skip (pre x : string) :
  autoIncrement_reset_from (pre +:+ x) (String.length pre) = autoIncrement_reset_from x 0.
Proof.
  induction pre as [ | c pre IH]; [reflexivity | ].
  change (String c pre +:+ x) with (String c (pre +:+ x)).
  cbn [String.length autoIncrement_reset_from]. exact IH.
Qed.

Lemma autoIncrement_match_keyword_hit (keyword digits rest : string) :
  digits <> "" ->
  all_bytes is_digit digits = true ->
  (forall c r, rest = String c r -> is_digit c = false) ->
  autoIncrement_match_keyword keyword ((keyword +:+ "=") +:+ (digits +:+ rest))
  = Some (String.length (keyword +:+ "=") + String.length digits).
Proof.
  intros Hne Hd Hrest. unfold autoIncrement_match_keyword.
  rewrite HasPrefix_app, substring_drop_prefix, span_digits_app by assumption.
  apply String.eqb_neq in Hne. rewrite Hne. reflexivity.
Qed.

(** A text that begins with [p] is [p] followed by something. *)
Lemma HasPrefix_split (p s : string) : HasPrefix s p = true -> exists x, s = p +:+ x.
Proof.
  unfold HasPrefix. revert s. induction p as [ | a p IH]; intros s Hs.
  - exists s. reflexivity.
  - destruct s as [ | b s]; [discriminate | ].
    cbn [String.prefix] in Hs. destruct (ascii_dec a b) as [<- | ]; [ | discriminate].
    destruct (IH s Hs) as (x & ->). exists x. reflexivity.
Qed.

(** A text [k] at the start of [p +:+ t] lies within [p], or it runs over the
    end of [p] and its rest is at the start of [t]. *)
Lemma HasPrefix_app_split (p t k : string) :
  HasPrefix (p +:+ t) k = true ->
  HasPrefix p k = true
  \/ exists e q, k = p +:+ String e q /\ HasPrefix t (String e q) = true.
Proof.
  unfold HasPrefix. revert k. induction p as [ | a p IH]; intros k Hk.
  - destruct k as [ | e q]; [left; reflexivity | right]. exists e, q. split; [reflexivity | exact Hk].
  - destruct k as [ | b k]; [left; reflexivity | ].
    change (String a p +:+ t) with (String a (p +:+ t)) in Hk.
    cbn [String.prefix] in Hk |- *.
    destruct (ascii_dec b a) as [-> | ]; [ | discriminate].
    destruct (IH k Hk) as [Hin | (e & q & -> & Hq)]; [left; exact Hin | right].
    exists e, q. split; [reflexivity | exact Hq].
Qed.

Lemma get_append_length (p x : string) :
  String.get (String.length p) (p +:+ x) = String.get 0 x.
Proof.
  induction p as [ | a p IH]; [reflexivity | ].
  change (String a p +:+ x) with (String a (p +:+ x)). cbn [String.length String.get]. exact IH.
Qed.

Lemma In_append_middle (p q : string) (e : ascii) :
  In e (list_ascii_of_string (p +:+ String e q)).
Proof.
  induction p as [ | a p IH]; [left; reflexivity | ].
  change (String a p +:+ String e q) with (String a (p +:+ String e q)). right. exact IH.
Qed.

(** After the keyword and the equals sign, a counter needs a digit. *)
Lemma counter_at_keyword (x : string) :
  counter_at ("AUTO_INCREMENT=" +:+ x) = match x with
                                         | String c _ => is_digit c
                                         | EmptyString => false
                                         end
  /\ counter_at ("auto_increment=" +:+ x) = match x with
                                            | String c _ => is_digit c
                                            | EmptyString => false
                                            end.
Proof.
  unfold counter_at.
  rewrite (HasPrefix_app "AUTO_INCREMENT=" x), (HasPrefix_app "auto_increment=" x), orb_true_r.
  cbn [orb andb].
  change 15 with (String.length "AUTO_INCREMENT=") at 1.
  change 15 with (String.length "auto_increment=").
  rewrite !get_append_length. destruct x; split; reflexivity.
Qed.

(** Where no counter starts, the pattern does not match. *)
Lemma autoIncrement_match_none (s : string) :
  counter_at s = false -> autoIncrement_match s = None.
Proof.
  intros Hc. unfold autoIncrement_match, autoIncrement_match_keyword.
  change ("AUTO_INCREMENT" +:+ "=") with "AUTO_INCREMENT=".
  change ("auto_increment" +:+ "=") with "auto_increment=".
  destruct (HasPrefix s "AUTO_INCREMENT=") eqn:Hup.
  - apply HasPrefix_split in Hup as (x & ->).
    rewrite (proj1 (counter_at_keyword x)) in Hc.
    rewrite substring_drop_prefix.
    change (HasPrefix ("AUTO_INCREMENT=" +:+ x) "auto_increment=")
      with (HasPrefix (String "A" ("UTO_INCREMENT=" +:+ x)) "auto_increment=").
    change (HasPrefix (String "A" ("UTO_INCREMENT=" +:+ x)) "auto_increment=") with false.
    destruct x as [ | c r]; [reflexivity | ].
    cbn [span_digits]. rewrite Hc. reflexivity.
  - destruct (HasPrefix s "auto_increment=") eqn:Hlow; [ | reflexivity].
    apply HasPrefix_split in Hlow as (x & ->).
    rewrite (proj2 (counter_at_keyword x)) in Hc.
    rewrite substring_drop_prefix.
    destruct x as [ | c r]; [reflexivity | ].
    cbn [span_digits]. rewrite Hc. reflexivity.
Qed.

(** No byte of the keyword past the first is an [A] or an [a]: an occurrence
    of the keyword cannot run into the next one. *)
Lemma keyword_overlap (c h e : ascii) (p q : string) (k : string) :
  k = "AUTO_INCREMENT=" \/ k = "auto_increment=" ->
  h = "A"%char \/ h = "a"%char ->
  k = String c p +:+ String e q ->
  e <> h.
Proof.
  intros Hk Hh Heq Heh. subst e.
  pose proof (In_append_middle p q h) as Hin.
  change (String c p +:+ String h q) with (String c (p +:+ String h q)) in Heq.
  apply In_existsb_byte in Hin.
  destruct Hk as [-> | ->]; injection Heq as _ Htail; rewrite <- Htail in Hin;
    destruct Hh as [-> | ->]; vm_compute in Hin; discriminate Hin.
Qed.

(** A keyword put after a text brings no counter that starts in the text. *)
Lemma counter_at_before_keyword (c h : ascii) (p t : string) :
  h = "A"%char \/ h = "a"%char ->
  counter_at (String c p) = false ->
  counter_at (String c p +:+ String h t) = false.
Proof.
  intros Hh Hc.
  assert (Hdigit : is_digit h = false) by (destruct Hh as [-> | ->]; reflexivity).
  assert (Hwithin : forall k,
             k = "AUTO_INCREMENT=" \/ k = "auto_increment=" ->
             HasPrefix (String c p +:+ String h t) k = true ->
             match String.get 15 (String c p +:+ String h t) with
             | Some d => is_digit d
             | None => false
             end = false).
  { intros k Hk Hpre.
    apply HasPrefix_app_split in Hpre as [Hin | (e & q & Heq & Hq)].
    - apply HasPrefix_split in Hin as (x & Hx). rewrite Hx in Hc |- *.
      rewrite append_assoc.
      replace 15 with (String.length k) by (destruct Hk as [-> | ->]; reflexivity).
      rewrite get_append_length.
      assert (Hx' : match x with String d _ => is_digit d | EmptyString => false end = false).
      { destruct Hk as [-> | ->]; [rewrite <- (proj1 (counter_at_keyword x))
                                  | rewrite <- (proj2 (counter_at_keyword x))]; exact Hc. }
      destruct x as [ | d r]; [exact Hdigit | exact Hx'].
    - exfalso. apply (keyword_overlap c h e p q k Hk Hh Heq).
      unfold HasPrefix in Hq. cbn [String.prefix] in Hq.
      destruct (ascii_dec e h) as [E | ]; [exact E | discriminate Hq]. }
  unfold counter_at.
  destruct (HasPrefix (String c p +:+ String h t) "AUTO_INCREMENT=") eqn:Hup.
  - cbn [orb andb]. apply (Hwithin "AUTO_INCREMENT="); [left; reflexivity | exact Hup].
  - destruct (HasPrefix (String c p +:+ String h t) "auto_increment=") eqn:Hlow;
      [ | reflexivity].
    cbn [orb andb]. apply (Hwithin "auto_increment="); [right; reflexivity | exact Hlow].
Qed.

(** A text without a counter is left as it is. *)
Lemma autoIncrement_reset_free (s : string) :
  holds_counter s = false -> autoIncrement_reset_from s 0 = s.
Proof.
  induction s as [ | c s IH]; intros Hs; [reflexivity | ].
  cbn [holds_counter] in Hs. apply orb_false_iff in Hs as [Hc Hs].
  cbn [autoIncrement_reset_from].
  rewrite (autoIncrement_match_none _ Hc), IH by exact Hs. reflexivity.
Qed.

(** A text without a counter is copied up to the keyword that follows it. *)
Lemma autoIncrement_reset_prefix (pre : string) (h : ascii) (t : string) :
  h = "A"%char \/ h = "a"%char ->
  holds_counter pre = false ->
  autoIncrement_reset_from (pre +:+ String h t) 0
  = pre +:+ autoIncrement_reset_from (String h t) 0.
Proof.
  intros Hh. induction pre as [ | c pre IH]; intros Hpre; [reflexivity | ].
  cbn [holds_counter] in Hpre. apply orb_false_iff in Hpre as [Hc Hpre].
  pose proof (counter_at_before_keyword c h pre t Hh Hc) as Hnone.
  apply autoIncrement_match_none in Hnone.
  change (String c pre +:+ String h t) with (String c (pre +:+ String h t)) in Hnone |- *.
  cbn [autoIncrement_reset_from]. rewrite Hnone, IH by exact Hpre. reflexivity.
Qed.

(** A counter at the start of the text is reset, and the text after its
    digits is rewritten in turn. *)
Lemma autoIncrement_reset_hit (keyword digits rest : string) :
  keyword = "AUTO_INCREMENT" \/ keyword = "auto_increment" ->
  digits <> "" ->
  all_bytes is_digit digits = true ->
  (forall c r, rest = String c r -> is_digit c = false) ->
  autoIncrement_reset_from (keyword +:+ "=" +:+ digits +:+ rest) 0
  = keyword +:+ "=1" +:+ autoIncrement_reset_from rest 0.
Proof.
  intros Hkw Hne Hd Hrest.
  pose proof (autoIncrement_match_keyword_hit keyword digits rest Hne Hd Hrest) as Hhit.
  destruct Hkw as [-> | ->].
  - change ("AUTO_INCREMENT" +:+ "=" +:+ digits +:+ rest)
      with (String "A" ("UTO_INCREMENT=" +:+ (digits +:+ rest))).
    change (("AUTO_INCREMENT" +:+ "=") +:+ (digits +:+ rest))
      with (String "A" ("UTO_INCREMENT=" +:+ (digits +:+ rest))) in Hhit.
    cbn [autoIncrement_reset_from]. unfold autoIncrement_match. rewrite Hhit.
    change (String.length ("AUTO_INCREMENT" +:+ "=") + String.length digits - 1)
      with (14 + String.length digits - 0).
    rewrite Nat.sub_0_r, <- (append_assoc "UTO_INCREMENT=" digits rest).
    replace (14 + String.length digits) with (String.length ("UTO_INCREMENT=" +:+ digits))
      by (rewrite length_append; reflexivity).
    rewrite autoIncrement_reset_skip. reflexivity.
  - change ("auto_increment" +:+ "=" +:+ digits +:+ rest)
      with (String "a" ("uto_increment=" +:+ (digits +:+ rest))).
    change (("auto_increment" +:+ "=") +:+ (digits +:+ rest))
      with (String "a" ("uto_increment=" +:+ (digits +:+ rest))) in Hhit.
    cbn [autoIncrement_reset_from]. unfold autoIncrement_match. rewrite Hhit.
    change (autoIncrement_match_keyword "AUTO_INCREMENT"
              (String "a" ("uto_increment=" +:+ (digits +:+ rest)))) with (@None nat).
    cbv iota.
    change (String.length ("auto_increment" +:+ "=") + String.length digits - 1)
      with (14 + String.length digits - 0).
    rewrite Nat.sub_0_r, <- (append_assoc "uto_increment=" digits rest).
    replace (14 + String.length digits) with (String.length ("uto_increment=" +:+ digits))
      by (rewrite length_append; reflexivity).
    rewrite autoIncrement_reset_skip. reflexivity.
Qed.

(** X25: the rewrite of the auto-increment counter in a MySQL definition, at
    the first counter of the text.  A counter is [AUTO_INCREMENT=] or
    [auto_increment=] followed by a digit.  The text before the first counter
    is copied as it is, bare keywords included; the counter, with all the
    digits that follow the equals sign, becomes the same keyword followed by
    [=1]; and what comes after the digits is rewritten in the same way.  A
    text that holds no counter is left as it is. *)
Theorem autoIncrement_reset_counter (pre keyword digits rest : string) :
  holds_counter pre = false ->
  keyword = "AUTO_INCREMENT" \/ keyword = "auto_increment" ->
  digits <> "" ->
  all_bytes is_digit digits = true ->
  (forall c r, rest = String c r -> is_digit c = false) ->
  autoIncrement_reset pre = pre
  /\ autoIncrement_reset (pre +:+ keyword +:+ "=" +:+ digits +:+ rest)
     = pre +:+ keyword +:+ "=1" +:+ autoIncrement_reset rest.
Proof.
  intros Hpre Hkw Hne Hd Hrest. unfold autoIncrement_reset.
  split; [apply autoIncrement_reset_free; exact Hpre | ].
  rewrite <- (autoIncrement_reset_hit keyword digits rest Hkw Hne Hd Hrest).
  destruct Hkw as [-> | ->].
  - apply (autoIncrement_reset_prefix pre "A" ("UTO_INCREMENT" +:+ "=" +:+ digits +:+ rest));
      [left; reflexivity | exact Hpre].
  - apply (autoIncrement_reset_prefix pre "a" ("uto_increment" +:+ "=" +:+ digits +:+ rest));
      [right; reflexivity | exact Hpre].
Qed.

Lemma autoIncrement_reset_counter_witness :
  autoIncrement_reset "CREATE TABLE `t` (`id` int NOT NULL AUTO_INCREMENT, `n` int) ENGINE=InnoDB "
  = "CREATE TABLE `t` (`id` int NOT NULL AUTO_INCREMENT, `n` int) ENGINE=InnoDB "
  /\ autoIncrement_reset
       ("CREATE TABLE `t` (`id` int NOT NULL AUTO_INCREMENT, `n` int) ENGINE=InnoDB "
          +:+ "AUTO_INCREMENT" +:+ "=" +:+ "42" +:+ " DEFAULT CHARSET=utf8")
     = "CREATE TABLE `t` (`id` int NOT NULL AUTO_INCREMENT, `n` int) ENGINE=InnoDB "
         +:+ "AUTO_INCREMENT" +:+ "=1" +:+ autoIncrement_reset " DEFAULT CHARSET=utf8".
Proof.
  apply (autoIncrement_reset_counter
           "CREATE TABLE `t` (`id` int NOT NULL AUTO_INCREMENT, `n` int) ENGINE=InnoDB "
           "AUTO_INCREMENT" "42" " DEFAULT CHARSET=utf8").
  - reflexivity.
  - left. reflexivity.
  - discriminate.
  - reflexivity.
  - intros c r [= <- _]. reflexivity.
Defined.

Lemma SchemaMysql_auto_step_other `{GoStrings} (auto : string) (cs : list Column.t) :
  Forall (fun c => mysql_auto c = false) cs ->
  fold_left SchemaMysql_auto_step cs auto = auto.
Proof.
  intros Hcs. revert auto. induction Hcs as [ | c cs Hc _ IH]; intros auto; [reflexivity | ].
  cbn [fold_left]. rewrite IH. unfold SchemaMysql_auto_step, mysql_auto in *.
  destruct (Column.Extra c); [rewrite Hc | ]; reflexivity.
Qed.

Lemma SchemaMysql_auto_step_last `{GoStrings} (auto : string) (before after : list Column.t)
  (c : Column.t) :
  mysql_auto c = true ->
  Forall (fun c' => mysql_auto c' = false) after ->
  fold_left SchemaMysql_auto_step (before ++ c :: after) auto = Column.Column c.
Proof.
  intros Hc Hafter. rewrite fold_left_app. cbn [fold_left].
  rewrite SchemaMysql_auto_step_other by exact Hafter.
  unfold SchemaMysql_auto_step, mysql_auto in *.
  destruct (Column.Extra c); [rewrite Hc; reflexivity | discriminate].
Qed.

(** X24: the MySQL adapter's [QueryTableDefineSql].  It issues exactly one
    statement and leaves the columns alone.  The auto-increment column becomes
    the name of the last column whose [EXTRA] attribute has the lower case
    [auto_increment] ([strings.ToLower]), and stays as it was when there is
    none; that happens
    even when the statement fails, in which case the error comes back and the
    definition is left as it was.  When the statement succeeds the definition
    is the text of the last row, with [CREATE TABLE] made idempotent and the
    counter reset. *)
Theorem SchemaMysql_define_always `{GoStrings}
  (answer_pairs : SQL -> Result (list (string * string))) (table : Table.t) (log : list SQL) :
  snd (SchemaMysql_QueryTableDefineSql answer_pairs table log)
  = log ++ [show_create_statement table]
  /\ Table.Columns (fst (fst (SchemaMysql_QueryTableDefineSql answer_pairs table log)))
     = Table.Columns table
  /\ (forall before c after,
        Table.Columns table = before ++ c :: after ->
        mysql_auto c = true ->
        Forall (fun c' => mysql_auto c' = false) after ->
        Table.AutoIncrementColumn
          (fst (fst (SchemaMysql_QueryTableDefineSql answer_pairs table log)))
        = Column.Column c)
  /\ (Forall (fun c => mysql_auto c = false) (Table.Columns table) ->
      Table.AutoIncrementColumn
        (fst (fst (SchemaMysql_QueryTableDefineSql answer_pairs table log)))
      = Table.AutoIncrementColumn table)
  /\ (forall e, answer_pairs (show_create_statement table) = Err e ->
        snd (fst (SchemaMysql_QueryTableDefineSql answer_pairs table log)) = Failed e
        /\ Table.Defined (fst (fst (SchemaMysql_QueryTableDefineSql answer_pairs table log)))
           = Table.Defined table)
  /\ (forall rows, answer_pairs (show_create_statement table) = Ok rows ->
        snd (fst (SchemaMysql_QueryTableDefineSql answer_pairs table log))
        = Done (autoIncrement_reset
                  (ReplaceAll (snd (List.last rows ("", "")))
                              "CREATE TABLE" "CREATE TABLE IF NOT EXISTS"))
        /\ Table.Defined (fst (fst (SchemaMysql_QueryTableDefineSql answer_pairs table log)))
           = autoIncrement_reset
               (ReplaceAll (snd (List.last rows ("", "")))
                           "CREATE TABLE" "CREATE TABLE IF NOT EXISTS")).
Proof.
  unfold SchemaMysql_QueryTableDefineSql, issue.
  set (auto := fold_left SchemaMysql_auto_step (Table.Columns table)
                         (Table.AutoIncrementColumn table)).
  replace (show_create_statement (Table.set_AutoIncrementColumn auto table))
    with (show_create_statement table) by (destruct table; reflexivity).
  assert (Hlast : forall before c after,
             Table.Columns table = before ++ c :: after ->
             mysql_auto c = true ->
             Forall (fun c' => mysql_auto c' = false) after ->
             auto = Column.Column c).
  { intros before c after Hcols Hc Hafter. subst auto. rewrite Hcols.
    apply SchemaMysql_auto_step_last; assumption. }
  assert (Hnone : Forall (fun c => mysql_auto c = false) (Table.Columns table) ->
                  auto = Table.AutoIncrementColumn table).
  { intros Hall. subst auto. apply SchemaMysql_auto_step_other. exact Hall. }
  clearbody auto.
  destruct (answer_pairs (show_create_statement table)) as [rows | e0]; cbn [fst snd].
  - split; [reflexivity | ]. split; [destruct table; reflexivity | ].
    split; [intros before c after H1 H2 H3; rewrite <- (Hlast before c after H1 H2 H3);
            destruct table; reflexivity | ].
    split; [intros Hall; rewrite <- (Hnone Hall); destruct table; reflexivity | ].
    split; [intros e He; discriminate He | ].
    intros rows' [= <-]. split; [reflexivity | destruct table; reflexivity].
  - split; [reflexivity | ]. split; [destruct table; reflexivity | ].
    split; [intros before c after H1 H2 H3; rewrite <- (Hlast before c after H1 H2 H3);
            destruct table; reflexivity | ].
    split; [intros Hall; rewrite <- (Hnone Hall); destruct table; reflexivity | ].
    split; [ | intros rows' Hr; discriminate Hr].
    intros e [= <-]. split; [reflexivity | destruct table; reflexivity].
Qed.

(** ** The template function [mark] *)

Example mark_backquote : mark "`" "prefix.user" = "`prefix`.`user`". Proof. reflexivity. Qed.
Example mark_dquote :
  mark dquote "user" = "\" +:+ dquote +:+ "user" +:+ "\" +:+ dquote.
Proof. reflexivity. Qed.
Example Split_dots : Split "a..b." "." = ["a"; ""; "b"; ""]. Proof. reflexivity. Qed.
Example NewWay_mysql_Database_ex :
  NewWay_mysql_Database "" "root:secret@tcp(localhost:3306)/shop?charset=utf8mb4" = Some "shop".
Proof. reflexivity. Qed.
Example NewWay_mysql_Database_panic :
  NewWay_mysql_Database "" "root:se?ret@tcp(localhost:3306)/shop" = None.
Proof. reflexivity. Qed.

Lemma append_nil_r (a : string) : a +:+ "" = a.
Proof.
  induction a as [ | x a IH]; [reflexivity | ].
  change (String x (a +:+ "") = String x a). rewrite IH. reflexivity.
Qed.

Lemma HasPrefix_dot (x : ascii) (r : string) : HasPrefix (String x r) "." = Ascii.eqb x ".".
Proof.
  unfold HasPrefix. cbn [String.prefix].
  destruct (ascii_dec "." x) as [<- | Hne]; [destruct r; reflexivity | ].
  symmetry. apply Ascii.eqb_neq. congruence.
Qed.

Lemma Split_from_not_nil (s sep : string) :
  forall skip piece, Split_from s sep skip piece <> [].
Proof.
  induction s as [ | c s IH]; intros skip piece; cbn [Split_from]; [discriminate | ].
  destruct skip; [ | apply IH].
  destruct (HasPrefix (String c s) sep); [discriminate | apply IH].
Qed.

Lemma Join_cons (a : string) (rest : list string) (sep : string) :
  rest <> [] -> Join (a :: rest) sep = a +:+ sep +:+ Join rest sep.
Proof. destruct rest; [contradiction | reflexivity]. Qed.

(** Joining the pieces with the separator gives the text back. *)
Lemma Join_Split_dot (s : string) :
  forall piece, Join (Split_from s "." 0 piece) "." = piece +:+ s.
Proof.
  induction s as [ | x s IH]; intros piece.
  - cbn [Split_from Join]. rewrite append_nil_r. reflexivity.
  - cbn [Split_from]. rewrite HasPrefix_dot.
    destruct (Ascii.eqb x ".") eqn:Hx.
    + apply Ascii.eqb_eq in Hx. subst x. change (String.length "." - 1) with 0.
      rewrite Join_cons by apply Split_from_not_nil. rewrite IH. reflexivity.
    + rewrite IH, append_assoc. reflexivity.
Qed.

Lemma Contains_dot_cons (x : ascii) (a : string) :
  Contains (String x a) "." = false -> Ascii.eqb x "." = false /\ Contains a "." = false.
Proof.
  cbn [Contains]. rewrite HasPrefix_dot. intros Hc. apply orb_false_iff in Hc. exact Hc.
Qed.

(** A text without a dot is one piece; a dot after it ends the piece. *)
Lemma Split_from_first_dot (a b : string) :
  Contains a "." = false ->
  forall piece,
    Split_from a "." 0 piece = [piece +:+ a]
    /\ Split_from (a +:+ "." +:+ b) "." 0 piece = (piece +:+ a) :: Split_from b "." 0 "".
Proof.
  induction a as [ | x a IH]; intros Ha piece.
  - rewrite append_nil_r. split; [reflexivity | ].
    change ("" +:+ "." +:+ b) with (String "." b).
    cbn [Split_from]. rewrite HasPrefix_dot. reflexivity.
  - apply Contains_dot_cons in Ha as [Hx Ha].
    change (String x a +:+ "." +:+ b) with (String x (a +:+ "." +:+ b)).
    cbn [Split_from]. rewrite !HasPrefix_dot, Hx.
    destruct (IH Ha (piece +:+ String x "")) as [H1 H2].
    rewrite H1, H2, append_assoc. split; reflexivity.
Qed.

(** X26: the template function [mark] works part by part.  A name without a
    dot is put between two quotes; a dotted name is marked part by part, the
    dots kept; and with a blank quote the name comes back as it is.  The quote
    is the argument as [strings.TrimSpace] leaves it, a double quote being
    escaped with a backslash. *)
Theorem mark_parts `{GoStrings} (c a b s : string) :
  (Contains a "." = false -> mark c a = mark_quote c +:+ a +:+ mark_quote c)
  /\ (Contains a "." = false -> mark c (a +:+ "." +:+ b) = mark c a +:+ "." +:+ mark c b)
  /\ (TrimSpace c = "" -> mark c s = s).
Proof.
  unfold mark. fold (mark_quote c). unfold Split.
  split; [ | split].
  - intros Ha. rewrite (proj1 (Split_from_first_dot a "" Ha "")). reflexivity.
  - intros Ha.
    rewrite (proj2 (Split_from_first_dot a b Ha "")), (proj1 (Split_from_first_dot a "" Ha "")).
    rewrite Join_cons by apply Split_from_not_nil.
    cbn [Join]. change ("" +:+ a) with a.
    rewrite !append_assoc. reflexivity.
  - intros Hc. unfold mark_quote. rewrite Hc.
    change (String.eqb "" dquote) with false. cbv iota.
    change ("" +:+ "." +:+ "") with ".".
    change ("" +:+ Join (Split_from s "." 0 "") "." +:+ "")
      with (Join (Split_from s "." 0 "") "." +:+ "").
    rewrite append_nil_r, Join_Split_dot. reflexivity.
Qed.

(** ** The database name in a MySQL data source name *)

Lemma HasPrefix_byte (x c : ascii) (r : string) :
  HasPrefix (String x r) (String c "") = Ascii.eqb x c.
Proof.
  unfold HasPrefix. cbn [String.prefix].
  destruct (ascii_dec c x) as [<- | Hne].
  - rewrite Ascii.eqb_refl. destruct r; reflexivity.
  - symmetry. apply Ascii.eqb_neq. congruence.
Qed.

Lemma Contains_byte_app (a b : string) (c : ascii) :
  Contains (a +:+ b) (String c "") = Contains a (String c "") || Contains b (String c "").
Proof.
  induction a as [ | x a IH].
  - change ("" +:+ b) with b. reflexivity.
  - change (String x a +:+ b) with (String x (a +:+ b)).
    cbn [Contains]. rewrite !HasPrefix_byte, IH, orb_assoc. reflexivity.
Qed.

Lemma Index_from_absent (s : string) (c : ascii) :
  Contains s (String c "") = false -> forall i, Index_from s (String c "") i = (-1)%Z.
Proof.
  induction s as [ | x s IH]; intros Hs i; [reflexivity | ].
  cbn [Contains] in Hs. apply orb_false_iff in Hs as [Hx Hs].
  cbn [Index_from]. rewrite Hx. apply IH. exact Hs.
Qed.

Lemma Index_from_byte (pre rest : string) (c : ascii) :
  Contains pre (String c "") = false ->
  forall i, Index_from (pre +:+ String c rest) (String c "") i
            = (i + Z.of_nat (String.length pre))%Z.
Proof.
  induction pre as [ | x pre IH]; intros Hpre i.
  - change ("" +:+ String c rest) with (String c rest).
    cbn [Index_from String.length]. rewrite HasPrefix_byte, Ascii.eqb_refl. lia.
  - cbn [Contains] in Hpre. apply orb_false_iff in Hpre as [Hx Hpre].
    rewrite HasPrefix_byte in Hx.
    change (String x pre +:+ String c rest) with (String x (pre +:+ String c rest)).
    cbn [Index_from]. rewrite HasPrefix_byte, Hx, IH by exact Hpre.
    cbn [String.length]. lia.
Qed.

Lemma substring_prefix (mid post : string) :
  substring 0 (String.length mid) (mid +:+ post) = mid.
Proof.
  induction mid as [ | x mid IH].
  - destruct post; reflexivity.
  - change (String x mid +:+ post) with (String x (mid +:+ post)).
    cbn [String.length substring]. rewrite IH. reflexivity.
Qed.

Lemma substring_middle (pre mid post : string) :
  substring (String.length pre) (String.length mid) (pre +:+ mid +:+ post) = mid.
Proof.
  induction pre as [ | x pre IH].
  - change ("" +:+ mid +:+ post) with (mid +:+ post). apply substring_prefix.
  - change (String x pre +:+ mid +:+ post) with (String x (pre +:+ mid +:+ post)).
    cbn [String.length substring]. exact IH.
Qed.

Lemma slice_middle (pre mid post : string) :
  slice (pre +:+ mid +:+ post) (Z.of_nat (String.length pre))
        (Z.of_nat (String.length pre + String.length mid))
  = Some mid.
Proof.
  unfold slice. rewrite !length_append.
  replace ((0 <=? Z.of_nat (String.length pre))%Z) with true by (symmetry; apply Z.leb_le; lia).
  replace ((Z.of_nat (String.length pre)
            <=? Z.of_nat (String.length pre + String.length mid))%Z)
    with true by (symmetry; apply Z.leb_le; lia).
  replace ((Z.of_nat (String.length pre + String.length mid)
            <=? Z.of_nat (String.length pre + (String.length mid + String.length post)))%Z)
    with true by (symmetry; apply Z.leb_le; lia).
  cbn [andb]. rewrite Nat2Z.id.
  replace (Z.to_nat (Z.of_nat (String.length pre + String.length mid)
                     - Z.of_nat (String.length pre)))
    with (String.length mid) by lia.
  rewrite substring_middle. reflexivity.
Qed.

Lemma Index_byte_first (pre rest : string) (c : ascii) :
  Contains pre (String c "") = false ->
  Index (pre +:+ String c rest) (String c "") = Z.of_nat (String.length pre).
Proof. intros Hpre. unfold Index. rewrite Index_from_byte by exact Hpre. lia. Qed.

(** X27: the database name [NewWay] reads off a MySQL data source name when
    the configuration names no database.  It is the text between the first
    slash and the first question mark, or all the text after the first slash
    when there is no question mark; without a slash, and with a database named
    in the configuration, nothing changes; and when a question mark comes
    before the first slash the slice is out of range and [NewWay] panics. *)
Theorem NewWay_mysql_Database_cases (database pre db rest : string) :
  (database <> "" -> NewWay_mysql_Database database rest = Some database)
  /\ (Contains rest "/" = false -> NewWay_mysql_Database "" rest = Some "")
  /\ (Contains pre "/" = false -> Contains pre "?" = false -> Contains db "?" = false ->
      NewWay_mysql_Database "" (pre +:+ "/" +:+ db +:+ "?" +:+ rest) = Some db)
  /\ (Contains pre "/" = false -> Contains pre "?" = false -> Contains db "?" = false ->
      NewWay_mysql_Database "" (pre +:+ "/" +:+ db) = Some db)
  /\ (Contains pre "/" = false -> Contains pre "?" = false -> Contains db "/" = false ->
      NewWay_mysql_Database "" (pre +:+ "?" +:+ db +:+ "/" +:+ rest) = None).
Proof.
  split; [ | split; [ | split; [ | split]]].
  - intros Hne. unfold NewWay_mysql_Database.
    apply String.eqb_neq in Hne. rewrite Hne. reflexivity.
  - intros Hno. unfold NewWay_mysql_Database, Index. cbn [String.eqb].
    rewrite Index_from_absent by exact Hno. reflexivity.
  - intros Hslash Hq Hdb.
    assert (Hstart : Index (pre +:+ "/" +:+ db +:+ "?" +:+ rest) "/"
                     = Z.of_nat (String.length pre))
      by (apply (Index_byte_first pre (db +:+ "?" +:+ rest) "/" Hslash)).
    assert (Hend : Index (pre +:+ "/" +:+ db +:+ "?" +:+ rest) "?"
                   = Z.of_nat (String.length (pre +:+ "/") + String.length db)).
    { replace (pre +:+ "/" +:+ db +:+ "?" +:+ rest)
        with ((pre +:+ "/" +:+ db) +:+ String "?" rest)
        by (rewrite !append_assoc; reflexivity).
      rewrite (Index_byte_first (pre +:+ "/" +:+ db) rest "?")
        by (rewrite !Contains_byte_app, Hq, Hdb; reflexivity).
      rewrite !length_append. f_equal. lia. }
    unfold NewWay_mysql_Database. cbn [String.eqb]. cbv zeta. rewrite Hstart, Hend.
    replace ((-1 <? Z.of_nat (String.length pre))%Z) with true
      by (symmetry; apply Z.ltb_lt; lia).
    replace ((-1 <? Z.of_nat (String.length (pre +:+ "/") + String.length db))%Z) with true
      by (symmetry; apply Z.ltb_lt; lia).
    replace (Z.of_nat (String.length pre) + 1)%Z
      with (Z.of_nat (String.length (pre +:+ "/")))
      by (rewrite length_append; cbn [String.length]; lia).
    replace (pre +:+ "/" +:+ db +:+ "?" +:+ rest)
      with ((pre +:+ "/") +:+ db +:+ ("?" +:+ rest))
      by (rewrite !append_assoc; reflexivity).
    apply slice_middle.
  - intros Hslash Hq Hdb.
    assert (Hstart : Index (pre +:+ "/" +:+ db) "/" = Z.of_nat (String.length pre))
      by (apply (Index_byte_first pre db "/" Hslash)).
    assert (Hend : Index (pre +:+ "/" +:+ db) "?" = (-1)%Z)
      by (unfold Index; apply Index_from_absent;
          rewrite !Contains_byte_app, Hq, Hdb; reflexivity).
    unfold NewWay_mysql_Database. cbn [String.eqb]. cbv zeta. rewrite Hstart, Hend.
    replace ((-1 <? Z.of_nat (String.length pre))%Z) with true
      by (symmetry; apply Z.ltb_lt; lia).
    change ((-1 <? -1)%Z) with false. cbv iota.
    replace (Z.of_nat (String.length pre) + 1)%Z
      with (Z.of_nat (String.length (pre +:+ "/")))
      by (rewrite length_append; cbn [String.length]; lia).
    replace (Z.of_nat (String.length (pre +:+ "/" +:+ db)))
      with (Z.of_nat (String.length (pre +:+ "/") + String.length db))
      by (rewrite !length_append; cbn [String.length]; lia).
    replace (pre +:+ "/" +:+ db) with ((pre +:+ "/") +:+ db +:+ "")
      by (rewrite append_nil_r, append_assoc; reflexivity).
    apply slice_middle.
  - intros Hslash Hq Hdb.
    assert (Hstart : Index (pre +:+ "?" +:+ db +:+ "/" +:+ rest) "/"
                     = Z.of_nat (String.length (pre +:+ "?" +:+ db))).
    { replace (pre +:+ "?" +:+ db +:+ "/" +:+ rest)
        with ((pre +:+ "?" +:+ db) +:+ String "/" rest)
        by (rewrite !append_assoc; reflexivity).
      apply Index_byte_first. rewrite !Contains_byte_app, Hslash, Hdb. reflexivity. }
    assert (Hend : Index (pre +:+ "?" +:+ db +:+ "/" +:+ rest) "?"
                   = Z.of_nat (String.length pre))
      by (apply (Index_byte_first pre (db +:+ "/" +:+ rest) "?" Hq)).
    unfold NewWay_mysql_Database. cbn [String.eqb]. cbv zeta. rewrite Hstart, Hend.
    replace ((-1 <? Z.of_nat (String.length (pre +:+ "?" +:+ db)))%Z) with true
      by (symmetry; apply Z.ltb_lt; lia).
    replace ((-1 <? Z.of_nat (String.length pre))%Z) with true
      by (symmetry; apply Z.ltb_lt; lia).
    unfold slice.
    replace ((Z.of_nat (String.length (pre +:+ "?" +:+ db)) + 1
              <=? Z.of_nat (String.length pre))%Z) with false
      by (symmetry; apply Z.leb_gt; rewrite !length_append; lia).
    rewrite andb_false_r. reflexivity.
Qed.
